(** * Blue Marble template engine: chunking, centre-pixel index, pixel diff
      and colour compositor of [src/Template.js] (classes [Template] and
      [TemplateManager]), as a shallow embedding.

    Conventions of the embedding.
    - JavaScript numbers that the code only uses as integers are [Z].
    - A typed array ([Uint8ClampedArray], [Uint32Array]) is a [list Z]; a read
      yields [option Z], [None] being JavaScript's [undefined] (index outside
      the array); a write outside the array does nothing, as in JavaScript.
    - [Set]s of string keys are [gset string]; [Map]s and plain objects that
      are only read by key are [gmap string _]; the object [chunked], whose
      keys are enumerated, is an association list in insertion order.
    - A method returns [option]: [None] stands for a call that does not
      complete normally (a [TypeError] on a null dereference, a loop that did
      not finish within the given fuel, or a chunk key whose fields are not
      plain decimal numerals, which the embedding of [Number] does not read).
    - A canvas returns the bytes that were drawn on it. A browser canvas keeps
      premultiplied colours: it returns the alpha of every pixel and the
      colour of every opaque pixel unchanged, but not the colour bytes of a
      pixel with an alpha below 255. *)

From Stdlib Require Import Ascii Sorted.
From stdpp Require Import gmap strings list fin_maps pretty numbers list_numbers.

Local Open Scope Z_scope.
Set Warnings "-clear-no-such-hyp".


(** ** JavaScript primitives *)
Module JS.

(** [ToInt32] and [ToUint32] on an integer. *)
Definition ToInt32 (z : Z) : Z := (z + 2 ^ 31) `mod` 2 ^ 32 - 2 ^ 31.
Definition ToUint32 (z : Z) : Z := z `mod` 2 ^ 32.

(** A value read from a typed array: a number or [undefined]. The bitwise
    operators coerce [undefined] to 0. *)
Definition num (v : option Z) : Z := default 0 v.

(** [a << n] and [a | b] on 32-bit integers. *)
Definition shl (a n : Z) : Z := ToInt32 (Z.shiftl (ToInt32 a) n).
Definition bor (a b : Z) : Z := ToInt32 (Z.lor (ToInt32 a) (ToInt32 b)).

(** [arr[i]] on a typed array. *)
Definition get (arr : list Z) (i : Z) : option Z :=
  if decide (0 ≤ i) then arr !! Z.to_nat i else None.

(** [arr[i] = v] on a typed array (the stored value is already in range in
    every use below). *)
Definition set (arr : list Z) (i v : Z) : list Z :=
  if decide (0 ≤ i) then <[Z.to_nat i := v]> arr else arr.

(** [v === 0]. *)
Definition is0 (v : option Z) : bool := bool_decide (v = Some 0).

(** [a === b] on two array reads ([undefined === undefined] is true). *)
Definition seq (a b : option Z) : bool := bool_decide (a = b).

(** [for (let i = 0; i < n; i++) body]: the body runs for i = 0, ..., n-1
    in this order. *)
Fixpoint forNat {S : Type} (n : nat) (body : Z → S → S) (s : S) : S :=
  match n with
  | O => s
  | S k => body (Z.of_nat k) (forNat k body s)
  end.
Definition forZ {S : Type} (n : Z) (body : Z → S → S) (s : S) : S :=
  forNat (Z.to_nat n) body s.

(** [for (let i = start; i < stop; i += step) body], with fuel: [None] when
    the fuel is used up before the loop condition fails. *)
Fixpoint forStep {S : Type} (fuel : nat) (i stop step : Z)
    (body : Z → S → option S) (s : S) : option S :=
  if decide (i < stop) then
    match fuel with
    | O => None
    | S k => s' ← body i s; forStep k (i + step) stop step body s'
    end
  else Some s.

(** [`${n}`] for an integer. *)
Definition toString (z : Z) : string := pretty z.

(** [s.padStart(n, '0')]. *)
Definition padStart0 (n : nat) (s : string) : string :=
  String.concat "" (replicate (n - String.length s)%nat "0"%string) +:+ s.

(** [s.split(',')]. *)
Fixpoint splitComma_go (cur : string) (s : string) : list string :=
  match s with
  | EmptyString => [String.rev cur]
  | String c r =>
      if Ascii.eqb c ","%char then String.rev cur :: splitComma_go "" r
      else splitComma_go (String c cur) r
  end.
Definition splitComma (s : string) : list string := splitComma_go "" s.

Definition digit (c : ascii) : option Z :=
  let n := Z.of_N (Ascii.N_of_ascii c) in
  if decide (48 ≤ n ≤ 57) then Some (n - 48) else None.

(** The value of a string of decimal digits read left to right after the
    digits [acc]; [None] at the first other character. *)
Fixpoint digits (acc : Z) (s : string) : option Z :=
  match s with
  | EmptyString => Some acc
  | String c r => d ← digit c; digits (10 * acc + d) r
  end.

(** [Number(s)] on a non-empty string of decimal digits; every other string
    (and [undefined]) is outside the embedding. *)
Definition NumberDec (s : option string) : option Z :=
  match s with
  | Some (String c r) => digits 0 (String c r)
  | _ => None
  end.

(** The longest prefix of decimal digits, read as in [parseInt]: [None] when
    the prefix is empty. *)
Fixpoint leadingDigits (acc : option Z) (s : string) : option Z :=
  match s with
  | EmptyString => acc
  | String c r =>
      match digit c with
      | Some d => leadingDigits (Some (10 * default 0 acc + d)) r
      | None => acc
      end
  end.

(** [parseInt(s, 10)] on a string without leading white space: an optional
    sign, then the leading digits; [None] is [NaN]. *)
Definition parseInt10 (s : string) : option Z :=
  match s with
  | String "-"%char r => Z.opp <$> leadingDigits None r
  | String "+"%char r => leadingDigits None r
  | _ => leadingDigits None s
  end.

End JS.

(** ** Pixel buffers *)

(** [ImageData] / [ImageBitmap]: RGBA bytes, row-major, four per pixel. *)
Record ImageData := mkImage {
  width : Z;
  height : Z;
  data : list Z;
}.

(** The buffer has [4 * width * height] entries, all bytes. *)
Definition wfImage (img : ImageData) : Prop :=
  0 ≤ width img ∧ 0 ≤ height img ∧
  Z.of_nat (length (data img)) = 4 * width img * height img ∧
  Forall (λ b, 0 ≤ b < 256) (data img).

(** [(r << 16) | (g << 8) | b], stored in a [Uint32Array]. *)
Definition packRGB (r g b : option Z) : Z :=
  JS.ToUint32 (JS.bor (JS.bor (JS.shl (JS.num r) 16) (JS.shl (JS.num g) 8)) (JS.num b)).

(** [`${v}`] for a value read from a typed array. *)
Definition showValue (v : option Z) : string :=
  match v with Some z => JS.toString z | None => "undefined" end.

(** [`${r},${g},${b}`]. *)
Definition colorKey (r g b : option Z) : string :=
  showValue r +:+ "," +:+ showValue g +:+ "," +:+ showValue b.

(** The canvas, as far as the code relies on it. [canvasByte src x y c] is
    channel [c] of the pixel of [src] at [(x, y)], transparent black outside
    the image. *)
Definition canvasByte (src : ImageData) (x y c : Z) : Z :=
  if decide (0 ≤ x < width src ∧ 0 ≤ y < height src)
  then JS.num (JS.get (data src) ((y * width src + x) * 4 + c))
  else 0.

(** [ctx.drawImage(src, sx, sy, sw, sh, 0, 0, dw, dh)] on a cleared canvas of
    size [dw] x [dh] with [imageSmoothingEnabled = false], followed by
    [ctx.getImageData(0, 0, dw, dh)]: nearest-neighbour resampling, each
    destination pixel taking the source pixel under its centre. The canvas is
    taken to store the bytes as they are: a canvas that keeps premultiplied
    colours returns the same bytes for opaque pixels and the same alpha for
    all pixels, so what is stated below about colour bytes is stated for
    opaque pixels, or compares two reads of one bitmap. *)
Definition drawImageScaled (src : ImageData) (sx sy sw sh dw dh : Z) : ImageData :=
  mkImage dw dh
    ((λ j, let p := j `div` 4 in
           let X := p `mod` dw in
           let Y := p `div` dw in
           canvasByte src (sx + ((2 * X + 1) * sw) `div` (2 * dw))
                          (sy + ((2 * Y + 1) * sh) `div` (2 * dh)) (j `mod` 4))
       <$> seqZ 0 (4 * dw * dh)).

(** [ctx.drawImage(bmp, 0, 0)] on a cleared canvas of the size of [bmp],
    followed by [ctx.getImageData(0, 0, bmp.width, bmp.height)]. *)
Definition drawImageCopy (bmp : ImageData) : ImageData :=
  drawImageScaled bmp 0 0 (width bmp) (height bmp) (width bmp) (height bmp).

(** One entry of [centerPixelIndex]. *)
Record CenterInfo := mkCenter {
  cwidth : Z;
  cheight : Z;
  cdata : list Z;
}.

(** [obj[key] = v] on a plain object: an existing key keeps its place. *)
Fixpoint objSet {V : Type} (key : string) (v : V) (o : list (string * V)) : list (string * V) :=
  match o with
  | [] => [(key, v)]
  | (k, w) :: r => if decide (k = key) then (k, v) :: r else (k, w) :: objSet key v r
  end.

(** [obj[key]]. *)
Fixpoint objGet {V : Type} (key : string) (o : list (string * V)) : option V :=
  match o with
  | [] => None
  | (k, w) :: r => if decide (k = key) then Some w else objGet key r
  end.

(** [set.add(key)] and [set.delete(key)], guarded by [has] as in the source. *)
Definition setAdd (key : string) (s : gset string) : gset string :=
  if bool_decide (key ∈ s) then s else {[key]} ∪ s.
Definition setDelete (key : string) (s : gset string) : gset string :=
  if bool_decide (key ∈ s) then s ∖ {[key]} else s.

(** [`${globalX},${globalY}`]. *)
Definition pixelKey (globalX globalY : Z) : string :=
  JS.toString globalX +:+ "," +:+ JS.toString globalY.

(** ** class Template *)

Record Template := mkTemplate {
  sortID : Z;
  file : option ImageData;
  coords : option (Z * Z * Z * Z);
  chunked : option (list (string * ImageData));
  tileSize : Z;
  pixelCount : Z;
  placedPixelKeys : gset string;
  wrongPixelKeys : gset string;
  colorsUsed : gmap string Z;
  activeColors : option (gset string);
  centerPixelIndex : gmap string CenterInfo;
  tileIndex : gmap string (list string);
}.

(** What one pass of the inner loop of [createTemplateTiles] computes for its
    segment (most of it is logged): the pixel position, the size drawn, the
    size of the centre-pixel buffer and the key. *)
Record Segment := mkSegment {
  segPixelX : Z;
  segPixelY : Z;
  drawSizeX : Z;
  drawSizeY : Z;
  chunkWidthPx : Z;
  chunkHeightPx : Z;
  segName : string;
}.

Module Template.

(** [new Template({sortID, file, coords, chunked, tileSize})]. *)
Definition new (sortID : Z) (file : option ImageData) (coords : option (Z * Z * Z * Z))
    (chunked : option (list (string * ImageData))) (tileSize : Z) : Template :=
  mkTemplate sortID file coords chunked tileSize 0 ∅ ∅ ∅ (Some ∅) ∅ ∅.

Definition withSets (t : Template) (placed wrong : gset string) : Template :=
  mkTemplate (sortID t) (file t) (coords t) (chunked t) (tileSize t) (pixelCount t)
    placed wrong (colorsUsed t) (activeColors t) (centerPixelIndex t) (tileIndex t).

Definition withChunked (t : Template) (c : option (list (string * ImageData))) : Template :=
  mkTemplate (sortID t) (file t) (coords t) c (tileSize t) (pixelCount t)
    (placedPixelKeys t) (wrongPixelKeys t) (colorsUsed t) (activeColors t)
    (centerPixelIndex t) (tileIndex t).

Definition withTileIndex (t : Template) (ti : gmap string (list string)) : Template :=
  mkTemplate (sortID t) (file t) (coords t) (chunked t) (tileSize t) (pixelCount t)
    (placedPixelKeys t) (wrongPixelKeys t) (colorsUsed t) (activeColors t)
    (centerPixelIndex t) ti.

Definition resetPlacedPixels (t : Template) : Template :=
  withSets t ∅ (wrongPixelKeys t).
Definition getPlacedPixelsCount (t : Template) : Z := Z.of_nat (size (placedPixelKeys t)).
Definition getWrongPixelsCount (t : Template) : Z := Z.of_nat (size (wrongPixelKeys t)).

Definition shreadSize : Z := 3.

(** The body of the loops of lines 155-174: centre samples are counted in
    [colorsUsed], every other pixel is made transparent. *)
Definition shredPixel (canvasWidth y x : Z) (st : list Z * gmap string Z)
    : list Z * gmap string Z :=
  let '(d, cu) := st in
  let pixelIndex := (y * canvasWidth + x) * 4 in
  let isCenter := bool_decide (x `rem` shreadSize = 1) && bool_decide (y `rem` shreadSize = 1) in
  if isCenter then
    let a := JS.get d (pixelIndex + 3) in
    if negb (JS.is0 a) then
      let r := JS.get d (pixelIndex + 0) in
      let g := JS.get d (pixelIndex + 1) in
      let b := JS.get d (pixelIndex + 2) in
      let key := colorKey r g b in
      (d, <[key := default 0 (cu !! key) + 1]> cu)
    else (d, cu)
  else (JS.set d (pixelIndex + 3) 0, cu).

Definition shred (canvasWidth canvasHeight : Z) (st : list Z * gmap string Z)
    : list Z * gmap string Z :=
  JS.forZ canvasHeight (λ y, JS.forZ canvasWidth (λ x, shredPixel canvasWidth y x)) st.

(** The body of the loops of lines 204-219. *)
Definition centerPixel (d : list Z) (canvasWidth chunkWidthPx yy xx : Z)
    (centerData : list Z) : list Z :=
  let cx := xx * shreadSize + 1 in
  let cy := yy * shreadSize + 1 in
  let srcIdx := (cy * canvasWidth + cx) * 4 in
  let a := JS.get d (srcIdx + 3) in
  if JS.is0 a then JS.set centerData (yy * chunkWidthPx + xx) 0
  else
    let r := JS.get d (srcIdx + 0) in
    let g := JS.get d (srcIdx + 1) in
    let b := JS.get d (srcIdx + 2) in
    JS.set centerData (yy * chunkWidthPx + xx) (packRGB r g b).

(** The centre-pixel index built inline for one chunk. *)
Definition inlineCenter (d : list Z) (canvasWidth canvasHeight : Z) : CenterInfo :=
  let chunkWidthPx := canvasWidth `div` shreadSize in
  let chunkHeightPx := canvasHeight `div` shreadSize in
  let centerData := replicate (Z.to_nat (chunkWidthPx * chunkHeightPx)) 0 in
  mkCenter chunkWidthPx chunkHeightPx
    (JS.forZ chunkHeightPx
       (λ yy, JS.forZ chunkWidthPx (λ xx, centerPixel d canvasWidth chunkWidthPx yy xx))
       centerData).

(** The key of a chunk, lines 181-187. *)
Definition templateTileName (c0 c1 pixelX pixelY : Z) : string :=
  JS.padStart0 4 (JS.toString (c0 + pixelX `div` 1000)) +:+ "," +:+
  JS.padStart0 4 (JS.toString (c1 + pixelY `div` 1000)) +:+ "," +:+
  JS.padStart0 3 (JS.toString (pixelX `rem` 1000)) +:+ "," +:+
  JS.padStart0 3 (JS.toString (pixelY `rem` 1000)).

(** [name.split(',').slice(0, 2).join(',')]. *)
Definition tileXYOf (name : string) : string :=
  String.concat "," (take 2 (JS.splitComma name)).

(** The state the chunking loops work on: [templateTiles], the fields
    [colorsUsed], [centerPixelIndex] and [tileIndex] of [this], and the
    segments logged so far (oldest first). *)
Record Chunking := mkChunking {
  templateTiles : list (string * ImageData);
  chColorsUsed : gmap string Z;
  chCenterPixelIndex : gmap string CenterInfo;
  chTileIndex : gmap string (list string);
  segments : list Segment;
}.

(** One pass of the inner loop body, lines 110-229, for the segment at
    [(pixelX, pixelY)] of size [drawSizeX] x [drawSizeY]. The bitmap is stored
    with the bytes of the canvas buffer as they are (see [drawImageScaled]). *)
Definition chunkSegment (bitmap : ImageData) (c0 c1 c2 c3 : Z)
    (pixelX pixelY drawSizeX drawSizeY : Z) (st : Chunking) : Chunking :=
  let canvasWidth := drawSizeX * shreadSize in
  let canvasHeight := drawSizeY * shreadSize in
  let imageData :=
    drawImageScaled bitmap (pixelX - c2) (pixelY - c3) drawSizeX drawSizeY
      (drawSizeX * shreadSize) (drawSizeY * shreadSize) in
  let '(d, cu) := shred canvasWidth canvasHeight (data imageData, chColorsUsed st) in
  let name := templateTileName c0 c1 pixelX pixelY in
  let tileXY := tileXYOf name in
  let list := default [] (chTileIndex st !! tileXY) in
  mkChunking
    (objSet name (mkImage canvasWidth canvasHeight d) (templateTiles st))
    cu
    (<[name := inlineCenter d canvasWidth canvasHeight]> (chCenterPixelIndex st))
    (<[tileXY := list ++ [name]]> (chTileIndex st))
    (segments st ++
       [mkSegment pixelX pixelY drawSizeX drawSizeY
          (canvasWidth `div` shreadSize) (canvasHeight `div` shreadSize) name]).

(** The loop over [pixelX], lines 108-232. A segment of size 0 or less has
    no image data ([getImageData] throws). *)
Fixpoint rowLoop (fuel : nat) (bitmap : ImageData) (tileSize c0 c1 c2 c3 : Z)
    (pixelY drawSizeY pixelX : Z) (st : Chunking) : option Chunking :=
  if decide (pixelX < width bitmap + c2) then
    match fuel with
    | O => None
    | S k =>
        let drawSizeX :=
          Z.min (tileSize - pixelX `rem` tileSize) (width bitmap - (pixelX - c2)) in
        if decide (0 < drawSizeX ∧ 0 < drawSizeY) then
          rowLoop k bitmap tileSize c0 c1 c2 c3 pixelY drawSizeY (pixelX + drawSizeX)
            (chunkSegment bitmap c0 c1 c2 c3 pixelX pixelY drawSizeX drawSizeY st)
        else None
    end
  else Some st.

(** The loop over [pixelY], lines 98-235. *)
Fixpoint tileLoop (fuel : nat) (bitmap : ImageData) (tileSize c0 c1 c2 c3 : Z)
    (pixelY : Z) (st : Chunking) : option Chunking :=
  if decide (pixelY < height bitmap + c3) then
    match fuel with
    | O => None
    | S k =>
        let drawSizeY :=
          Z.min (tileSize - pixelY `rem` tileSize) (height bitmap - (pixelY - c3)) in
        st' ← rowLoop fuel bitmap tileSize c0 c1 c2 c3 pixelY drawSizeY c2 st;
        tileLoop k bitmap tileSize c0 c1 c2 c3 (pixelY + drawSizeY) st'
    end
  else Some st.

(** [for (const key of this.colorsUsed.keys()) this.activeColors.add(key)]:
    a [TypeError] when [activeColors] is null and there is a key. *)
Definition enableAll (cu : gmap string Z) (ac : option (gset string))
    : option (option (gset string)) :=
  match ac with
  | Some s => Some (Some (dom cu ∪ s))
  | None => if decide (cu = ∅) then Some None else None
  end.

(** [createTemplateTiles()]: the new state of [this], the returned
    [templateTiles] and the segments logged. The encoded buffers
    ([templateTilesBuffers]) are left out. A tile size of 0 makes the sizes
    [NaN] and is outside the embedding. *)
Definition createTemplateTiles (fuel : nat) (t : Template)
    : option (Template * list (string * ImageData) * list Segment) :=
  bitmap ← file t;
  '(c0, c1, c2, c3) ← coords t;
  if decide (tileSize t = 0) then None else
  st ← tileLoop fuel bitmap (tileSize t) c0 c1 c2 c3 c3
          (mkChunking [] (colorsUsed t) (centerPixelIndex t) (tileIndex t) []);
  ac ← enableAll (chColorsUsed st) (activeColors t);
  Some (mkTemplate (sortID t) (file t) (coords t) (chunked t) (tileSize t)
          (width bitmap * height bitmap)
          (placedPixelKeys t) (wrongPixelKeys t) (chColorsUsed st) ac
          (chCenterPixelIndex st) (chTileIndex st),
        templateTiles st, segments st).

(** [buildTileIndex()]. *)
Definition buildTileIndex (t : Template) : Template :=
  match chunked t with
  | None => withTileIndex t ∅
  | Some c =>
      withTileIndex t
        (foldl (λ ti key,
                  let tileXY := tileXYOf key in
                  let ti' := if decide (is_Some (ti !! tileXY)) then ti else <[tileXY := []]> ti in
                  <[tileXY := default [] (ti' !! tileXY) ++ [key]]> ti')
               ∅ (c.*1))
  end.

(** The body of the loops of lines 275-292. *)
Definition rebuildPixel (d : list Z) (bmpWidth chunkWidthPx drawMult y x : Z)
    (st : list Z * gmap string Z) : list Z * gmap string Z :=
  let '(centerData, cu) := st in
  let cx := x * drawMult + 1 in
  let cy := y * drawMult + 1 in
  let srcIdx := (cy * bmpWidth + cx) * 4 in
  let a := JS.get d (srcIdx + 3) in
  if JS.is0 a then (JS.set centerData (y * chunkWidthPx + x) 0, cu)
  else
    let r := JS.get d (srcIdx + 0) in
    let g := JS.get d (srcIdx + 1) in
    let b := JS.get d (srcIdx + 2) in
    let key := colorKey r g b in
    (JS.set centerData (y * chunkWidthPx + x) (packRGB r g b),
     <[key := default 0 (cu !! key) + 1]> cu).

(** The body of the loop over the chunks, lines 263-293. *)
Definition rebuildChunk (drawMult : Z) (bmp : ImageData) (cu : gmap string Z)
    : CenterInfo * gmap string Z :=
  let bmpWidth := width bmp in
  let bmpHeight := height bmp in
  let chunkWidthPx := bmpWidth `div` drawMult in
  let chunkHeightPx := bmpHeight `div` drawMult in
  let tplImage := drawImageCopy bmp in
  let centerData := replicate (Z.to_nat (chunkWidthPx * chunkHeightPx)) 0 in
  let '(cd, cu') :=
    JS.forZ chunkHeightPx
      (λ y, JS.forZ chunkWidthPx
              (λ x, rebuildPixel (data tplImage) bmpWidth chunkWidthPx drawMult y x))
      (centerData, cu) in
  (mkCenter chunkWidthPx chunkHeightPx cd, cu').

(** [buildCenterPixelIndex(drawMult)]. With chunks to index, a multiplier of
    0 makes the sizes infinite and is outside the embedding. *)
Definition buildCenterPixelIndex (drawMult : Z) (t : Template) : option Template :=
  match chunked t with
  | None =>
      Some (mkTemplate (sortID t) (file t) (coords t) (chunked t) (tileSize t) (pixelCount t)
              (placedPixelKeys t) (wrongPixelKeys t) ∅ (activeColors t) ∅ (tileIndex t))
  | Some c =>
      if decide (drawMult = 0) then None else
      let '(cpi, cu) :=
        foldl (λ '(cpi, cu) '(key, bmp),
                 let '(ci, cu') := rebuildChunk drawMult bmp cu in
                 (<[key := ci]> cpi, cu'))
              (∅, ∅) c in
      Some (mkTemplate (sortID t) (file t) (coords t) (chunked t) (tileSize t) (pixelCount t)
              (placedPixelKeys t) (wrongPixelKeys t) cu (Some (dom cu)) cpi (tileIndex t))
  end.

End Template.

(** ** class TemplateManager *)

Record TemplateManager := mkManager {
  mTileSize : Z;
  drawMult : Z;
  templatesArray : list Template;
  templatesShouldBeDrawn : bool;
  useLegacyCount : bool;
}.

(** A drawing call on the output canvas [_drawCanvas]. *)
Inductive DrawOp :=
  | DrawScaled (img : ImageData) (dw dh : Z)
  | DrawAt (img : ImageData) (x y : Z).

(** What [drawTemplateOnTile] returns: the tile blob it was given, or the
    drawing calls made on the output canvas before it is encoded. *)
Inductive TileOutput :=
  | Untouched
  | Composed (ops : list DrawOp).

Module TemplateManager.

(** [new TemplateManager(name, version, overlay)]. *)
Definition new : TemplateManager := mkManager 1000 3 [] false true.

Definition withTemplates (m : TemplateManager) (ts : list Template) : TemplateManager :=
  mkManager (mTileSize m) (drawMult m) ts (templatesShouldBeDrawn m) (useLegacyCount m).

Definition setTemplatesShouldBeDrawn (value : bool) (m : TemplateManager) : TemplateManager :=
  mkManager (mTileSize m) (drawMult m) (templatesArray m) value (useLegacyCount m).

(** [createTemplate(blob, name, coords)], lines 444-481. *)
Definition createTemplate (fuel : nat) (blob : ImageData) (coords : Z * Z * Z * Z)
    (m : TemplateManager) : option TemplateManager :=
  let template := Template.new 0 (Some blob) (Some coords) None 1000 in
  '(t1, templateTiles, _) ← Template.createTemplateTiles fuel template;
  let t2 := Template.withChunked t1 (Some templateTiles) in
  let t3 := Template.buildTileIndex t2 in
  t4 ← Template.buildCenterPixelIndex (drawMult m) t3;
  Some (withTemplates m [Template.resetPlacedPixels t4]).

(** The body of the loop over the imported templates, lines 862-889, once
    the tiles are decoded. *)
Definition importTemplate (sortNumber : Z) (templateTiles : list (string * ImageData))
    (m : TemplateManager) : option TemplateManager :=
  let sid :=
    if decide (sortNumber = 0) then Z.of_nat (length (templatesArray m)) else sortNumber in
  let template := Template.new sid None None None 1000 in
  let t1 := Template.withChunked template (Some templateTiles) in
  let t2 := Template.buildTileIndex t1 in
  t3 ← Template.buildCenterPixelIndex (drawMult m) t2;
  let computedTotalPixels :=
    foldl (λ acc '(_, bmp),
             acc + (width bmp `div` drawMult m) * (height bmp `div` drawMult m))
          0 templateTiles in
  let t4 := mkTemplate (sortID t3) (file t3) (coords t3) (chunked t3) (tileSize t3)
              computedTotalPixels (placedPixelKeys t3) (wrongPixelKeys t3) (colorsUsed t3)
              (activeColors t3) (centerPixelIndex t3) (tileIndex t3) in
  Some (withTemplates m (templatesArray m ++ [t4])).

(** [templateArray.sort((a, b) => a.sortID - b.sortID)], a stable sort. *)
Fixpoint insertBySortID (t : Template) (l : list Template) : list Template :=
  match l with
  | [] => [t]
  | u :: r => if decide (sortID t ≤ sortID u) then t :: u :: r else u :: insertBySortID t r
  end.
Definition sortBySortID (l : list Template) : list Template := foldr insertBySortID [] l.

(** The string the tile coordinates are looked up with, line 537. *)
Definition tileCoordsString (tileCoords : Z * Z) : string :=
  JS.padStart0 4 (JS.toString tileCoords.1) +:+ "," +:+ JS.padStart0 4 (JS.toString tileCoords.2).

(** [template.tileIndex?.get(tileCoords) || []]. *)
Definition matchingTiles (tileCoords : string) (t : Template) : list string :=
  default [] (tileIndex t !! tileCoords).

(** The body of the legacy loops, lines 611-640. *)
Definition legacyPixel (tileSize drawMult drawSizeLegacy : Z) (baseImage : list Z)
    (tileXAbs tileYAbs pixelOffsetX pixelOffsetY : Z) (tplImage : list Z) (bmpWidth : Z)
    (y x : Z) (t : Template) : Template :=
  let centerX := (pixelOffsetX + x) * drawMult + 1 in
  let centerY := (pixelOffsetY + y) * drawMult + 1 in
  let tplCenterX := x * drawMult + 1 in
  let tplCenterY := y * drawMult + 1 in
  let tplIdx := (tplCenterY * bmpWidth + tplCenterX) * 4 in
  let tplA := JS.get tplImage (tplIdx + 3) in
  if JS.is0 tplA then t else
  let baseIdx := (centerY * drawSizeLegacy + centerX) * 4 in
  let br := JS.get baseImage (baseIdx + 0) in
  let bg := JS.get baseImage (baseIdx + 1) in
  let bb := JS.get baseImage (baseIdx + 2) in
  let ba := JS.get baseImage (baseIdx + 3) in
  let tr := JS.get tplImage (tplIdx + 0) in
  let tg := JS.get tplImage (tplIdx + 1) in
  let tb := JS.get tplImage (tplIdx + 2) in
  let globalX := tileXAbs * tileSize + (pixelOffsetX + x) in
  let globalY := tileYAbs * tileSize + (pixelOffsetY + y) in
  let key := pixelKey globalX globalY in
  if JS.is0 ba then
    Template.withSets t (setDelete key (placedPixelKeys t)) (setDelete key (wrongPixelKeys t))
  else if JS.seq br tr && JS.seq bg tg && JS.seq bb tb then
    Template.withSets t (setAdd key (placedPixelKeys t)) (setDelete key (wrongPixelKeys t))
  else
    Template.withSets t (setDelete key (placedPixelKeys t)) (setAdd key (wrongPixelKeys t)).

(** The loop over the chunks of one template, lines 592-643. *)
Fixpoint legacyChunks (tileSize drawMult drawSizeLegacy : Z) (baseImage : list Z)
    (tileXAbs tileYAbs : Z) (keys : list string) (t : Template) : option Template :=
  match keys with
  | [] => Some t
  | tileKey :: rest =>
      let coords := JS.splitComma tileKey in
      pixelOffsetX ← JS.NumberDec (coords !! 2%nat);
      pixelOffsetY ← JS.NumberDec (coords !! 3%nat);
      c ← chunked t;
      bmp ← objGet tileKey c;
      let bmpWidth := width bmp in
      let bmpHeight := height bmp in
      let chunkWidthPx := bmpWidth `div` drawMult in
      let chunkHeightPx := bmpHeight `div` drawMult in
      let tplImage := drawImageCopy bmp in
      let t' :=
        JS.forZ chunkHeightPx
          (λ y, JS.forZ chunkWidthPx
                  (λ x, legacyPixel tileSize drawMult drawSizeLegacy baseImage
                          tileXAbs tileYAbs pixelOffsetX pixelOffsetY
                          (data tplImage) bmpWidth y x)) t in
      legacyChunks tileSize drawMult drawSizeLegacy baseImage tileXAbs tileYAbs rest t'
  end.

(** The body of the packing loop, lines 661-668. *)
Definition packBase (d : list Z) (i : Z) (st : list Z * Z) : list Z * Z :=
  let '(basePacked, di) := st in
  let r := JS.get d di in
  let g := JS.get d (di + 1) in
  let b := JS.get d (di + 2) in
  let a := JS.get d (di + 3) in
  (JS.set basePacked i (if JS.is0 a then 0 else packRGB r g b), di + 4).

Definition packBaseImage (tileSize : Z) (d : list Z) : list Z :=
  let basePacked := replicate (Z.to_nat (tileSize * tileSize)) 0 in
  (JS.forZ (Z.of_nat (length basePacked)) (packBase d) (basePacked, 0)).1.

(** The body of the optimized loops, lines 685-705. *)
Definition optimizedPixel (tileSize : Z) (basePacked : list Z)
    (tileXAbs tileYAbs pixelOffsetX pixelOffsetY : Z) (chunkWidthPx : Z) (centerData : list Z)
    (y x : Z) (t : Template) : Template :=
  let dstX := pixelOffsetX + x in
  let dstY := pixelOffsetY + y in
  if decide (dstX < 0 ∨ dstY < 0 ∨ tileSize ≤ dstX ∨ tileSize ≤ dstY) then t else
  let baseVal := JS.get basePacked (dstY * tileSize + dstX) in
  let tplVal := JS.get centerData (y * chunkWidthPx + x) in
  if JS.is0 tplVal then t else
  let globalX := tileXAbs * tileSize + dstX in
  let globalY := tileYAbs * tileSize + dstY in
  let key := pixelKey globalX globalY in
  if JS.is0 baseVal then
    Template.withSets t (setDelete key (placedPixelKeys t)) (setDelete key (wrongPixelKeys t))
  else if JS.seq baseVal tplVal then
    Template.withSets t (setAdd key (placedPixelKeys t)) (setDelete key (wrongPixelKeys t))
  else
    Template.withSets t (setDelete key (placedPixelKeys t)) (setAdd key (wrongPixelKeys t)).

(** The loop over the chunks of one template, lines 676-708. *)
Fixpoint optimizedChunks (tileSize : Z) (basePacked : list Z) (tileXAbs tileYAbs : Z)
    (keys : list string) (t : Template) : option Template :=
  match keys with
  | [] => Some t
  | tileKey :: rest =>
      let coords := JS.splitComma tileKey in
      pixelOffsetX ← JS.NumberDec (coords !! 2%nat);
      pixelOffsetY ← JS.NumberDec (coords !! 3%nat);
      let t' :=
        match centerPixelIndex t !! tileKey with
        | None => t
        | Some centerInfo =>
            JS.forZ (cheight centerInfo)
              (λ y, JS.forZ (cwidth centerInfo)
                      (λ x, optimizedPixel tileSize basePacked tileXAbs tileYAbs
                              pixelOffsetX pixelOffsetY (cwidth centerInfo)
                              (cdata centerInfo) y x)) t
        end in
      optimizedChunks tileSize basePacked tileXAbs tileYAbs rest t'
  end.

(** [for (const template of templateArray) ...] in either counting path. *)
Fixpoint forTemplates (f : Template → option Template) (ts : list Template)
    : option (list Template) :=
  match ts with
  | [] => Some []
  | t :: r => t' ← f t; r' ← forTemplates f r; Some (t' :: r')
  end.

(** The counting step of [drawTemplateOnTile], lines 570-710, on the sorted
    template array. A canvas of size 0 has no image data ([getImageData]
    throws); a negative size is outside the embedding. *)
Definition countPixels (m : TemplateManager) (baseBitmap : ImageData) (tileCoords : string)
    (ts : list Template) : option (list Template) :=
  let fields := JS.splitComma tileCoords in
  if useLegacyCount m then
    let drawSizeLegacy := mTileSize m * drawMult m in
    if decide (drawSizeLegacy ≤ 0 ∨ drawMult m ≤ 0) then None else
    let baseImage :=
      drawImageScaled baseBitmap 0 0 (width baseBitmap) (height baseBitmap)
        drawSizeLegacy drawSizeLegacy in
    tileXAbs ← fields !! 0%nat ≫= JS.parseInt10;
    tileYAbs ← fields !! 1%nat ≫= JS.parseInt10;
    forTemplates
      (λ t, legacyChunks (mTileSize m) (drawMult m) drawSizeLegacy (data baseImage)
              tileXAbs tileYAbs (matchingTiles tileCoords t) t) ts
  else
    if decide (mTileSize m ≤ 0) then None else
    let baseImage :=
      drawImageScaled baseBitmap 0 0 (width baseBitmap) (height baseBitmap)
        (mTileSize m) (mTileSize m) in
    let basePacked := packBaseImage (mTileSize m) (data baseImage) in
    tileXAbs ← fields !! 0%nat ≫= JS.parseInt10;
    tileYAbs ← fields !! 1%nat ≫= JS.parseInt10;
    forTemplates
      (λ t, optimizedChunks (mTileSize m) basePacked tileXAbs tileYAbs
              (matchingTiles tileCoords t) t) ts.

(** The blanking loops, lines 784-792. *)
Definition blankBlock (bw bh y x : Z) (d : list Z) : list Z :=
  JS.forZ 3
    (λ i, let dy := i - 1 in
          JS.forZ 3
            (λ j d, let dx := j - 1 in
                    let xx := x + dx in
                    let yy := y + dy in
                    if decide (xx < 0 ∨ yy < 0 ∨ bw ≤ xx ∨ bh ≤ yy) then d
                    else JS.set d ((yy * bw + xx) * 4 + 3) 0)) d.

(** The body of the masking loops, lines 775-793. *)
Definition maskPixel (ac : gset string) (bw bh y x : Z) (d : list Z) : list Z :=
  let idx := (y * bw + x) * 4 in
  let a := JS.get d (idx + 3) in
  if JS.is0 a then d else
  let r := JS.get d (idx + 0) in
  let g := JS.get d (idx + 1) in
  let b := JS.get d (idx + 2) in
  let key := colorKey r g b in
  if bool_decide (key ∉ ac) then blankBlock bw bh y x d else d.

(** Lines 767-796: the copy of the chunk bitmap with the blocks of the
    colours outside [ac] blanked. *)
Definition maskChunk (fuel : nat) (drawMult : Z) (ac : gset string) (bmp : ImageData)
    : option ImageData :=
  let bw := width bmp in
  let bh := height bmp in
  let img := drawImageCopy bmp in
  d ← JS.forStep fuel 1 bh drawMult
        (λ y, JS.forStep fuel 1 bw drawMult (λ x d, Some (maskPixel ac bw bh y x d)))
        (data img);
  Some (mkImage bw bh d).

(** The body of the loop over the chunks of one template, lines 754-798:
    the drawing calls it adds. *)
Definition compositeChunk (fuel : nat) (drawMult : Z) (tpl : Template) (tileKey : string)
    : option (list DrawOp) :=
  c ← chunked tpl;
  let bmp := objGet tileKey c in
  let fields := JS.splitComma tileKey in
  px ← JS.NumberDec (fields !! 2%nat);
  py ← JS.NumberDec (fields !! 3%nat);
  match activeColors tpl with
  | None => b ← bmp; Some [DrawAt b (px * drawMult) (py * drawMult)]
  | Some ac =>
      if decide (size ac = 0%nat) then Some []
      else b ← bmp; masked ← maskChunk fuel drawMult ac b;
           Some [DrawAt masked (px * drawMult) (py * drawMult)]
  end.

Fixpoint compositeChunks (fuel : nat) (drawMult : Z) (tpl : Template) (keys : list string)
    : option (list DrawOp) :=
  match keys with
  | [] => Some []
  | tileKey :: rest =>
      ops ← compositeChunk fuel drawMult tpl tileKey;
      ops' ← compositeChunks fuel drawMult tpl rest;
      Some (ops ++ ops')
  end.

Fixpoint compositeTemplates (fuel : nat) (drawMult : Z) (tileCoords : string)
    (ts : list Template) : option (list DrawOp) :=
  match ts with
  | [] => Some []
  | tpl :: rest =>
      ops ← compositeChunks fuel drawMult tpl (matchingTiles tileCoords tpl);
      ops' ← compositeTemplates fuel drawMult tileCoords rest;
      Some (ops ++ ops')
  end.

(** [drawTemplateOnTile(tileBlob, tileCoords)]: the manager afterwards and
    what is returned. *)
Definition drawTemplateOnTile (fuel : nat) (tileBlob : ImageData) (tileCoords : Z * Z)
    (m : TemplateManager) : option (TemplateManager * TileOutput) :=
  if negb (templatesShouldBeDrawn m) then Some (m, Untouched) else
  let drawSize := mTileSize m * drawMult m in
  let tileCoords := tileCoordsString tileCoords in
  let templateArray := sortBySortID (templatesArray m) in
  let withKeys := filter (λ t, matchingTiles tileCoords t ≠ []) templateArray in
  if decide (Forall (λ t, is_Some (chunked t)) withKeys) then
    let templateCount := length withKeys in
    if decide (templateCount = 0%nat) then
      Some (withTemplates m templateArray, Untouched)
    else
      ts ← countPixels m tileBlob tileCoords templateArray;
      ops ← compositeTemplates fuel (drawMult m) tileCoords ts;
      Some (withTemplates m ts, Composed (DrawScaled tileBlob drawSize drawSize :: ops))
  else None.

End TemplateManager.

(** ** Template states reachable through the methods that touch the sets *)


(** The effect of a run of pixel updates on the two sets: the keys in
    [touched] are forgotten, then [toPlaced] and [toWrong] are added. *)
Definition applyEffect (touched toPlaced toWrong : gset string) (t : Template) : Template :=
  Template.withSets t
    ((placedPixelKeys t ∖ touched) ∪ toPlaced)
    ((wrongPixelKeys t ∖ touched) ∪ toWrong).

(** [f] acts on a template only through such an effect, the same for every
    template. *)
Definition keyLocal (f : Template → Template) : Prop :=
  ∃ touched toPlaced toWrong, ∀ t, f t = applyEffect touched toPlaced toWrong t.

(** ** Invariant of the chunking loops *)

(** Every stored bitmap has the bytes of its size, and the index holds for
    its key what the inline loops computed from these bytes; the other keys
    of the index are as they were in [cpi0]. *)
Definition chunksIndexed (cpi0 : gmap string CenterInfo) (st : Template.Chunking) : Prop :=
  NoDup (Template.templateTiles st).*1 ∧
  (∀ key bmp, objGet key (Template.templateTiles st) = Some bmp →
     (0 ≤ width bmp ∧ 0 ≤ height bmp ∧
      Z.of_nat (length (data bmp)) = 4 * width bmp * height bmp) ∧
     Template.chCenterPixelIndex st !! key =
       Some (Template.inlineCenter (data bmp) (width bmp) (height bmp))) ∧
  (∀ key, objGet key (Template.templateTiles st) = None →
     Template.chCenterPixelIndex st !! key = cpi0 !! key).

(** The shape of a segment of an image of [W] x [H] pixels placed at pixel
    offset [(c2, c3)] of tile [(c0, c1)], for the tile size [T]: per axis, the
    size is the smaller of the distance to the next tile boundary and the
    remaining extent of the image; a segment that is not the first of its row
    (column) starts on a tile boundary. *)
Definition segmentShaped (T W H c0 c1 c2 c3 : Z) (s : Segment) : Prop :=
  c2 ≤ segPixelX s ∧ c3 ≤ segPixelY s ∧
  drawSizeX s = Z.min (T - segPixelX s `mod` T) (W - (segPixelX s - c2)) ∧
  drawSizeY s = Z.min (T - segPixelY s `mod` T) (H - (segPixelY s - c3)) ∧
  (segPixelX s ≠ c2 → segPixelX s `mod` T = 0) ∧
  (segPixelY s ≠ c3 → segPixelY s `mod` T = 0) ∧
  chunkWidthPx s = drawSizeX s ∧ chunkHeightPx s = drawSizeY s ∧
  segName s = Template.templateTileName c0 c1 (segPixelX s) (segPixelY s).

(** The colour key of the pixel at [(X, Y)] of a buffer [w] pixels wide. *)
Definition sampleKey (d : list Z) (w X Y : Z) : string :=
  colorKey (JS.get d ((Y * w + X) * 4 + 0)) (JS.get d ((Y * w + X) * 4 + 1))
           (JS.get d ((Y * w + X) * 4 + 2)).

(** Invariant of the shredding loops on a canvas [cw] pixels wide that held
    [d0], with [cu0] colours counted before: the centre samples keep their
    bytes and no colour is forgotten. *)
Definition shredKeeps (cw : Z) (d0 : list Z) (cu0 : gmap string Z)
    (st : list Z * gmap string Z) : Prop :=
  (∀ X Y c, 0 ≤ X < cw → X `mod` 3 = 1 → Y `mod` 3 = 1 → 0 ≤ c < 4 →
     JS.get st.1 ((Y * cw + X) * 4 + c) = JS.get d0 ((Y * cw + X) * 4 + c)) ∧
  dom cu0 ⊆ dom st.2.

(** ** Masking *)

(** The block of pixel [(X, Y)] is blanked by the compositor for the
    allow-list [ac]: its centre lies in the bitmap, is not transparent, and
    has a colour outside [ac]. *)
Definition blockBlanked (ac : gset string) (bmp : ImageData) (X Y : Z) : Prop :=
  let cx := X `div` 3 * 3 + 1 in
  let cy := Y `div` 3 * 3 + 1 in
  cx < width bmp ∧ cy < height bmp ∧
  JS.get (data bmp) ((cy * width bmp + cx) * 4 + 3) ≠ Some 0 ∧
  sampleKey (data bmp) (width bmp) cx cy ∉ ac.

(** [d] is [d0] with the alpha byte set to 0 at the pixels in [P], in a
    buffer [bw] pixels wide. *)
Definition alphaCleared (bw : Z) (P : Z → Z → Prop) (d0 d : list Z) : Prop :=
  length d = length d0 ∧
  ∀ X Y c, 0 ≤ X < bw → 0 ≤ Y → 0 ≤ c < 4 →
    (c = 3 ∧ P X Y → JS.get d ((Y * bw + X) * 4 + c) = Some 0) ∧
    (¬ (c = 3 ∧ P X Y) →
     JS.get d ((Y * bw + X) * 4 + c) = JS.get d0 ((Y * bw + X) * 4 + c)).

(** The pixels blanked once the blocks before block [(kx, ky)], in row-major
    order, are done. *)
Definition blankedUpTo (ac : gset string) (bmp : ImageData) (ky kx X Y : Z) : Prop :=
  (Y `div` 3 < ky ∨ (Y `div` 3 = ky ∧ X `div` 3 < kx)) ∧
  Y < height bmp ∧ blockBlanked ac bmp X Y.

(** ** Chunk keys *)

(** No character of [s] is a comma. *)
Fixpoint noComma (s : string) : bool :=
  match s with
  | EmptyString => true
  | String c r => negb (Ascii.eqb c ","%char) && noComma r
  end.

(** The number [n], written with [JS.toString] and padded to [len] digits, is
    a field of exactly [len] characters without a comma that [parseInt] and
    [Number] read back as [n]. *)
Definition keyFieldOk (len : nat) (n : Z) : bool :=
  let s := JS.padStart0 len (JS.toString n) in
  noComma s && bool_decide (String.length s = len) &&
  bool_decide (JS.parseInt10 s = Some n) && bool_decide (JS.NumberDec (Some s) = Some n).

(** The pixel offsets of a chunk key can be read. *)
Definition keyReadable (key : string) : Prop :=
  is_Some (JS.NumberDec (JS.splitComma key !! 2%nat)) ∧
  is_Some (JS.NumberDec (JS.splitComma key !! 3%nat)).

(** ** Where the two counting paths agree *)

(** No pixel of [img] is opaque black. *)
Definition noOpaqueBlack (img : ImageData) : Prop :=
  ∀ X Y, 0 ≤ X < width img → 0 ≤ Y < height img →
    JS.get (data img) ((Y * width img + X) * 4 + 3) ≠ Some 0 →
    ¬ (JS.get (data img) ((Y * width img + X) * 4 + 0) = Some 0 ∧
       JS.get (data img) ((Y * width img + X) * 4 + 1) = Some 0 ∧
       JS.get (data img) ((Y * width img + X) * 4 + 2) = Some 0).

(** The chunk under [key] of template [t] is well formed for tiles of [T]
    pixels: its offsets can be read, its bitmap has its bytes and no opaque
    black pixel, its index entry is the one built from the bitmap, and it lies
    inside the tile. *)
Definition chunkInTile (T : Z) (t : Template) (key : string) : Prop :=
  ∃ ox oy c bmp,
    JS.NumberDec (JS.splitComma key !! 2%nat) = Some ox ∧
    JS.NumberDec (JS.splitComma key !! 3%nat) = Some oy ∧
    chunked t = Some c ∧ objGet key c = Some bmp ∧
    wfImage bmp ∧ noOpaqueBlack bmp ∧
    centerPixelIndex t !! key =
      Some (Template.inlineCenter (data bmp) (width bmp) (height bmp)) ∧
    0 ≤ ox ∧ ox + width bmp `div` 3 ≤ T ∧ 0 ≤ oy ∧ oy + height bmp `div` 3 ≤ T.

(** ** The segments as a partition of the image *)

(** The pixel at global pixel position [(X, Y)] lies in segment [s]. *)
Definition inSegment (s : Segment) (X Y : Z) : Prop :=
  segPixelX s ≤ X < segPixelX s + drawSizeX s ∧
  segPixelY s ≤ Y < segPixelY s + drawSizeY s.

(** The number of logical pixels of the segments. *)
Definition segmentsArea (segs : list Segment) : Z :=
  foldr (λ s acc, drawSizeX s * drawSizeY s + acc) 0 segs.

(** The segments made when the chunking of an image [W] pixels wide at pixel
    offset [(c2, c3)] has done the rows above [y] and, of the row of height
    [dy] at [y], the columns left of [x]: they cover that part of the image,
    lie inside it, do not overlap, and their area is the area of that part. *)
Definition segmentsUpTo (W c2 c3 y dy x : Z) (segs : list Segment) : Prop :=
  (∀ X Y, c2 ≤ X < c2 + W → c3 ≤ Y → (Y < y ∨ (Y < y + dy ∧ X < x)) →
     ∃ s, s ∈ segs ∧ inSegment s X Y) ∧
  (∀ s, s ∈ segs →
     0 < drawSizeX s ∧ 0 < drawSizeY s ∧ c2 ≤ segPixelX s ∧ c3 ≤ segPixelY s ∧
     segPixelX s + drawSizeX s ≤ c2 + W ∧
     (segPixelY s + drawSizeY s ≤ y ∨
      (segPixelY s = y ∧ drawSizeY s = dy ∧ segPixelX s + drawSizeX s ≤ x))) ∧
  (∀ i j s s' X Y, segs !! i = Some s → segs !! j = Some s' →
     inSegment s X Y → inSegment s' X Y → i = j) ∧
  segmentsArea segs = W * (y - c3) + dy * (x - c2).

(** ** What a chunk bitmap holds *)

(** In the embedding, whose canvas keeps the bytes it is given, [bmp] is the
    bitmap of segment [s] of the image [bitmap] placed at pixel offset
    [(c2, c3)]: three times the size of the segment, every pixel with the
    colour bytes of the source pixel of its 3 x 3 block, the centre of a
    block with the alpha of the source pixel and the other eight pixels with
    alpha 0. *)
Definition chunkEncodes (bitmap : ImageData) (c2 c3 : Z) (s : Segment) (bmp : ImageData)
    : Prop :=
  width bmp = drawSizeX s * 3 ∧ height bmp = drawSizeY s * 3 ∧
  Z.of_nat (length (data bmp)) = 4 * width bmp * height bmp ∧
  ∀ X Y c, 0 ≤ X < width bmp → 0 ≤ Y < height bmp → 0 ≤ c < 4 →
    JS.get (data bmp) ((Y * width bmp + X) * 4 + c) =
    Some (if decide (c = 3 ∧ ¬ (X `mod` 3 = 1 ∧ Y `mod` 3 = 1)) then 0
          else canvasByte bitmap (segPixelX s - c2 + X `div` 3)
                                 (segPixelY s - c3 + Y `div` 3) c).

(** What [chunkEncodes] gives where a canvas that keeps premultiplied colours
    agrees with the embedding: the sizes, the alpha of every pixel (the alpha
    of the source pixel at the centre of a block, 0 at the other eight
    pixels), and the colour bytes of the centre where the source pixel is
    opaque. *)
Definition chunkShows (bitmap : ImageData) (c2 c3 : Z) (s : Segment) (bmp : ImageData)
    : Prop :=
  width bmp = drawSizeX s * 3 ∧ height bmp = drawSizeY s * 3 ∧
  Z.of_nat (length (data bmp)) = 4 * width bmp * height bmp ∧
  ∀ X Y, 0 ≤ X < width bmp → 0 ≤ Y < height bmp →
    let sx := segPixelX s - c2 + X `div` 3 in
    let sy := segPixelY s - c3 + Y `div` 3 in
    JS.get (data bmp) ((Y * width bmp + X) * 4 + 3) =
      Some (if decide (X `mod` 3 = 1 ∧ Y `mod` 3 = 1) then canvasByte bitmap sx sy 3 else 0) ∧
    (X `mod` 3 = 1 → Y `mod` 3 = 1 → canvasByte bitmap sx sy 3 = 255 →
     ∀ c, 0 ≤ c < 3 →
       JS.get (data bmp) ((Y * width bmp + X) * 4 + c) = Some (canvasByte bitmap sx sy c)).

(** ** What the counting loops do to one pixel key *)

(** The four outcomes of the comparison of a template pixel with the live
    tile. *)
Inductive PixelStatus := Skipped | Unplaced | Placed | Wrong.

(** The update of the two sets for an outcome, as both counting loops write
    it. *)
Definition setStatus (key : string) (s : PixelStatus) (t : Template) : Template :=
  match s with
  | Skipped => t
  | Unplaced =>
      Template.withSets t (setDelete key (placedPixelKeys t)) (setDelete key (wrongPixelKeys t))
  | Placed =>
      Template.withSets t (setAdd key (placedPixelKeys t)) (setDelete key (wrongPixelKeys t))
  | Wrong =>
      Template.withSets t (setDelete key (placedPixelKeys t)) (setAdd key (wrongPixelKeys t))
  end.

(** The set memberships of [key] in [t'] are those of the outcome [s]; a
    skipped pixel leaves them as in [t]. *)
Definition hasStatus (key : string) (s : PixelStatus) (t t' : Template) : Prop :=
  match s with
  | Skipped =>
      (key ∈ placedPixelKeys t' ↔ key ∈ placedPixelKeys t) ∧
      (key ∈ wrongPixelKeys t' ↔ key ∈ wrongPixelKeys t)
  | Unplaced => (key ∉ placedPixelKeys t') ∧ (key ∉ wrongPixelKeys t')
  | Placed => (key ∈ placedPixelKeys t') ∧ (key ∉ wrongPixelKeys t')
  | Wrong => (key ∉ placedPixelKeys t') ∧ (key ∈ wrongPixelKeys t')
  end.

(** The outcome of the optimized loop body at chunk pixel [(x, y)]. *)
Definition optimizedStatus (tileSize : Z) (basePacked : list Z) (pixelOffsetX pixelOffsetY : Z)
    (chunkWidthPx : Z) (centerData : list Z) (y x : Z) : PixelStatus :=
  let dstX := pixelOffsetX + x in
  let dstY := pixelOffsetY + y in
  if decide (dstX < 0 ∨ dstY < 0 ∨ tileSize ≤ dstX ∨ tileSize ≤ dstY) then Skipped else
  let baseVal := JS.get basePacked (dstY * tileSize + dstX) in
  let tplVal := JS.get centerData (y * chunkWidthPx + x) in
  if JS.is0 tplVal then Skipped
  else if JS.is0 baseVal then Unplaced
  else if JS.seq baseVal tplVal then Placed else Wrong.

(** The outcome of the legacy loop body at chunk pixel [(x, y)]. *)
Definition legacyStatus (drawMult drawSizeLegacy : Z) (baseImage : list Z)
    (pixelOffsetX pixelOffsetY : Z) (tplImage : list Z) (bmpWidth : Z) (y x : Z)
    : PixelStatus :=
  let tplIdx := ((y * drawMult + 1) * bmpWidth + (x * drawMult + 1)) * 4 in
  let baseIdx := (((pixelOffsetY + y) * drawMult + 1) * drawSizeLegacy +
                  ((pixelOffsetX + x) * drawMult + 1)) * 4 in
  if JS.is0 (JS.get tplImage (tplIdx + 3)) then Skipped
  else if JS.is0 (JS.get baseImage (baseIdx + 3)) then Unplaced
  else if JS.seq (JS.get baseImage (baseIdx + 0)) (JS.get tplImage (tplIdx + 0)) &&
          JS.seq (JS.get baseImage (baseIdx + 1)) (JS.get tplImage (tplIdx + 1)) &&
          JS.seq (JS.get baseImage (baseIdx + 2)) (JS.get tplImage (tplIdx + 2))
       then Placed else Wrong.

(** ** What a call of [drawTemplateOnTile] may change in a template *)

(** [t'] is [t] but for the sets [placedPixelKeys] and [wrongPixelKeys]. *)
Definition sameButSets (t t' : Template) : Prop :=
  t' = Template.withSets t (placedPixelKeys t') (wrongPixelKeys t').

(** ** Templates that [drawTemplateOnTile] can draw *)

(** The chunks of [t] listed for the tile [tileCoords] can be drawn with the
    given fuel: [chunked] holds a bitmap for each of their keys, with the bytes
    of its size and sides within the fuel, and the offsets of each key can be
    read. *)
Definition drawable (fuel : nat) (tileCoords : string) (t : Template) : Prop :=
  ∃ c, chunked t = Some c ∧
    Forall (λ key, keyReadable key ∧
                   ∃ bmp, objGet key c = Some bmp ∧
                     0 ≤ width bmp ∧ 0 ≤ height bmp ∧
                     Z.of_nat (length (data bmp)) = 4 * width bmp * height bmp ∧
                     (Z.to_nat (width bmp) ≤ fuel)%nat ∧ (Z.to_nat (height bmp) ≤ fuel)%nat)
      (TemplateManager.matchingTiles tileCoords t).

(** ** Counting the centre samples of a buffer *)

(** The colour at the centre of block [(x, y)] of the buffer [d], [w] pixels
    wide, is counted in the histogram unless the sample is transparent. *)
Definition countCenter (d : list Z) (w y x : Z) (cu : gmap string Z) : gmap string Z :=
  let idx := ((y * 3 + 1) * w + (x * 3 + 1)) * 4 in
  if JS.is0 (JS.get d (idx + 3)) then cu
  else
    let key := colorKey (JS.get d (idx + 0)) (JS.get d (idx + 1)) (JS.get d (idx + 2)) in
    <[key := default 0 (cu !! key) + 1]> cu.

(** The centres of the [cw] x [ch] blocks of the buffer, counted row by row. *)
Definition countCenters (d : list Z) (w cw ch : Z) (cu : gmap string Z) : gmap string Z :=
  JS.forZ ch (λ y, JS.forZ cw (λ x, countCenter d w y x)) cu.

(** The colour keys of the centre samples of a chunk bitmap that are not
    transparent, row by row. *)
Definition centerKeys (bmp : ImageData) : list string :=
  y ← seqZ 0 (height bmp `div` 3);
  x ← seqZ 0 (width bmp `div` 3);
  if JS.is0 (JS.get (data bmp) (((y * 3 + 1) * width bmp + (x * 3 + 1)) * 4 + 3)) then []
  else [sampleKey (data bmp) (width bmp) (x * 3 + 1) (y * 3 + 1)].

(** ** Counting the pixels of an image by colour *)

(** The pixel of [img] at [(X, Y)] is not transparent and has the colour key
    [k]. *)
Definition pixelHasKey (img : ImageData) (k : string) (p : Z * Z) : Prop :=
  JS.get (data img) ((p.2 * width img + p.1) * 4 + 3) ≠ Some 0 ∧
  sampleKey (data img) (width img) p.1 p.2 = k.

(** The pixel positions of the rectangle of [w] x [h] pixels at [(x0, y0)],
    row by row. *)
Definition rectPixels (x0 y0 w h : Z) : list (Z * Z) :=
  y ← seqZ 0 h; x ← seqZ 0 w; [(x0 + x, y0 + y)].

(** The number of pixels of that rectangle of [img] that are not transparent
    and have the colour key [k]. *)
Definition countColor (img : ImageData) (k : string) (x0 y0 w h : Z) : Z :=
  Z.of_nat (length (filter (pixelHasKey img k) (rectPixels x0 y0 w h))).

(** The pixel of [img] at [(X, Y)] is opaque and has the colour key [k]. *)
Definition opaqueHasKey (img : ImageData) (k : string) (p : Z * Z) : Prop :=
  JS.get (data img) ((p.2 * width img + p.1) * 4 + 3) = Some 255 ∧
  sampleKey (data img) (width img) p.1 p.2 = k.

(** The number of opaque pixels of [img] that have the colour key [k]. *)
Definition countOpaque (img : ImageData) (k : string) : Z :=
  Z.of_nat (length (filter (opaqueHasKey img k) (rectPixels 0 0 (width img) (height img)))).

(** Every pixel of [img] is opaque or fully transparent. *)
Definition noPartialAlpha (img : ImageData) : Prop :=
  ∀ x y, 0 ≤ x < width img → 0 ≤ y < height img →
    JS.get (data img) ((y * width img + x) * 4 + 3) = Some 0 ∨
    JS.get (data img) ((y * width img + x) * 4 + 3) = Some 255.

(** ** Sample inputs *)
Module Examples.

(** The image of the worked example: red, green, blue and black, all opaque. *)
Definition image22 : ImageData :=
  mkImage 2 2 [255; 0; 0; 255;  0; 255; 0; 255;  0; 0; 255; 255;  0; 0; 0; 255].

(** One opaque black pixel, and one fully transparent pixel. *)
Definition blackPixel : ImageData := mkImage 1 1 [0; 0; 0; 255].
Definition clearPixel : ImageData := mkImage 1 1 [0; 0; 0; 0].

(** Two opaque red pixels side by side. *)
Definition image21 : ImageData := mkImage 2 1 [255; 0; 0; 255;  255; 0; 0; 255].

(** A manager with tiles of 2 x 2 pixels, small enough to evaluate a whole
    tile, counting with the legacy or the optimized path. *)
Definition smallManager (legacy : bool) : TemplateManager := mkManager 2 3 [] true legacy.

(** A live tile of 2 x 2 pixels: red, a wrong colour, nothing, black. *)
Definition liveTile : ImageData :=
  mkImage 2 2 [255; 0; 0; 255;  0; 9; 0; 255;  0; 0; 0; 0;  0; 0; 0; 255].

(** The templates of a manager after [createTemplate] on [image22]. *)
Definition templatesOf (legacy : bool) : list Template :=
  match TemplateManager.createTemplate 5 image22 (0, 0, 0, 0) (smallManager legacy) with
  | Some m => templatesArray m
  | None => []
  end.

(** [createTemplateTiles] on a new template for [img] at [coords]. *)
Definition chunk (img : ImageData) (coords : Z * Z * Z * Z) (tileSize : Z) :=
  Template.createTemplateTiles 5 (Template.new 0 (Some img) (Some coords) None tileSize).

(** A chunk bitmap of one block: an opaque red centre sample, the other
    pixels transparent. *)
Definition redBlock : ImageData :=
  mkImage 3 3 (replicate 16 0 ++ [255; 0; 0; 255] ++ replicate 16 0).

(** A template holding that chunk, with blue as its only active colour. *)
Definition blue : gset string := {["0,0,255"%string]}.
Definition blueOnly : Template :=
  mkTemplate 0 None None (Some [("0000,0000,000,000"%string, redBlock)]) 1000 1
    ∅ ∅ {["255,0,0"%string := 1]} (Some blue) ∅
    {["0000,0000"%string := ["0000,0000,000,000"%string]]}.

(** A live tile of 2 x 2 pixels without black: red, a wrong colour, nothing,
    red. *)
Definition redTile : ImageData :=
  mkImage 2 2 [255; 0; 0; 255;  0; 9; 0; 255;  0; 0; 0; 0;  255; 0; 0; 255].

(** The templates of a manager after [createTemplate] on [image21]. *)
Definition redTemplates : list Template :=
  match TemplateManager.createTemplate 5 image21 (0, 0, 0, 0) (smallManager true) with
  | Some m => templatesArray m
  | None => []
  end.

End Examples.

(** * Properties *)

(** ** Loops and typed arrays *)

Section loops.
Context {S : Type}.

Lemma forNat_ind (P : nat → S → Prop) (n : nat) (body : Z → S → S) (s : S) :
  P O s →
  (∀ k s', (k < n)%nat → P k s' → P (Datatypes.S k) (body (Z.of_nat k) s')) →
  P n (JS.forNat n body s).
Proof.
  intros H0 Hstep. induction n as [|n IH]; simpl; [done|].
  apply Hstep; [lia|]. apply IH. intros k s' Hk. apply Hstep. lia.
Qed.

Lemma forZ_ind (P : Z → S → Prop) (n : Z) (body : Z → S → S) (s : S) :
  P 0 s →
  (∀ k s', 0 ≤ k < n → P k s' → P (k + 1) (body k s')) →
  P (Z.max 0 n) (JS.forZ n body s).
Proof.
  intros H0 Hstep. unfold JS.forZ.
  replace (Z.max 0 n) with (Z.of_nat (Z.to_nat n)) by lia.
  apply (forNat_ind (λ k, P (Z.of_nat k))); [done|].
  intros k s' Hk HP. replace (Z.of_nat (Datatypes.S k)) with (Z.of_nat k + 1) by lia.
  apply Hstep; [lia|done].
Qed.

(** An invariant that does not mention the counter. *)
Lemma forZ_inv (P : S → Prop) (n : Z) (body : Z → S → S) (s : S) :
  P s → (∀ k s', 0 ≤ k < n → P s' → P (body k s')) → P (JS.forZ n body s).
Proof. intros H0 Hstep. apply (forZ_ind (λ _, P)); auto. Qed.

Lemma forNat_shift (n : nat) (body : Z → S → S) (s : S) :
  JS.forNat (Datatypes.S n) body s = JS.forNat n (λ k, body (k + 1)) (body 0 s).
Proof.
  induction n as [|n IH]; [done|].
  change (JS.forNat (Datatypes.S (Datatypes.S n)) body s)
    with (body (Z.of_nat (Datatypes.S n)) (JS.forNat (Datatypes.S n) body s)).
  rewrite IH. simpl. f_equal. lia.
Qed.

(** A stepping loop whose body always succeeds runs its body at
    [i], [i + step], ... as the counting loop does, given enough fuel. *)
Lemma forStep_forNat (fuel : nat) (i stop step : Z) (body : Z → S → option S)
    (g : Z → S → S) (s : S) :
  0 < step →
  (∀ k x, body k x = Some (g k x)) →
  (Z.to_nat ((stop - i + step - 1) `div` step) ≤ fuel)%nat →
  JS.forStep fuel i stop step body s =
  Some (JS.forNat (Z.to_nat ((stop - i + step - 1) `div` step))
          (λ k, g (i + k * step)) s).
Proof.
  intros Hstep Hbody. revert i s. induction fuel as [|fuel IH]; intros i s Hfuel.
  - simpl. case_decide as Hlt.
    + exfalso. assert (1 ≤ (stop - i + step - 1) `div` step); [|lia].
      apply Z.div_le_lower_bound; lia.
    + replace (Z.to_nat ((stop - i + step - 1) `div` step)) with O; [done|].
      assert ((stop - i + step - 1) `div` step < 1); [|lia].
      apply Z.div_lt_upper_bound; lia.
  - simpl. case_decide as Hlt.
    + assert (Hdiv : (stop - i + step - 1) `div` step
                     = (stop - (i + step) + step - 1) `div` step + 1).
      { replace (stop - i + step - 1) with ((stop - (i + step) + step - 1) + 1 * step) by lia.
        by rewrite Z.div_add by lia. }
      assert (0 ≤ (stop - (i + step) + step - 1) `div` step).
      { apply Z.div_pos; lia. }
      rewrite Hbody. simpl. rewrite IH by lia.
      replace (Z.to_nat ((stop - i + step - 1) `div` step))
        with (Datatypes.S (Z.to_nat ((stop - (i + step) + step - 1) `div` step))) by lia.
      rewrite forNat_shift. f_equal.
      replace (i + 0 * step) with i by lia.
      generalize (g i s) as s0. intros s0.
      generalize (Z.to_nat ((stop - (i + step) + step - 1) `div` step)) as n.
      induction n as [|n IHn]; [done|]. simpl. rewrite IHn. f_equal. lia.
    + replace (Z.to_nat ((stop - i + step - 1) `div` step)) with O; [done|].
      assert ((stop - i + step - 1) `div` step < 1); [|lia].
      apply Z.div_lt_upper_bound; lia.
Qed.
End loops.

Lemma is0_true (v : option Z) : JS.is0 v = true ↔ v = Some 0.
Proof. unfold JS.is0. apply bool_decide_eq_true. Qed.

Lemma is0_false (v : option Z) : JS.is0 v = false ↔ v ≠ Some 0.
Proof. unfold JS.is0. apply bool_decide_eq_false. Qed.

Lemma get_lookup (arr : list Z) (i : Z) :
  0 ≤ i → JS.get arr i = arr !! Z.to_nat i.
Proof. intros. unfold JS.get. by case_decide. Qed.

Lemma get_is_Some (arr : list Z) (i : Z) :
  0 ≤ i < Z.of_nat (length arr) → is_Some (JS.get arr i).
Proof. intros. rewrite get_lookup by lia. apply lookup_lt_is_Some. lia. Qed.

Lemma get_None (arr : list Z) (i : Z) :
  i < 0 ∨ Z.of_nat (length arr) ≤ i → JS.get arr i = None.
Proof.
  intros. unfold JS.get. case_decide; [|done]. apply lookup_ge_None. lia.
Qed.

Lemma length_set (arr : list Z) (i v : Z) : length (JS.set arr i v) = length arr.
Proof. unfold JS.set. case_decide; [apply length_insert|done]. Qed.

Lemma get_set (arr : list Z) (i j v : Z) :
  JS.get (JS.set arr i v) j =
  if decide (i = j ∧ 0 ≤ i < Z.of_nat (length arr)) then Some v else JS.get arr j.
Proof.
  unfold JS.get, JS.set.
  destruct (decide (i = j ∧ 0 ≤ i < Z.of_nat (length arr))) as [[-> [? ?]]|Hc].
  - rewrite !decide_True by lia. apply list_lookup_insert_eq. lia.
  - destruct (decide (0 ≤ j)); [|done]. destruct (decide (0 ≤ i)); [|done].
    destruct (decide (i = j)) as [->|].
    + rewrite list_insert_ge; [done|]. lia.
    + apply list_lookup_insert_ne. lia.
Qed.

Lemma get_set_eq (arr : list Z) (i v : Z) :
  0 ≤ i < Z.of_nat (length arr) → JS.get (JS.set arr i v) i = Some v.
Proof. intros. rewrite get_set. by rewrite decide_True. Qed.

Lemma get_set_ne (arr : list Z) (i j v : Z) :
  i ≠ j → JS.get (JS.set arr i v) j = JS.get arr j.
Proof. intros. rewrite get_set. rewrite decide_False; [done|]. intros [? _]. done. Qed.

(** ** The two sets *)

Lemma setAdd_eq (key : string) (s : gset string) : setAdd key s = {[key]} ∪ s.
Proof. unfold setAdd. case_bool_decide; set_solver. Qed.

Lemma setDelete_eq (key : string) (s : gset string) : setDelete key s = s ∖ {[key]}.
Proof. unfold setDelete. case_bool_decide; set_solver. Qed.

(** Set equations that need a case distinction on the key. *)
Ltac key_sets key :=
  apply set_eq; let x := fresh "x" in
  intros x; set_unfold; destruct (decide (x = key)); naive_solver.

Lemma withSets_ext (t : Template) (p p' w w' : gset string) :
  p = p' → w = w' → Template.withSets t p w = Template.withSets t p' w'.
Proof. by intros -> ->. Qed.

Lemma applyEffect_compose (T1 p1 w1 T2 p2 w2 : gset string) (t : Template) :
  applyEffect T2 p2 w2 (applyEffect T1 p1 w1 t) =
  applyEffect (T1 ∪ T2) ((p1 ∖ T2) ∪ p2) ((w1 ∖ T2) ∪ w2) t.
Proof.
  unfold applyEffect, Template.withSets; simpl. f_equal; set_solver.
Qed.

Lemma applyEffect_idem (T p w : gset string) (t : Template) :
  applyEffect T p w (applyEffect T p w t) = applyEffect T p w t.
Proof. rewrite applyEffect_compose. unfold applyEffect. apply withSets_ext; set_solver. Qed.

Lemma applyEffect_empty (t : Template) : applyEffect ∅ ∅ ∅ t = t.
Proof.
  destruct t. unfold applyEffect, Template.withSets; simpl. f_equal; set_solver.
Qed.

Lemma keyLocal_id : keyLocal (λ t, t).
Proof. exists ∅, ∅, ∅. intros t. by rewrite applyEffect_empty. Qed.

Lemma keyLocal_compose (f g : Template → Template) :
  keyLocal f → keyLocal g → keyLocal (λ t, g (f t)).
Proof.
  intros (T1 & p1 & w1 & Hf) (T2 & p2 & w2 & Hg).
  exists (T1 ∪ T2), ((p1 ∖ T2) ∪ p2), ((w1 ∖ T2) ∪ w2). intros t.
  by rewrite Hf, Hg, applyEffect_compose.
Qed.

Lemma keyLocal_ext (f g : Template → Template) :
  (∀ t, f t = g t) → keyLocal f → keyLocal g.
Proof. intros Heq (T & p & w & Hf). exists T, p, w. intros t. by rewrite <- Heq. Qed.

Lemma keyLocal_forZ (n : Z) (body : Z → Template → Template) :
  (∀ k, keyLocal (body k)) → keyLocal (JS.forZ n body).
Proof.
  intros Hbody. unfold JS.forZ. induction (Z.to_nat n) as [|k IH]; simpl.
  - apply keyLocal_id.
  - apply (keyLocal_compose _ _ IH (Hbody _)).
Qed.

Lemma keyLocal_unplaced (key : string) :
  keyLocal (λ t, Template.withSets t (setDelete key (placedPixelKeys t))
                   (setDelete key (wrongPixelKeys t))).
Proof.
  exists {[key]}, ∅, ∅. intros t. unfold applyEffect.
  rewrite !setDelete_eq. apply withSets_ext; set_solver.
Qed.

Lemma keyLocal_placed (key : string) :
  keyLocal (λ t, Template.withSets t (setAdd key (placedPixelKeys t))
                   (setDelete key (wrongPixelKeys t))).
Proof.
  exists {[key]}, {[key]}, ∅. intros t. unfold applyEffect.
  rewrite setAdd_eq, setDelete_eq. apply withSets_ext; key_sets key.
Qed.

Lemma keyLocal_wrong (key : string) :
  keyLocal (λ t, Template.withSets t (setDelete key (placedPixelKeys t))
                   (setAdd key (wrongPixelKeys t))).
Proof.
  exists {[key]}, ∅, {[key]}. intros t. unfold applyEffect.
  rewrite setAdd_eq, setDelete_eq. apply withSets_ext; key_sets key.
Qed.

Lemma optimizedPixel_keyLocal T bp tx ty ox oy w cd y x :
  keyLocal (TemplateManager.optimizedPixel T bp tx ty ox oy w cd y x).
Proof.
  unfold TemplateManager.optimizedPixel. cbv zeta.
  destruct (decide _); [apply keyLocal_id|].
  destruct (JS.is0 (JS.get cd _)); [apply keyLocal_id|].
  destruct (JS.is0 _); [apply keyLocal_unplaced|].
  destruct (JS.seq _ _); [apply keyLocal_placed|apply keyLocal_wrong].
Qed.

Lemma legacyPixel_keyLocal T dm dsl base tx ty ox oy tpl bw y x :
  keyLocal (TemplateManager.legacyPixel T dm dsl base tx ty ox oy tpl bw y x).
Proof.
  unfold TemplateManager.legacyPixel. cbv zeta.
  destruct (JS.is0 (JS.get tpl _)); [apply keyLocal_id|].
  destruct (JS.is0 _); [apply keyLocal_unplaced|].
  destruct (_ && _); [apply keyLocal_placed|apply keyLocal_wrong].
Qed.

(** The whole loop over the chunks of a template is one effect (or fails),
    whatever the sets are. *)
Lemma optimizedChunks_effect T bp tx ty keys (cpi : gmap string CenterInfo) :
  ∃ r : option (gset string * gset string * gset string),
    ∀ t, centerPixelIndex t = cpi →
      TemplateManager.optimizedChunks T bp tx ty keys t =
      (λ e, applyEffect e.1.1 e.1.2 e.2 t) <$> r.
Proof.
  induction keys as [|tileKey rest (r & IH)].
  - exists (Some (∅, ∅, ∅)). intros t _. simpl. by rewrite applyEffect_empty.
  - simpl. destruct (JS.NumberDec (JS.splitComma tileKey !! 2%nat)) as [ox|]; simpl;
      [|by exists None].
    destruct (JS.NumberDec (JS.splitComma tileKey !! 3%nat)) as [oy|]; simpl;
      [|by exists None].
    assert (∃ T1 p1 w1, ∀ t, centerPixelIndex t = cpi →
              match centerPixelIndex t !! tileKey with
              | Some centerInfo =>
                  JS.forZ (cheight centerInfo)
                    (λ y, JS.forZ (cwidth centerInfo)
                            (λ x, TemplateManager.optimizedPixel T bp tx ty ox oy
                                    (cwidth centerInfo) (cdata centerInfo) y x)) t
              | None => t
              end = applyEffect T1 p1 w1 t) as (T1 & p1 & w1 & Hchunk).
    { destruct (cpi !! tileKey) as [ci|] eqn:Hci.
      - destruct (keyLocal_forZ (cheight ci)
                    (λ y, JS.forZ (cwidth ci)
                            (λ x, TemplateManager.optimizedPixel T bp tx ty ox oy
                                    (cwidth ci) (cdata ci) y x)))
          as (T1 & p1 & w1 & H1).
        { intros y. apply keyLocal_forZ. intros x. apply optimizedPixel_keyLocal. }
        exists T1, p1, w1. intros t ->. rewrite Hci. apply H1.
      - exists ∅, ∅, ∅. intros t ->. rewrite Hci. by rewrite applyEffect_empty. }
    destruct r as [[[T2 p2] w2]|].
    + exists (Some (T1 ∪ T2, (p1 ∖ T2) ∪ p2, (w1 ∖ T2) ∪ w2)). intros t Ht.
      rewrite (Hchunk t Ht). rewrite IH by done. simpl.
      by rewrite applyEffect_compose.
    + exists None. intros t Ht. rewrite (Hchunk t Ht). by rewrite IH.
Qed.

Lemma legacyChunks_effect T dm dsl base tx ty keys
    (ch : option (list (string * ImageData))) :
  ∃ r : option (gset string * gset string * gset string),
    ∀ t, chunked t = ch →
      TemplateManager.legacyChunks T dm dsl base tx ty keys t =
      (λ e, applyEffect e.1.1 e.1.2 e.2 t) <$> r.
Proof.
  induction keys as [|tileKey rest (r & IH)].
  - exists (Some (∅, ∅, ∅)). intros t _. simpl. by rewrite applyEffect_empty.
  - simpl. destruct (JS.NumberDec (JS.splitComma tileKey !! 2%nat)) as [ox|]; simpl;
      [|by exists None].
    destruct (JS.NumberDec (JS.splitComma tileKey !! 3%nat)) as [oy|]; simpl;
      [|by exists None].
    destruct ch as [c|]; [|exists None; by intros t ->].
    destruct (objGet tileKey c) as [bmp|] eqn:Hbmp;
      [|exists None; intros t ->; simpl; by rewrite Hbmp].
    destruct (keyLocal_forZ (height bmp `div` dm)
                (λ y, JS.forZ (width bmp `div` dm)
                        (λ x, TemplateManager.legacyPixel T dm dsl base tx ty ox oy
                                (data (drawImageCopy bmp)) (width bmp) y x)))
      as (T1 & p1 & w1 & H1).
    { intros y. apply keyLocal_forZ. intros x. apply legacyPixel_keyLocal. }
    destruct r as [[[T2 p2] w2]|].
    + exists (Some (T1 ∪ T2, (p1 ∖ T2) ∪ p2, (w1 ∖ T2) ∪ w2)). intros t Ht.
      rewrite Ht. simpl. rewrite Hbmp. simpl. rewrite H1.
      rewrite IH by done. simpl. by rewrite applyEffect_compose.
    + exists None. intros t Ht. rewrite Ht. simpl. rewrite Hbmp. simpl.
      rewrite H1. by rewrite IH.
Qed.

Lemma optimizedChunks_idem T bp tx ty keys t t' :
  TemplateManager.optimizedChunks T bp tx ty keys t = Some t' →
  TemplateManager.optimizedChunks T bp tx ty keys t' = Some t' ∧
  tileIndex t' = tileIndex t.
Proof.
  destruct (optimizedChunks_effect T bp tx ty keys (centerPixelIndex t)) as (r & Hr).
  rewrite (Hr t eq_refl). destruct r as [[[T1 p1] w1]|]; simpl; [|done].
  intros [= <-]. split; [|done].
  rewrite Hr by done. simpl. by rewrite applyEffect_idem.
Qed.

Lemma legacyChunks_idem T dm dsl base tx ty keys t t' :
  TemplateManager.legacyChunks T dm dsl base tx ty keys t = Some t' →
  TemplateManager.legacyChunks T dm dsl base tx ty keys t' = Some t' ∧
  tileIndex t' = tileIndex t.
Proof.
  destruct (legacyChunks_effect T dm dsl base tx ty keys (chunked t)) as (r & Hr).
  rewrite (Hr t eq_refl). destruct r as [[[T1 p1] w1]|]; simpl; [|done].
  intros [= <-]. split; [|done].
  rewrite Hr by done. simpl. by rewrite applyEffect_idem.
Qed.

Lemma forTemplates_idem (f : Template → option Template) (ts ts' : list Template) :
  (∀ t t', f t = Some t' → f t' = Some t') →
  TemplateManager.forTemplates f ts = Some ts' →
  TemplateManager.forTemplates f ts' = Some ts'.
Proof.
  intros Hf. revert ts'. induction ts as [|t r IH]; intros ts'; simpl.
  - by intros [= <-].
  - destruct (f t) as [t1|] eqn:Ht; simpl; [|done].
    destruct (TemplateManager.forTemplates f r) as [r1|] eqn:Hr; simpl; [|done].
    intros [= <-]. simpl. rewrite (Hf _ _ Ht). simpl. by rewrite (IH _ eq_refl).
Qed.

(** ** The classification rule of the optimized path *)

(** Claim C1. A template pixel that passes the bound check of the optimized
    loop is classified by the four-way rule: a template value of 0 leaves the
    template as it is; otherwise a live value of 0 removes the global
    coordinate from [placed] and from [wrong]; a live value equal to the
    template value adds it to [placed] and removes it from [wrong]; any other
    live value adds it to [wrong] and removes it from [placed]. *)
Theorem optimizedPixel_four_way (T : Z) (basePacked : list Z) (tx ty ox oy w : Z)
    (centerData : list Z) (y x : Z) (t : Template) :
  let dstX := ox + x in
  let dstY := oy + y in
  let tplVal := JS.get centerData (y * w + x) in
  let baseVal := JS.get basePacked (dstY * T + dstX) in
  let key := pixelKey (tx * T + dstX) (ty * T + dstY) in
  let t' := TemplateManager.optimizedPixel T basePacked tx ty ox oy w centerData y x t in
  0 ≤ dstX < T → 0 ≤ dstY < T →
  (tplVal = Some 0 → t' = t) ∧
  (tplVal ≠ Some 0 → baseVal = Some 0 →
     placedPixelKeys t' = placedPixelKeys t ∖ {[key]} ∧
     wrongPixelKeys t' = wrongPixelKeys t ∖ {[key]}) ∧
  (tplVal ≠ Some 0 → baseVal ≠ Some 0 → baseVal = tplVal →
     placedPixelKeys t' = {[key]} ∪ placedPixelKeys t ∧
     wrongPixelKeys t' = wrongPixelKeys t ∖ {[key]}) ∧
  (tplVal ≠ Some 0 → baseVal ≠ Some 0 → baseVal ≠ tplVal →
     wrongPixelKeys t' = {[key]} ∪ wrongPixelKeys t ∧
     placedPixelKeys t' = placedPixelKeys t ∖ {[key]}).
Proof.
  intros dstX dstY tplVal baseVal key t' HX HY.
  subst t'. unfold TemplateManager.optimizedPixel. cbv zeta.
  fold dstX dstY. fold tplVal baseVal. fold key.
  rewrite decide_False by lia.
  repeat split.
  - intros H0. apply is0_true in H0. by rewrite H0.
  - apply is0_false in H. apply is0_true in H0. rewrite H, H0. simpl.
    apply setDelete_eq.
  - apply is0_false in H. apply is0_true in H0. rewrite H, H0. simpl.
    apply setDelete_eq.
  - apply is0_false in H, H0. rewrite H, H0.
    unfold JS.seq. rewrite bool_decide_eq_true_2 by done. simpl. apply setAdd_eq.
  - apply is0_false in H, H0. rewrite H, H0.
    unfold JS.seq. rewrite bool_decide_eq_true_2 by done. simpl. apply setDelete_eq.
  - apply is0_false in H, H0. rewrite H, H0.
    unfold JS.seq. rewrite bool_decide_eq_false_2 by done. simpl. apply setAdd_eq.
  - apply is0_false in H, H0. rewrite H, H0.
    unfold JS.seq. rewrite bool_decide_eq_false_2 by done. simpl. apply setDelete_eq.
Qed.

(** The rule at a concrete pixel: template value 5 against live value 5. *)
Lemma optimizedPixel_four_way_witness :
  let t := Template.new 0 None None None 1000 in
  let t' := TemplateManager.optimizedPixel 2 [0; 0; 0; 5] 7 9 1 1 1 [5] 0 0 t in
  placedPixelKeys t' = {[pixelKey 15 19]} ∪ placedPixelKeys t ∧
  wrongPixelKeys t' = wrongPixelKeys t ∖ {[pixelKey 15 19]}.
Proof.
  intros t t'.
  apply (optimizedPixel_four_way 2 [0; 0; 0; 5] 7 9 1 1 1 [5] 0 0 t);
    [lia | lia | discriminate | discriminate | reflexivity].
Defined.

(** ** Idempotence of the per-tile diff *)

(** Claim C3. Counting the pixels of a tile a second time against the same
    snapshot succeeds and leaves every template, and so its [placed] and
    [wrong] sets, as the first run left it. This holds for the legacy and for
    the optimized path. *)
Theorem countPixels_idempotent (m : TemplateManager) (baseBitmap : ImageData)
    (tileCoords : string) (ts ts' : list Template) :
  TemplateManager.countPixels m baseBitmap tileCoords ts = Some ts' →
  TemplateManager.countPixels m baseBitmap tileCoords ts' = Some ts'.
Proof.
  unfold TemplateManager.countPixels. cbv zeta.
  destruct (useLegacyCount m); (destruct (decide _); [done|]).
  - destruct (JS.splitComma tileCoords !! 0%nat ≫= JS.parseInt10) as [tx|]; simpl; [|done].
    destruct (JS.splitComma tileCoords !! 1%nat ≫= JS.parseInt10) as [ty|]; simpl; [|done].
    apply forTemplates_idem. intros t t' Ht.
    apply legacyChunks_idem in Ht as [Ht Hti].
    unfold TemplateManager.matchingTiles in *. by rewrite Hti.
  - destruct (JS.splitComma tileCoords !! 0%nat ≫= JS.parseInt10) as [tx|]; simpl; [|done].
    destruct (JS.splitComma tileCoords !! 1%nat ≫= JS.parseInt10) as [ty|]; simpl; [|done].
    apply forTemplates_idem. intros t t' Ht.
    apply optimizedChunks_idem in Ht as [Ht Hti].
    unfold TemplateManager.matchingTiles in *. by rewrite Hti.
Qed.

(** ** Disjointness of [placed] and [wrong] *)











(** A second run on a tile of 2 x 2 pixels, for the template of the worked
    example. *)
Lemma countPixels_idempotent_witness :
  ∃ ts', TemplateManager.countPixels (Examples.smallManager false) Examples.liveTile
           "0000,0000" (Examples.templatesOf false) = Some ts' ∧
         TemplateManager.countPixels (Examples.smallManager false) Examples.liveTile
           "0000,0000" ts' = Some ts'.
Proof.
  destruct (TemplateManager.countPixels (Examples.smallManager false) Examples.liveTile
              "0000,0000" (Examples.templatesOf false)) as [ts'|] eqn:Hrun.
  - exists ts'. split; [done|].
    apply (countPixels_idempotent _ _ _ (Examples.templatesOf false)). exact Hrun.
  - vm_compute in Hrun. discriminate.
Defined.

(** ** Packed colours *)

Lemma land_shift_low (x y k : Z) :
  0 ≤ k → 0 ≤ y < 2 ^ k → Z.land (x * 2 ^ k) y = 0.
Proof.
  intros Hk Hy. apply Z.bits_inj'. intros n Hn.
  rewrite Z.land_spec, Z.bits_0.
  destruct (decide (n < k)).
  - rewrite Z.mul_pow2_bits_low by lia. done.
  - assert (Z.testbit y n = false) as ->; [|by rewrite andb_false_r].
    destruct (decide (y = 0)) as [->|]; [apply Z.bits_0|].
    apply Z.bits_above_log2; [lia|].
    apply Z.log2_lt_pow2; [lia|].
    apply Z.lt_le_trans with (2 ^ k); [lia|]. apply Z.pow_le_mono_r; lia.
Qed.

Lemma lor_shift_add (x y k : Z) :
  0 ≤ k → 0 ≤ y < 2 ^ k → Z.lor (Z.shiftl x k) y = x * 2 ^ k + y.
Proof.
  intros Hk Hy. rewrite Z.shiftl_mul_pow2 by done.
  rewrite <- Z.lxor_lor by (by apply land_shift_low).
  symmetry. apply Z.add_nocarry_lxor. by apply land_shift_low.
Qed.

Lemma ToInt32_small (z : Z) : - 2 ^ 31 ≤ z < 2 ^ 31 → JS.ToInt32 z = z.
Proof. intros. unfold JS.ToInt32. rewrite Z.mod_small; lia. Qed.

(** On bytes the packed value is the 24-bit number [r g b]. *)
Lemma packRGB_bytes (r g b : Z) :
  0 ≤ r < 256 → 0 ≤ g < 256 → 0 ≤ b < 256 →
  packRGB (Some r) (Some g) (Some b) = r * 65536 + g * 256 + b.
Proof.
  intros Hr Hg Hb. unfold packRGB, JS.bor, JS.shl, JS.num, JS.ToUint32. simpl.
  rewrite !(ToInt32_small r), !(ToInt32_small g), !(ToInt32_small b) by lia.
  assert (Hl1 : Z.lor (r ≪ 16) (g ≪ 8) = r * 2 ^ 16 + g * 2 ^ 8).
  { rewrite (Z.shiftl_mul_pow2 g 8) by lia. apply lor_shift_add; lia. }
  assert (Hl2 : Z.lor (r * 2 ^ 16 + g * 2 ^ 8) b = r * 2 ^ 16 + g * 2 ^ 8 + b).
  { replace (r * 2 ^ 16 + g * 2 ^ 8) with ((r * 2 ^ 8 + g) ≪ 8)
      by (rewrite Z.shiftl_mul_pow2 by lia; lia).
    rewrite lor_shift_add by lia. rewrite Z.shiftl_mul_pow2 by lia. lia. }
  rewrite !(ToInt32_small (r ≪ 16)) by (rewrite Z.shiftl_mul_pow2 by lia; lia).
  rewrite !(ToInt32_small (g ≪ 8)) by (rewrite Z.shiftl_mul_pow2 by lia; lia).
  rewrite Hl1. rewrite !(ToInt32_small (r * 2 ^ 16 + g * 2 ^ 8)) by lia.
  rewrite Hl2. rewrite ToInt32_small by lia. rewrite Z.mod_small by lia. lia.
Qed.

(** Black is the one colour that packs to 0. *)
Lemma packRGB_zero (r g b : Z) :
  0 ≤ r < 256 → 0 ≤ g < 256 → 0 ≤ b < 256 →
  packRGB (Some r) (Some g) (Some b) = 0 ↔ r = 0 ∧ g = 0 ∧ b = 0.
Proof. intros. rewrite packRGB_bytes by done. lia. Qed.

Lemma packRGB_inj (r g b r' g' b' : Z) :
  0 ≤ r < 256 → 0 ≤ g < 256 → 0 ≤ b < 256 →
  0 ≤ r' < 256 → 0 ≤ g' < 256 → 0 ≤ b' < 256 →
  packRGB (Some r) (Some g) (Some b) = packRGB (Some r') (Some g') (Some b') ↔
  r = r' ∧ g = g' ∧ b = b'.
Proof. intros. rewrite !packRGB_bytes by done. lia. Qed.

(** Claim C5, at the input where the code departs from it. Chunking one
    opaque black pixel and chunking one transparent pixel give the same index
    entry, 0: the black pixel is counted in [colorsUsed] and its centre sample
    in the stored bitmap has alpha 255, yet its packed value is the value that
    stands for "no template pixel". Rebuilding the index from the stored
    bitmap gives 0 again. *)
Theorem black_center_packs_to_zero :
  (λ r, cdata <$> centerPixelIndex r.1.1 !! "0000,0000,000,000")
    <$> Examples.chunk Examples.blackPixel (0, 0, 0, 0) 1000 = Some (Some [0]) ∧
  (λ r, cdata <$> centerPixelIndex r.1.1 !! "0000,0000,000,000")
    <$> Examples.chunk Examples.clearPixel (0, 0, 0, 0) 1000 = Some (Some [0]) ∧
  (λ r, colorsUsed r.1.1 !! "0,0,0")
    <$> Examples.chunk Examples.blackPixel (0, 0, 0, 0) 1000 = Some (Some 1) ∧
  (λ r, (λ bmp, JS.get (data bmp) ((1 * 3 + 1) * 4 + 3))
          <$> objGet "0000,0000,000,000" r.1.2)
    <$> Examples.chunk Examples.blackPixel (0, 0, 0, 0) 1000 = Some (Some (Some 255)) ∧
  (λ r, (λ bmp, cdata (Template.rebuildChunk 3 bmp ∅).1)
          <$> objGet "0000,0000,000,000" r.1.2)
    <$> Examples.chunk Examples.blackPixel (0, 0, 0, 0) 1000 = Some (Some [0]).
Proof. repeat split; vm_compute; reflexivity. Qed.

(** Claim C8, at the input where the code departs from it. With a tile size
    of 500, two pixels placed at pixel offset 499 give a second chunk at pixel
    position 500: its key names tile 0 and offset 500, computed with the
    constant 1000, where the tile size gives tile 1 and offset 0; the offset
    is outside [0, 500). *)
Theorem chunk_key_ignores_tileSize :
  (λ r, r.2) <$> Examples.chunk Examples.image21 (0, 0, 499, 0) 500 =
    Some [mkSegment 499 0 1 1 1 1 "0000,0000,499,000";
          mkSegment 500 0 1 1 1 1 "0000,0000,500,000"] ∧
  500 `div` 500 = 1 ∧ 500 `rem` 500 = 0 ∧ ¬ (0 ≤ 500 < 500).
Proof. repeat split; try (vm_compute; reflexivity); lia. Qed.

(** Claim C2, at an input where the two paths differ. The template of the
    worked example has an opaque black pixel at (1, 1) and the live tile is
    black there: the legacy path, which tests the alpha channel, adds "1,1" to
    [placed]; the optimized path, which tests the packed value against 0,
    leaves it out. *)
Theorem legacy_optimized_differ_on_black :
  (λ ts : list Template,
     (λ t, (elements (placedPixelKeys t), elements (wrongPixelKeys t))) <$> ts)
    <$> TemplateManager.countPixels (Examples.smallManager true) Examples.liveTile
          "0000,0000" (Examples.templatesOf true)
    = Some [(["1,1"; "0,0"], ["1,0"])] ∧
  (λ ts : list Template,
     (λ t, (elements (placedPixelKeys t), elements (wrongPixelKeys t))) <$> ts)
    <$> TemplateManager.countPixels (Examples.smallManager false) Examples.liveTile
          "0000,0000" (Examples.templatesOf false)
    = Some [(["0,0"], ["1,0"])].
Proof. split; vm_compute; reflexivity. Qed.

(** ** The canvas *)

Lemma index_div4 (p c : Z) : 0 ≤ c < 4 → (p * 4 + c) `div` 4 = p ∧ (p * 4 + c) `mod` 4 = c.
Proof.
  intros. split.
  - rewrite Z.div_add_l by lia. rewrite Z.div_small by lia. lia.
  - rewrite Z.add_comm, Z.mod_add by lia. apply Z.mod_small. lia.
Qed.

Lemma index_divw (Y X w : Z) :
  0 ≤ X < w → (Y * w + X) `div` w = Y ∧ (Y * w + X) `mod` w = X.
Proof.
  intros. split.
  - rewrite Z.div_add_l by lia. rewrite Z.div_small by lia. lia.
  - rewrite Z.add_comm, Z.mod_add by lia. apply Z.mod_small. lia.
Qed.

Lemma length_drawImageScaled src sx sy sw sh dw dh :
  length (data (drawImageScaled src sx sy sw sh dw dh)) = Z.to_nat (4 * dw * dh).
Proof. unfold drawImageScaled. simpl. by rewrite length_fmap, length_seqZ. Qed.

(** The byte of channel [c] at pixel [(X, Y)] of a scaled drawing. *)
Lemma get_drawImageScaled src sx sy sw sh dw dh X Y c :
  0 ≤ X < dw → 0 ≤ Y < dh → 0 ≤ c < 4 →
  JS.get (data (drawImageScaled src sx sy sw sh dw dh)) ((Y * dw + X) * 4 + c) =
  Some (canvasByte src (sx + ((2 * X + 1) * sw) `div` (2 * dw))
                       (sy + ((2 * Y + 1) * sh) `div` (2 * dh)) c).
Proof.
  intros HX HY Hc.
  assert (0 ≤ (Y * dw + X) * 4 + c < 4 * dw * dh) by nia.
  rewrite get_lookup by lia. unfold drawImageScaled. simpl.
  rewrite list_lookup_fmap, lookup_seqZ_lt by lia. simpl.
  rewrite Z2Nat.id by lia. rewrite !Z.add_0_l.
  destruct (index_div4 (Y * dw + X) c Hc) as [-> ->].
  destruct (index_divw Y X dw HX) as [-> ->]. done.
Qed.

(** Upscaling by an integer factor takes each destination pixel from the
    source pixel of its block. *)
Lemma upscale_source (X s k : Z) :
  0 < s → 0 < k → ((2 * X + 1) * s) `div` (2 * (s * k)) = X `div` k.
Proof.
  intros Hs Hk.
  rewrite (Z.mul_comm s k), Z.mul_assoc.
  rewrite Z.div_mul_cancel_r by lia.
  symmetry. apply Z.div_unique with ((2 * X + 1) - 2 * k * (X `div` k)).
  - left. pose proof (Z.mod_pos_bound X k Hk). pose proof (Z.div_mod X k). nia.
  - lia.
Qed.

(** Drawing a bitmap on a canvas of its own size and reading the canvas back
    gives the bytes of the bitmap. *)
Lemma drawImageCopy_data (bmp : ImageData) :
  0 ≤ width bmp → 0 ≤ height bmp →
  Z.of_nat (length (data bmp)) = 4 * width bmp * height bmp →
  data (drawImageCopy bmp) = data bmp.
Proof.
  intros Hw Hh Hlen. apply list_eq. intros i.
  destruct (decide (Z.of_nat i < 4 * width bmp * height bmp)) as [Hi|Hi].
  - unfold drawImageCopy, drawImageScaled. simpl.
    rewrite list_lookup_fmap, lookup_seqZ_lt by lia. simpl. rewrite !Z.add_0_l.
    set (j := Z.of_nat i). set (w := width bmp) in *. set (h := height bmp) in *.
    assert (0 < w) by nia. assert (0 < h) by nia.
    set (p := j `div` 4).
    assert (0 ≤ p < w * h).
    { subst p. split; [apply Z.div_pos; lia|]. apply Z.div_lt_upper_bound; lia. }
    assert (HX : 0 ≤ p `mod` w < w) by (apply Z.mod_pos_bound; lia).
    assert (HY : 0 ≤ p `div` w < h).
    { split; [apply Z.div_pos; lia|]. apply Z.div_lt_upper_bound; lia. }
    replace (((2 * (p `mod` w) + 1) * w) `div` (2 * w)) with (p `mod` w).
    2:{ apply Z.div_unique with w; lia. }
    replace (((2 * (p `div` w) + 1) * h) `div` (2 * h)) with (p `div` w).
    2:{ apply Z.div_unique with h; lia. }
    unfold canvasByte. rewrite decide_True by (fold w h; lia). fold w.
    replace ((p `div` w * w + p `mod` w) * 4 + j `mod` 4) with j.
    2:{ pose proof (Z.div_mod p w). pose proof (Z.div_mod j 4). subst p. lia. }
    rewrite get_lookup by lia. subst j. rewrite Nat2Z.id.
    destruct (lookup_lt_is_Some_2 (data bmp) i) as [v Hv]; [lia|].
    by rewrite Hv.
  - rewrite !lookup_ge_None_2; [done|lia|].
    unfold drawImageCopy. rewrite length_drawImageScaled. lia.
Qed.

(** ** Rebuilding the centre-pixel index *)

Lemma forZ_fst {A B : Type} (n : Z) (f : Z → A * B → A * B) (g : Z → A → A) :
  (∀ k s, (f k s).1 = g k s.1) →
  ∀ s, (JS.forZ n f s).1 = JS.forZ n g s.1.
Proof.
  intros Hfg s. unfold JS.forZ. induction (Z.to_nat n) as [|k IH]; [done|].
  simpl. by rewrite Hfg, IH.
Qed.

Lemma rebuildPixel_fst d bw cw y x st :
  (Template.rebuildPixel d bw cw 3 y x st).1 = Template.centerPixel d bw cw y x st.1.
Proof.
  destruct st as [cd cu]. unfold Template.rebuildPixel, Template.centerPixel,
    Template.shreadSize. cbv zeta. by destruct (JS.is0 _).
Qed.

(** What [buildCenterPixelIndex] computes for a chunk is what the chunking
    computes inline, on the bytes read back from the stored bitmap. *)
Lemma rebuildChunk_fst (bmp : ImageData) (cu : gmap string Z) :
  (Template.rebuildChunk 3 bmp cu).1 =
  Template.inlineCenter (data (drawImageCopy bmp)) (width bmp) (height bmp).
Proof.
  unfold Template.rebuildChunk, Template.inlineCenter, Template.shreadSize. cbv zeta.
  destruct (JS.forZ _ _ _) as [cd cu'] eqn:Hloop. simpl. f_equal.
  apply (f_equal fst) in Hloop. simpl in Hloop. rewrite <- Hloop.
  rewrite (forZ_fst _ _
             (λ y, JS.forZ (width bmp `div` 3)
                     (λ x, Template.centerPixel (data (drawImageCopy bmp)) (width bmp)
                             (width bmp `div` 3) y x))); [done|].
  intros y s. apply forZ_fst. intros x s'. apply rebuildPixel_fst.
Qed.

Lemma objGet_objSet {V : Type} (k k' : string) (v : V) (o : list (string * V)) :
  objGet k (objSet k' v o) = if decide (k' = k) then Some v else objGet k o.
Proof.
  induction o as [|[k0 w] r IH]; simpl.
  - by destruct (decide (k' = k)).
  - destruct (decide (k0 = k')) as [Heq|Hne]; simpl.
    + destruct (decide (k' = k)), (decide (k0 = k)); congruence.
    + rewrite IH. destruct (decide (k' = k)), (decide (k0 = k)); congruence.
Qed.

Lemma objSet_keys {V : Type} (k : string) (v : V) (o : list (string * V)) :
  (objSet k v o).*1 = if decide (k ∈ o.*1) then o.*1 else o.*1 ++ [k].
Proof.
  induction o as [|[k0 w] r IH].
  - destruct (decide (k ∈ ([] : list (string * V)).*1)) as [Hin|]; [|done].
    by apply elem_of_nil in Hin.
  - cbn [objSet]. destruct (decide (k0 = k)) as [->|Hne].
    + destruct (decide (k ∈ ((k, w) :: r).*1)) as [|Hn]; [done|].
      exfalso. apply Hn. apply elem_of_cons. by left.
    + rewrite fmap_cons, IH. cbn [fst].
      destruct (decide (k ∈ r.*1)) as [Hin|Hin];
        destruct (decide (k ∈ ((k0, w) :: r).*1)) as [Hin'|Hin']; try done.
      * exfalso. apply Hin'. apply elem_of_cons. by right.
      * exfalso. apply elem_of_cons in Hin' as [Heq|?]; [simpl in Heq; congruence|done].
Qed.

Lemma objSet_NoDup {V : Type} (k : string) (v : V) (o : list (string * V)) :
  NoDup (o.*1) → NoDup ((objSet k v o).*1).
Proof.
  intros Hnd. rewrite objSet_keys. destruct (decide (k ∈ o.*1)); [done|].
  apply NoDup_app. split; [done|]. split; [|apply NoDup_singleton].
  intros x Hx ->%list_elem_of_singleton. done.
Qed.

Lemma objGet_elem_of {V : Type} (k : string) (v : V) (o : list (string * V)) :
  NoDup (o.*1) → objGet k o = Some v ↔ (k, v) ∈ o.
Proof.
  induction o as [|[k0 w] r IH]; simpl; intros Hnd.
  - split; [done|]. by intros ?%elem_of_nil.
  - apply NoDup_cons in Hnd as [Hk0 Hnd].
    destruct (decide (k0 = k)) as [->|Hne].
    + split.
      * intros [= ->]. apply elem_of_cons. by left.
      * intros [[= ->]|Hin]%elem_of_cons; [done|].
        exfalso. apply Hk0. apply list_elem_of_fmap. by exists (k, v).
    + rewrite IH by done. split.
      * intros. apply elem_of_cons. by right.
      * intros [[= -> ->]|Hin]%elem_of_cons; done.
Qed.

Lemma objGet_None {V : Type} (k : string) (o : list (string * V)) :
  objGet k o = None ↔ k ∉ o.*1.
Proof.
  induction o as [|[k0 w] r IH]; simpl.
  - split; [|done]. intros _ ?%elem_of_nil. done.
  - destruct (decide (k0 = k)) as [->|Hne].
    + split; [done|]. intros Hn. exfalso. apply Hn. apply elem_of_cons. by left.
    + rewrite IH. split.
      * intros Hn [?|?]%elem_of_cons; [congruence|done].
      * intros Hn Hin. apply Hn. apply elem_of_cons. by right.
Qed.

(** ** Invariants of the chunking loops *)

Lemma shred_length cw ch d cu : length (Template.shred cw ch (d, cu)).1 = length d.
Proof.
  unfold Template.shred.
  apply (forZ_inv (λ st : list Z * gmap string Z, length st.1 = length d)); [done|].
  intros y st _ Hst.
  apply (forZ_inv (λ st : list Z * gmap string Z, length st.1 = length d)); [done|].
  intros x [d' cu'] _ Hd'. unfold Template.shredPixel. simpl in *.
  destruct (_ && _); [by destruct (negb _)|]. simpl. by rewrite length_set.
Qed.

Lemma rowLoop_S fuel bitmap T c0 c1 c2 c3 pixelY dy pixelX st :
  Template.rowLoop (S fuel) bitmap T c0 c1 c2 c3 pixelY dy pixelX st =
  if decide (pixelX < width bitmap + c2) then
    let dx := Z.min (T - pixelX `rem` T) (width bitmap - (pixelX - c2)) in
    if decide (0 < dx ∧ 0 < dy) then
      Template.rowLoop fuel bitmap T c0 c1 c2 c3 pixelY dy (pixelX + dx)
        (Template.chunkSegment bitmap c0 c1 c2 c3 pixelX pixelY dx dy st)
    else None
  else Some st.
Proof. done. Qed.

Lemma tileLoop_S fuel bitmap T c0 c1 c2 c3 pixelY st :
  Template.tileLoop (S fuel) bitmap T c0 c1 c2 c3 pixelY st =
  if decide (pixelY < height bitmap + c3) then
    let dy := Z.min (T - pixelY `rem` T) (height bitmap - (pixelY - c3)) in
    st' ← Template.rowLoop (S fuel) bitmap T c0 c1 c2 c3 pixelY dy c2 st;
    Template.tileLoop fuel bitmap T c0 c1 c2 c3 (pixelY + dy) st'
  else Some st.
Proof. done. Qed.

Lemma rowLoop_O bitmap T c0 c1 c2 c3 pixelY dy pixelX st :
  Template.rowLoop O bitmap T c0 c1 c2 c3 pixelY dy pixelX st =
  if decide (pixelX < width bitmap + c2) then None else Some st.
Proof. done. Qed.

Lemma tileLoop_O bitmap T c0 c1 c2 c3 pixelY st :
  Template.tileLoop O bitmap T c0 c1 c2 c3 pixelY st =
  if decide (pixelY < height bitmap + c3) then None else Some st.
Proof. done. Qed.

Section chunking_invariant.
Context (P : Template.Chunking → Prop) (bitmap : ImageData) (c0 c1 c2 c3 : Z).
Hypothesis Pstep : ∀ pixelX pixelY dx dy st,
  0 < dx → 0 < dy → P st →
  P (Template.chunkSegment bitmap c0 c1 c2 c3 pixelX pixelY dx dy st).

Lemma rowLoop_inv fuel T pixelY dy pixelX st st' :
  Template.rowLoop fuel bitmap T c0 c1 c2 c3 pixelY dy pixelX st = Some st' →
  P st → P st'.
Proof.
  revert pixelX st. induction fuel as [|fuel IH]; intros pixelX st.
  - rewrite rowLoop_O. destruct (decide _); [done|]. by intros [= <-].
  - rewrite rowLoop_S. destruct (decide (pixelX < _)); [|by intros [= <-]]. cbv zeta.
    destruct (decide (_ ∧ _)) as [[? ?]|]; [|done].
    intros Hrun HP. apply (IH _ _ Hrun). by apply Pstep.
Qed.

Lemma tileLoop_inv fuel T pixelY st st' :
  Template.tileLoop fuel bitmap T c0 c1 c2 c3 pixelY st = Some st' →
  P st → P st'.
Proof.
  revert pixelY st. induction fuel as [|fuel IH]; intros pixelY st.
  - rewrite tileLoop_O. destruct (decide _); [done|]. by intros [= <-].
  - rewrite tileLoop_S. destruct (decide (pixelY < _)); [|by intros [= <-]]. cbv zeta.
    destruct (Template.rowLoop _ _ _ _ _ _ _ _ _ _ _) as [st1|] eqn:Hrow; [|done].
    intros Hrun HP. apply (IH _ _ Hrun). by apply (rowLoop_inv _ _ _ _ _ _ _ Hrow).
Qed.
End chunking_invariant.

Lemma chunkSegment_indexed cpi0 bitmap c0 c1 c2 c3 pixelX pixelY dx dy st :
  0 < dx → 0 < dy → chunksIndexed cpi0 st →
  chunksIndexed cpi0 (Template.chunkSegment bitmap c0 c1 c2 c3 pixelX pixelY dx dy st).
Proof.
  intros Hdx Hdy (Hnd & Hin & Hout). unfold Template.chunkSegment. cbv zeta.
  destruct (Template.shred _ _ _) as [d cu] eqn:Hshred.
  assert (Hlen : length d =
                 Z.to_nat (4 * (dx * Template.shreadSize) * (dy * Template.shreadSize))).
  { apply (f_equal fst) in Hshred. simpl in Hshred. rewrite <- Hshred.
    rewrite shred_length. apply length_drawImageScaled. }
  unfold Template.shreadSize in *.
  split; [|split]; simpl.
  - by apply objSet_NoDup.
  - intros key bmp. rewrite objGet_objSet.
    destruct (decide (Template.templateTileName c0 c1 pixelX pixelY = key)) as [<-|Hne].
    + intros [= <-]. simpl. rewrite lookup_insert_eq. split; [|done]. lia.
    + intros Hget. rewrite lookup_insert_ne by done. by apply Hin.
  - intros key. rewrite objGet_objSet.
    destruct (decide (Template.templateTileName c0 c1 pixelX pixelY = key)) as [<-|Hne];
      [done|].
    intros Hget. rewrite lookup_insert_ne by done. by apply Hout.
Qed.

Lemma rebuild_fold_lookup (c : list (string * ImageData))
    (acc : gmap string CenterInfo * gmap string Z) :
  NoDup (c.*1) →
  let res :=
    foldl (λ '(cpi, cu) '(key, bmp),
             let '(ci, cu') := Template.rebuildChunk 3 bmp cu in
             (<[key := ci]> cpi, cu'))
          acc c in
  (∀ key bmp, (key, bmp) ∈ c →
     res.1 !! key =
     Some (Template.inlineCenter (data (drawImageCopy bmp)) (width bmp) (height bmp))) ∧
  (∀ key, key ∉ c.*1 → res.1 !! key = acc.1 !! key).
Proof.
  revert acc. induction c as [|[k b] r IH]; intros acc Hnd; simpl.
  - split; [|done]. intros key bmp ?%elem_of_nil. done.
  - apply NoDup_cons in Hnd as [Hk Hnd].
    destruct acc as [cpi cu].
    destruct (Template.rebuildChunk 3 b cu) as [ci cu'] eqn:Hci.
    assert (ci = Template.inlineCenter (data (drawImageCopy b)) (width b) (height b)) as Hci'.
    { rewrite <- (rebuildChunk_fst b cu). by rewrite Hci. }
    destruct (IH (<[k := ci]> cpi, cu') Hnd) as [IH1 IH2]. split.
    + intros key bmp [[= -> ->]|Hin]%elem_of_cons.
      * rewrite IH2 by done. simpl. rewrite lookup_insert_eq. by rewrite Hci'.
      * by apply IH1.
    + intros key Hkey. rewrite IH2.
      * simpl. apply lookup_insert_ne. intros ->. apply Hkey. apply elem_of_cons. by left.
      * intros Hin. apply Hkey. apply elem_of_cons. by right.
Qed.

(** ** Round trip of the centre-pixel index *)

(** Claim C6. Take the bitmaps that [createTemplateTiles] returned and any
    template [u] whose [chunked] holds them, whatever index [u] had before.
    [buildCenterPixelIndex] with the multiplier 3 on [u] succeeds, and for the
    key of every chunk it stores the entry (width, height and packed buffer)
    that the chunking stored inline for that key, which is what
    [rebuildChunk] computes from the chunk's bitmap; it stores nothing under
    other keys. If the index was empty before the chunking, the rebuilt index
    is the index of the chunking. *)
Theorem rebuilt_index_is_inline_index (fuel : nat) (t t' u : Template)
    (tiles : list (string * ImageData)) (segs : list Segment) :
  Template.createTemplateTiles fuel t = Some (t', tiles, segs) →
  chunked u = Some tiles →
  ∃ u', Template.buildCenterPixelIndex 3 u = Some u' ∧
    (∀ key bmp cu, objGet key tiles = Some bmp →
       ∃ ci, centerPixelIndex t' !! key = Some ci ∧
             centerPixelIndex u' !! key = Some ci ∧
             (Template.rebuildChunk 3 bmp cu).1 = ci) ∧
    (∀ key, objGet key tiles = None → centerPixelIndex u' !! key = None) ∧
    (centerPixelIndex t = ∅ → centerPixelIndex u' = centerPixelIndex t').
Proof.
  unfold Template.createTemplateTiles.
  destruct (file t) as [bitmap|]; simpl; [|done].
  destruct (coords t) as [[[[c0 c1] c2] c3]|]; simpl; [|done].
  destruct (decide (tileSize t = 0)); [done|].
  destruct (Template.tileLoop _ _ _ _ _ _ _ _ _) as [st|] eqn:Hloop; simpl; [|done].
  destruct (Template.enableAll _ _) as [ac|]; simpl; [|done].
  intros [= <- <- _] Hu.
  assert (Hidx : chunksIndexed (centerPixelIndex t) st).
  { apply (tileLoop_inv (chunksIndexed (centerPixelIndex t)) bitmap c0 c1 c2 c3)
      in Hloop; [done| |].
    - intros. by apply chunkSegment_indexed.
    - split; [apply NoDup_nil_2|]. split; [done|]. done. }
  destruct Hidx as (Hnd & Hin & Hout).
  unfold Template.buildCenterPixelIndex. rewrite Hu. simpl.
  destruct (foldl _ _ _) as [cpi cu] eqn:Hfold.
  eexists. split; [done|]. simpl.
  pose proof (rebuild_fold_lookup (Template.templateTiles st) (∅, ∅) Hnd) as Hres.
  cbv zeta in Hres. rewrite Hfold in Hres. cbn [fst] in Hres.
  destruct Hres as [Hres1 Hres2].
  assert (Hboth : ∀ key bmp, objGet key (Template.templateTiles st) = Some bmp →
            Template.inlineCenter (data (drawImageCopy bmp)) (width bmp) (height bmp) =
            Template.inlineCenter (data bmp) (width bmp) (height bmp)).
  { intros key bmp Hget. destruct (Hin _ _ Hget) as [(? & ? & ?) _].
    by rewrite drawImageCopy_data. }
  split; [|split].
  - intros key bmp cu0 Hget. destruct (Hin _ _ Hget) as [_ Hcpi].
    exists (Template.inlineCenter (data bmp) (width bmp) (height bmp)).
    split; [done|]. split.
    + rewrite (Hres1 key bmp) by (by apply objGet_elem_of). by rewrite (Hboth key).
    + rewrite rebuildChunk_fst. by apply (Hboth key).
  - intros key Hget. rewrite Hres2 by (by apply objGet_None). done.
  - intros Hempty. apply map_eq. intros key.
    destruct (objGet key (Template.templateTiles st)) as [bmp|] eqn:Hget.
    + destruct (Hin _ _ Hget) as [_ ->].
      rewrite (Hres1 key bmp) by (by apply objGet_elem_of). by rewrite (Hboth key).
    + rewrite (Hout _ Hget), Hempty.
      rewrite Hres2 by (by apply objGet_None). done.
Qed.

(** The round trip for the chunk of the worked example, rebuilt on a template
    that holds the chunk and an index of its own with one stale entry. *)
Lemma rebuilt_index_is_inline_index_witness :
  match Examples.chunk Examples.image22 (0, 0, 0, 0) 1000 with
  | Some (t', tiles, segs) =>
      let u := mkTemplate 7 None None (Some tiles) 1000 0 ∅ ∅ ∅ None
                 {["stale"%string := mkCenter 1 1 [5]]} ∅ in
      ∃ u', Template.buildCenterPixelIndex 3 u = Some u' ∧
        (∀ key bmp cu, objGet key tiles = Some bmp →
           ∃ ci, centerPixelIndex t' !! key = Some ci ∧
                 centerPixelIndex u' !! key = Some ci ∧
                 (Template.rebuildChunk 3 bmp cu).1 = ci) ∧
        (∀ key, objGet key tiles = None → centerPixelIndex u' !! key = None) ∧
        (centerPixelIndex (Template.new 0 (Some Examples.image22) (Some (0, 0, 0, 0)) None 1000)
           = ∅ → centerPixelIndex u' = centerPixelIndex t')
  | None => False
  end.
Proof.
  destruct (Examples.chunk Examples.image22 (0, 0, 0, 0) 1000) as [[[t' tiles] segs]|] eqn:Hrun.
  - intros u.
    apply (rebuilt_index_is_inline_index 5
             (Template.new 0 (Some Examples.image22) (Some (0, 0, 0, 0)) None 1000)
             t' u tiles segs); [exact Hrun|reflexivity].
  - vm_compute in Hrun. discriminate.
Defined.

(** ** The segments of the chunking *)

Lemma chunkSegment_segments bitmap c0 c1 c2 c3 pixelX pixelY dx dy st :
  Template.segments (Template.chunkSegment bitmap c0 c1 c2 c3 pixelX pixelY dx dy st) =
  Template.segments st ++
    [mkSegment pixelX pixelY dx dy dx dy (Template.templateTileName c0 c1 pixelX pixelY)].
Proof.
  unfold Template.chunkSegment. cbv zeta. destruct (Template.shred _ _ _) as [d cu].
  simpl. unfold Template.shreadSize. by rewrite !Z.div_mul by lia.
Qed.

Section segments.
Context (bitmap : ImageData) (T c0 c1 c2 c3 : Z).
Hypothesis HT : 0 < T.
Hypothesis Hc2 : 0 ≤ c2.
Hypothesis Hc3 : 0 ≤ c3.

Lemma next_boundary (p : Z) : 0 ≤ p → (p + (T - p `mod` T)) `mod` T = 0.
Proof.
  intros Hp. replace (p + (T - p `mod` T)) with ((p `div` T + 1) * T).
  - apply Z.mod_mul. lia.
  - pose proof (Z.div_mod p T). lia.
Qed.

Lemma rowLoop_segments fuel pixelY dy pixelX st st' :
  c2 ≤ pixelX → c3 ≤ pixelY →
  (pixelX = c2 ∨ pixelX `mod` T = 0 ∨ width bitmap + c2 ≤ pixelX) →
  dy = Z.min (T - pixelY `mod` T) (height bitmap - (pixelY - c3)) →
  (pixelY ≠ c3 → pixelY `mod` T = 0) →
  Template.rowLoop fuel bitmap T c0 c1 c2 c3 pixelY dy pixelX st = Some st' →
  ∃ new, Template.segments st' = Template.segments st ++ new ∧
    Forall (segmentShaped T (width bitmap) (height bitmap) c0 c1 c2 c3) new ∧
    (pixelX < width bitmap + c2 →
       ∃ f r, new = f :: r ∧ segPixelX f = pixelX ∧ segPixelY f = pixelY).
Proof.
  intros HpX HpY Hal Hdy HalY. revert pixelX st HpX Hal.
  induction fuel as [|fuel IH]; intros pixelX st HpX Hal.
  - rewrite rowLoop_O. destruct (decide _); [done|]. intros [= <-].
    exists []. rewrite app_nil_r. split; [done|]. split; [done|]. lia.
  - rewrite rowLoop_S. destruct (decide (pixelX < _)) as [Hlt|Hge].
    + cbv zeta. rewrite Z.rem_mod_nonneg by lia.
      set (dx := Z.min (T - pixelX `mod` T) (width bitmap - (pixelX - c2))).
      destruct (decide (_ ∧ _)) as [[Hdx Hdy0]|]; [|done].
      intros Hrun. pose proof (Z.mod_pos_bound pixelX T HT) as Hmod.
      apply IH in Hrun as (new & Hseg & Hall & _); [|lia|].
      2:{ destruct (decide (dx = T - pixelX `mod` T)) as [Heq|Hne].
          - right. left. rewrite Heq. apply next_boundary. lia.
          - right. right. lia. }
      rewrite chunkSegment_segments in Hseg. rewrite <- app_assoc in Hseg.
      eexists. split; [exact Hseg|]. split.
      * apply Forall_cons. split; [|done].
        unfold segmentShaped. simpl. repeat split; try done; lia.
      * intros _. eexists _, _. split; [done|]. done.
    + intros [= <-]. exists []. rewrite app_nil_r. split; [done|]. split; [done|]. lia.
Qed.

Lemma tileLoop_segments fuel pixelY st st' :
  0 < width bitmap →
  c3 ≤ pixelY →
  (pixelY = c3 ∨ pixelY `mod` T = 0 ∨ height bitmap + c3 ≤ pixelY) →
  Template.tileLoop fuel bitmap T c0 c1 c2 c3 pixelY st = Some st' →
  ∃ new, Template.segments st' = Template.segments st ++ new ∧
    Forall (segmentShaped T (width bitmap) (height bitmap) c0 c1 c2 c3) new ∧
    (pixelY < height bitmap + c3 →
       ∃ f r, new = f :: r ∧ segPixelX f = c2 ∧ segPixelY f = pixelY).
Proof.
  intros HW. revert pixelY st.
  induction fuel as [|fuel IH]; intros pixelY st HpY Hal.
  - rewrite tileLoop_O. destruct (decide _); [done|]. intros [= <-].
    exists []. rewrite app_nil_r. split; [done|]. split; [done|]. lia.
  - rewrite tileLoop_S. destruct (decide (pixelY < _)) as [Hlt|Hge].
    + cbv zeta. rewrite Z.rem_mod_nonneg by lia.
      set (dy := Z.min (T - pixelY `mod` T) (height bitmap - (pixelY - c3))).
      destruct (Template.rowLoop _ _ _ _ _ _ _ _ _ _ _) as [st1|] eqn:Hrow; [|done].
      simpl. intros Hrun. pose proof (Z.mod_pos_bound pixelY T HT) as Hmod.
      apply rowLoop_segments in Hrow as (new1 & Hseg1 & Hall1 & Hfirst); try done; try lia.
      destruct Hfirst as (f & r & -> & HfX & HfY); [lia|].
      apply IH in Hrun as (new2 & Hseg2 & Hall2 & _); [|lia|].
      2:{ destruct (decide (dy = T - pixelY `mod` T)) as [Heq|Hne].
          - right. left. rewrite Heq. apply next_boundary. lia.
          - right. right. lia. }
      rewrite Hseg1, <- app_assoc in Hseg2.
      eexists. split; [exact Hseg2|]. split.
      * by apply Forall_app.
      * intros _. exists f, (r ++ new2). done.
    + intros [= <-]. exists []. rewrite app_nil_r. split; [done|]. split; [done|]. lia.
Qed.
End segments.

(** ** Termination of the chunking *)

Section chunking_total.
Context (bitmap : ImageData) (T c0 c1 c2 c3 : Z).
Hypothesis HT : 0 < T.
Hypothesis Hc2 : 0 ≤ c2.
Hypothesis Hc3 : 0 ≤ c3.

Lemma rowLoop_total fuel pixelY dy pixelX st :
  c2 ≤ pixelX → 0 < dy →
  (Z.to_nat (width bitmap + c2 - pixelX) ≤ fuel)%nat →
  is_Some (Template.rowLoop fuel bitmap T c0 c1 c2 c3 pixelY dy pixelX st).
Proof.
  intros HpX Hdy. revert pixelX st HpX.
  induction fuel as [|fuel IH]; intros pixelX st HpX Hfuel.
  - rewrite rowLoop_O. destruct (decide _); [lia|]. by eexists.
  - rewrite rowLoop_S. destruct (decide (pixelX < _)) as [Hlt|Hge]; [|by eexists].
    cbv zeta. rewrite Z.rem_mod_nonneg by lia.
    pose proof (Z.mod_pos_bound pixelX T HT) as Hmod.
    rewrite decide_True by lia. apply IH; lia.
Qed.

Lemma tileLoop_total fuel pixelY st :
  c3 ≤ pixelY →
  (Z.to_nat (height bitmap + c3 - pixelY) + Z.to_nat (width bitmap) ≤ fuel)%nat →
  is_Some (Template.tileLoop fuel bitmap T c0 c1 c2 c3 pixelY st).
Proof.
  revert pixelY st.
  induction fuel as [|fuel IH]; intros pixelY st HpY Hfuel.
  - rewrite tileLoop_O. destruct (decide _); [lia|]. by eexists.
  - rewrite tileLoop_S. destruct (decide (pixelY < _)) as [Hlt|Hge]; [|by eexists].
    cbv zeta. rewrite Z.rem_mod_nonneg by lia.
    pose proof (Z.mod_pos_bound pixelY T HT) as Hmod.
    destruct (rowLoop_total (S fuel) pixelY
                (Z.min (T - pixelY `mod` T) (height bitmap - (pixelY - c3))) c2 st)
      as [st1 ->]; [lia|lia|lia|].
    simpl. apply IH; lia.
Qed.
End chunking_total.

Lemma createTemplateTiles_total fuel t bitmap c0 c1 c2 c3 :
  file t = Some bitmap → coords t = Some (c0, c1, c2, c3) →
  is_Some (activeColors t) →
  0 < tileSize t → 0 ≤ c2 → 0 ≤ c3 →
  (Z.to_nat (height bitmap) + Z.to_nat (width bitmap) ≤ fuel)%nat →
  is_Some (Template.createTemplateTiles fuel t).
Proof.
  intros Hfile Hcoords [ac Hac] HT Hc2 Hc3 Hfuel.
  unfold Template.createTemplateTiles. rewrite Hfile, Hcoords. simpl.
  rewrite decide_False by lia.
  destruct (tileLoop_total bitmap (tileSize t) c0 c1 c2 c3 HT Hc2 Hc3 fuel c3
              (Template.mkChunking [] (colorsUsed t) (centerPixelIndex t) (tileIndex t) []))
    as [st ->]; [lia|lia|].
  simpl. rewrite Hac. simpl. by eexists.
Qed.

(** ** Partial first tile *)


(** ** Colours found by the chunking *)

Lemma pixel_index_inj (w x y c X Y C : Z) :
  0 ≤ x < w → 0 ≤ X < w → 0 ≤ c < 4 → 0 ≤ C < 4 →
  (y * w + x) * 4 + c = (Y * w + X) * 4 + C → x = X ∧ y = Y ∧ c = C.
Proof.
  intros Hx HX Hc HC Heq.
  assert (c = C) by lia. assert (y * w + x = Y * w + X) as Hp by lia.
  assert (y = Y) by nia. subst. split; [lia|done].
Qed.

Lemma dom_count (key : string) (cu : gmap string Z) :
  dom cu ⊆ dom (<[key := default 0 (cu !! key) + 1]> cu) ∧
  key ∈ dom (<[key := default 0 (cu !! key) + 1]> cu).
Proof. rewrite dom_insert_L. set_solver. Qed.

Section shred_spec.
Context (cw ch : Z) (d0 : list Z) (cu0 : gmap string Z) (X0 Y0 : Z).
Hypothesis HX0 : 0 ≤ X0 < cw.
Hypothesis HY0 : 0 ≤ Y0 < ch.
Hypothesis HcX : X0 `mod` 3 = 1.
Hypothesis HcY : Y0 `mod` 3 = 1.
Hypothesis Halpha : JS.get d0 ((Y0 * cw + X0) * 4 + 3) ≠ Some 0.

Abbreviation shredKeeps := (shredKeeps cw d0 cu0).
Abbreviation targetKey := (sampleKey d0 cw X0 Y0).

Lemma shredPixel_keeps y x st :
  0 ≤ x < cw → 0 ≤ y →
  shredKeeps st →
  shredKeeps (Template.shredPixel cw y x st) ∧
  (x = X0 → y = Y0 → targetKey ∈ dom (Template.shredPixel cw y x st).2) ∧
  (targetKey ∈ dom st.2 → targetKey ∈ dom (Template.shredPixel cw y x st).2).
Proof.
  intros Hx Hy [Hbytes Hdom]. destruct st as [d cu]. simpl in *.
  unfold Template.shredPixel, Template.shreadSize.
  rewrite !Z.rem_mod_nonneg by lia.
  destruct (bool_decide (x `mod` 3 = 1)) eqn:Ex; simpl.
  - apply bool_decide_eq_true in Ex.
    destruct (bool_decide (y `mod` 3 = 1)) eqn:Ey; simpl.
    + apply bool_decide_eq_true in Ey.
      destruct (JS.is0 (JS.get d ((y * cw + x) * 4 + 3))) eqn:Ea; simpl.
      * split; [done|]. split; [|done]. intros -> ->.
        apply is0_true in Ea. rewrite Hbytes in Ea by (done || lia). done.
      * destruct (dom_count (colorKey (JS.get d ((y * cw + x) * 4 + 0))
                               (JS.get d ((y * cw + x) * 4 + 1))
                               (JS.get d ((y * cw + x) * 4 + 2))) cu) as [Hsub Hin].
        split; [split; [done|set_solver]|]. split; [|set_solver].
        intros -> ->. unfold sampleKey.
        rewrite <- !Hbytes by (done || lia). done.
    + apply bool_decide_eq_false in Ey.
      split; [|split; [congruence|done]]. split; [|done]. simpl.
      intros X Y c HX HXc HYc Hc. rewrite get_set_ne; [by apply Hbytes|].
      intros Heq. apply pixel_index_inj in Heq as (_ & -> & _); [done|lia..].
  - apply bool_decide_eq_false in Ex.
    split; [|split; [congruence|done]]. split; [|done]. simpl.
    intros X Y c HX HXc HYc Hc. rewrite get_set_ne; [by apply Hbytes|].
    intros Heq. apply pixel_index_inj in Heq as (-> & _ & _); [done|lia..].
Qed.

(** After the loops the colour of every non-transparent centre sample is a
    key of [colorsUsed]. *)
Lemma shred_finds_target :
  shredKeeps (Template.shred cw ch (d0, cu0)) ∧
  targetKey ∈ dom (Template.shred cw ch (d0, cu0)).2.
Proof.
  unfold Template.shred.
  pose proof (forZ_ind
    (λ ky st, shredKeeps st ∧ (Y0 < ky → targetKey ∈ dom st.2)) ch
    (λ y, JS.forZ cw (λ x, Template.shredPixel cw y x)) (d0, cu0)) as Houter.
  destruct Houter as [Hk Ht].
  - split; [split; [done|set_solver]|lia].
  - intros y st Hy [Hkeep Hseen].
    pose proof (forZ_ind
      (λ kx st', shredKeeps st' ∧
                 (Y0 < y ∨ (Y0 = y ∧ X0 < kx) → targetKey ∈ dom st'.2)) cw
      (λ x, Template.shredPixel cw y x) st) as Hinner.
    destruct Hinner as [Hk' Ht'].
    + split; [done|]. intros [?|[? ?]]; [auto|lia].
    + intros x st' Hx [Hkeep' Hseen'].
      destruct (shredPixel_keeps y x st') as (Hk1 & Hnew & Hold); [lia|lia|done|].
      split; [done|]. intros [?|[? ?]].
      * apply Hold. apply Hseen'. by left.
      * destruct (decide (X0 = x)) as [->|].
        -- by apply Hnew.
        -- apply Hold. apply Hseen'. right. lia.
    + split; [done|]. intros ?. apply Ht'.
      destruct (decide (Y0 = y)); [right|left]; lia.
  - split; [done|]. apply Ht. lia.
Qed.
End shred_spec.

Lemma center_div_mod (k : Z) : (k * 3 + 1) `div` 3 = k ∧ (k * 3 + 1) `mod` 3 = 1.
Proof.
  split.
  - rewrite Z.div_add_l by lia. rewrite Z.div_small by lia. lia.
  - rewrite Z.add_comm, Z.mod_add by lia. apply Z.mod_small. lia.
Qed.

Lemma canvasByte_get (src : ImageData) (x y c : Z) :
  0 ≤ x < width src → 0 ≤ y < height src → 0 ≤ c < 4 →
  Z.of_nat (length (data src)) = 4 * width src * height src →
  Some (canvasByte src x y c) = JS.get (data src) ((y * width src + x) * 4 + c).
Proof.
  intros Hx Hy Hc Hlen. unfold canvasByte. rewrite decide_True by lia.
  destruct (get_is_Some (data src) ((y * width src + x) * 4 + c)) as [v ->]; [nia|].
  done.
Qed.

Lemma chunkSegment_mono bitmap c0 c1 c2 c3 pixelX pixelY dx dy st :
  dom (Template.chColorsUsed st) ⊆
    dom (Template.chColorsUsed
           (Template.chunkSegment bitmap c0 c1 c2 c3 pixelX pixelY dx dy st)).
Proof.
  unfold Template.chunkSegment, Template.shreadSize. cbv zeta.
  set (img := drawImageScaled bitmap (pixelX - c2) (pixelY - c3) dx dy (dx * 3) (dy * 3)).
  pose proof (forZ_inv
    (λ st' : list Z * gmap string Z, dom (Template.chColorsUsed st) ⊆ dom st'.2)
    (dy * 3)
    (λ y', JS.forZ (dx * 3) (λ x', Template.shredPixel (dx * 3) y' x'))
    (data img, Template.chColorsUsed st)) as Hmono.
  fold (Template.shred (dx * 3) (dy * 3) (data img, Template.chColorsUsed st)) in Hmono.
  destruct (Template.shred _ _ _) as [d cu]. simpl. apply Hmono; [done|].
  intros y' st1 _ H1. apply forZ_inv; [done|].
  intros x' [d2 cu2] _ H2. unfold Template.shredPixel. simpl in *.
  destruct (_ && _); [|done]. destruct (negb _); [|done]. simpl.
  destruct (dom_count (colorKey (JS.get d2 ((y' * (dx * 3) + x') * 4 + 0))
                         (JS.get d2 ((y' * (dx * 3) + x') * 4 + 1))
                         (JS.get d2 ((y' * (dx * 3) + x') * 4 + 2))) cu2) as [Hs _].
  set_solver.
Qed.

Section colors_found.
Context (bitmap : ImageData) (c0 c1 c2 c3 x y : Z).
Hypothesis Hlen : Z.of_nat (length (data bitmap)) = 4 * width bitmap * height bitmap.
Hypothesis Hx : 0 ≤ x < width bitmap.
Hypothesis Hy : 0 ≤ y < height bitmap.
Hypothesis Halpha : JS.get (data bitmap) ((y * width bitmap + x) * 4 + 3) ≠ Some 0.

Abbreviation sourceKey := (sampleKey (data bitmap) (width bitmap) x y).

Lemma chunkSegment_colors pixelX pixelY dx dy st :
  0 < dx → 0 < dy →
  dom (Template.chColorsUsed st) ⊆
    dom (Template.chColorsUsed
           (Template.chunkSegment bitmap c0 c1 c2 c3 pixelX pixelY dx dy st)) ∧
  (pixelX - c2 ≤ x < pixelX - c2 + dx → pixelY - c3 ≤ y < pixelY - c3 + dy →
   sourceKey ∈ dom (Template.chColorsUsed
                      (Template.chunkSegment bitmap c0 c1 c2 c3 pixelX pixelY dx dy st))).
Proof.
  intros Hdx Hdy. split; [apply chunkSegment_mono|].
  unfold Template.chunkSegment, Template.shreadSize. cbv zeta.
  set (img := drawImageScaled bitmap (pixelX - c2) (pixelY - c3) dx dy (dx * 3) (dy * 3)).
  intros HxIn HyIn.
  set (kx := x - (pixelX - c2)). set (ky := y - (pixelY - c3)).
  destruct (center_div_mod kx) as [HdX HmX]. destruct (center_div_mod ky) as [HdY HmY].
  assert (Hread : ∀ c, 0 ≤ c < 4 →
            JS.get (data img) (((ky * 3 + 1) * (dx * 3) + (kx * 3 + 1)) * 4 + c) =
            JS.get (data bitmap) ((y * width bitmap + x) * 4 + c)).
  { intros c Hc. subst img. rewrite get_drawImageScaled by lia.
    rewrite !upscale_source by lia. rewrite HdX, HdY.
    replace (pixelX - c2 + kx) with x by (subst kx; lia).
    replace (pixelY - c3 + ky) with y by (subst ky; lia).
    by apply canvasByte_get. }
  destruct (shred_finds_target (dx * 3) (dy * 3) (data img) (Template.chColorsUsed st)
              (kx * 3 + 1) (ky * 3 + 1)) as [_ Hin]; try done; try lia.
  { rewrite Hread by lia. done. }
  destruct (Template.shred _ _ _) as [d cu]. simpl in *.
  unfold sampleKey in *. rewrite !Hread in Hin by lia. done.
Qed.

Lemma rowLoop_colors fuel T pixelY dy pixelX st st' :
  Template.rowLoop fuel bitmap T c0 c1 c2 c3 pixelY dy pixelX st = Some st' →
  dom (Template.chColorsUsed st) ⊆ dom (Template.chColorsUsed st') ∧
  (pixelY - c3 ≤ y < pixelY - c3 + dy → pixelX - c2 ≤ x →
   sourceKey ∈ dom (Template.chColorsUsed st')).
Proof.
  revert pixelX st. induction fuel as [|fuel IH]; intros pixelX st.
  - rewrite rowLoop_O. destruct (decide _); [done|]. intros [= <-]. split; [done|]. lia.
  - rewrite rowLoop_S. destruct (decide (pixelX < _)) as [Hlt|Hge].
    + cbv zeta. set (dx := Z.min _ _).
      destruct (decide (_ ∧ _)) as [[Hdx Hdy]|]; [|done].
      intros Hrun. apply IH in Hrun as [Hmono Hfound].
      destruct (chunkSegment_colors pixelX pixelY dx dy st Hdx Hdy) as [Hmono1 Hfound1].
      split; [set_solver|]. intros HyIn HxIn.
      destruct (decide (x < pixelX - c2 + dx)).
      * apply Hmono. apply Hfound1; lia.
      * apply Hfound; lia.
    + intros [= <-]. split; [done|]. lia.
Qed.

Lemma tileLoop_colors fuel T pixelY st st' :
  Template.tileLoop fuel bitmap T c0 c1 c2 c3 pixelY st = Some st' →
  dom (Template.chColorsUsed st) ⊆ dom (Template.chColorsUsed st') ∧
  (pixelY - c3 ≤ y → sourceKey ∈ dom (Template.chColorsUsed st')).
Proof.
  revert pixelY st. induction fuel as [|fuel IH]; intros pixelY st.
  - rewrite tileLoop_O. destruct (decide _); [done|]. intros [= <-]. split; [done|]. lia.
  - rewrite tileLoop_S. destruct (decide (pixelY < _)) as [Hlt|Hge].
    + cbv zeta. set (dy := Z.min _ _).
      destruct (Template.rowLoop _ _ _ _ _ _ _ _ _ _ _) as [st1|] eqn:Hrow; [|done].
      simpl. intros Hrun. apply IH in Hrun as [Hmono Hfound].
      apply rowLoop_colors in Hrow as [Hmono1 Hfound1].
      split; [set_solver|]. intros HyIn.
      destruct (decide (y < pixelY - c3 + dy)).
      * apply Hmono. apply Hfound1; lia.
      * apply Hfound; lia.
    + intros [= <-]. split; [done|]. lia.
Qed.
End colors_found.

(** ** Colours found by rebuilding the index *)

Lemma rebuildPixel_colors d bw cw y x st :
  dom st.2 ⊆ dom (Template.rebuildPixel d bw cw 3 y x st).2 ∧
  (JS.get d (((y * 3 + 1) * bw + (x * 3 + 1)) * 4 + 3) ≠ Some 0 →
   sampleKey d bw (x * 3 + 1) (y * 3 + 1) ∈ dom (Template.rebuildPixel d bw cw 3 y x st).2).
Proof.
  destruct st as [cd cu]. unfold Template.rebuildPixel. cbv zeta.
  destruct (JS.is0 _) eqn:Ea; simpl.
  - split; [done|]. intros Hne. by apply is0_true in Ea.
  - destruct (dom_count (colorKey (JS.get d (((y * 3 + 1) * bw + (x * 3 + 1)) * 4 + 0))
                           (JS.get d (((y * 3 + 1) * bw + (x * 3 + 1)) * 4 + 1))
                           (JS.get d (((y * 3 + 1) * bw + (x * 3 + 1)) * 4 + 2))) cu)
      as [Hsub Hin].
    split; [done|]. intros _. exact Hin.
Qed.

Lemma rebuildChunk_colors (bmp : ImageData) (cu : gmap string Z) :
  0 ≤ width bmp → 0 ≤ height bmp →
  Z.of_nat (length (data bmp)) = 4 * width bmp * height bmp →
  dom cu ⊆ dom (Template.rebuildChunk 3 bmp cu).2 ∧
  (∀ x y, 0 ≤ x < width bmp `div` 3 → 0 ≤ y < height bmp `div` 3 →
     JS.get (data bmp) (((y * 3 + 1) * width bmp + (x * 3 + 1)) * 4 + 3) ≠ Some 0 →
     sampleKey (data bmp) (width bmp) (x * 3 + 1) (y * 3 + 1)
       ∈ dom (Template.rebuildChunk 3 bmp cu).2).
Proof.
  intros Hw Hh Hlen. unfold Template.rebuildChunk. cbv zeta.
  rewrite drawImageCopy_data by done.
  set (w := width bmp). set (cw := w `div` 3). set (chh := height bmp `div` 3).
  set (d := data bmp).
  assert (Hloop : ∀ x0 y0, 0 ≤ x0 < cw → 0 ≤ y0 < chh →
    let res := JS.forZ chh (λ y, JS.forZ cw (λ x, Template.rebuildPixel d w cw 3 y x))
                 (replicate (Z.to_nat (cw * chh)) 0, cu) in
    dom cu ⊆ dom res.2 ∧
    (JS.get d (((y0 * 3 + 1) * w + (x0 * 3 + 1)) * 4 + 3) ≠ Some 0 →
     sampleKey d w (x0 * 3 + 1) (y0 * 3 + 1) ∈ dom res.2)).
  { intros x0 y0 Hx0 Hy0 res. subst res.
    pose proof (forZ_ind
      (λ ky st, dom cu ⊆ dom st.2 ∧
                (y0 < ky → JS.get d (((y0 * 3 + 1) * w + (x0 * 3 + 1)) * 4 + 3) ≠ Some 0 →
                 sampleKey d w (x0 * 3 + 1) (y0 * 3 + 1) ∈ dom st.2)) chh
      (λ y, JS.forZ cw (λ x, Template.rebuildPixel d w cw 3 y x))
      (replicate (Z.to_nat (cw * chh)) 0, cu)) as Houter.
    destruct Houter as [Hm Hf].
    - split; [done|lia].
    - intros y st Hy [Hmono Hseen].
      pose proof (forZ_ind
        (λ kx st', dom cu ⊆ dom st'.2 ∧
                   (y0 < y ∨ (y0 = y ∧ x0 < kx) →
                    JS.get d (((y0 * 3 + 1) * w + (x0 * 3 + 1)) * 4 + 3) ≠ Some 0 →
                    sampleKey d w (x0 * 3 + 1) (y0 * 3 + 1) ∈ dom st'.2)) cw
        (λ x, Template.rebuildPixel d w cw 3 y x) st) as Hinner.
      destruct Hinner as [Hm' Hf'].
      + split; [done|]. intros [?|[? ?]]; [auto|lia].
      + intros x st' Hx [Hmono' Hseen'].
        destruct (rebuildPixel_colors d w cw y x st') as [Hs Hnew].
        split; [set_solver|]. intros [?|[-> ?]] Ha.
        * apply Hs. apply Hseen'; [by left|done].
        * destruct (decide (x0 = x)) as [->|].
          -- by apply Hnew.
          -- apply Hs. apply Hseen'; [right; lia|done].
      + split; [done|]. intros ? Ha. apply Hf'; [|done].
        destruct (decide (y0 = y)); [right|left]; lia.
    - split; [done|]. intros Ha. apply Hf; [lia|done]. }
  destruct (JS.forZ chh _ _) as [cd cu'] eqn:Hres. simpl.
  split.
  - destruct (decide (0 < cw ∧ 0 < chh)) as [[? ?]|Hempty].
    + destruct (Hloop 0 0) as [Hm _]; [lia|lia|]. exact Hm.
    + apply (f_equal snd) in Hres. simpl in Hres. rewrite <- Hres.
      apply (forZ_inv (λ st : list Z * gmap string Z, dom cu ⊆ dom st.2)); [done|].
      intros y st _ Hst.
      apply (forZ_inv (λ st : list Z * gmap string Z, dom cu ⊆ dom st.2)); [done|].
      intros x st' _ Hst'. destruct (rebuildPixel_colors d w cw y x st') as [Hs _].
      set_solver.
  - intros x y Hx Hy Ha. destruct (Hloop x y Hx Hy) as [_ Hf]. by apply Hf.
Qed.

Lemma rebuild_fold_colors (c : list (string * ImageData))
    (acc : gmap string CenterInfo * gmap string Z) :
  Forall (λ kb, 0 ≤ width kb.2 ∧ 0 ≤ height kb.2 ∧
                Z.of_nat (length (data kb.2)) = 4 * width kb.2 * height kb.2) c →
  let res :=
    foldl (λ '(cpi, cu) '(key, bmp),
             let '(ci, cu') := Template.rebuildChunk 3 bmp cu in
             (<[key := ci]> cpi, cu'))
          acc c in
  dom acc.2 ⊆ dom res.2 ∧
  (∀ key bmp x y, (key, bmp) ∈ c →
     0 ≤ x < width bmp `div` 3 → 0 ≤ y < height bmp `div` 3 →
     JS.get (data bmp) (((y * 3 + 1) * width bmp + (x * 3 + 1)) * 4 + 3) ≠ Some 0 →
     sampleKey (data bmp) (width bmp) (x * 3 + 1) (y * 3 + 1) ∈ dom res.2).
Proof.
  revert acc. induction c as [|[k b] r IH]; intros acc Hwf; simpl.
  - split; [done|]. intros key bmp x y ?%elem_of_nil. done.
  - apply Forall_cons in Hwf as [(Hw & Hh & Hlen) Hwf]. simpl in *.
    destruct acc as [cpi cu].
    destruct (rebuildChunk_colors b cu Hw Hh Hlen) as [Hm Hf].
    destruct (Template.rebuildChunk 3 b cu) as [ci cu'] eqn:Hci. simpl in *.
    destruct (IH (<[k := ci]> cpi, cu') Hwf) as [IH1 IH2]. simpl in *.
    split; [set_solver|].
    intros key bmp x y [[= -> ->]|Hin]%elem_of_cons Hx Hy Ha.
    + apply IH1. by apply Hf.
    + by apply (IH2 key bmp).
Qed.

(** ** The active colours after chunking and after rebuilding the index *)

Lemma tileLoop_mono fuel bitmap T c0 c1 c2 c3 pixelY st st' :
  Template.tileLoop fuel bitmap T c0 c1 c2 c3 pixelY st = Some st' →
  dom (Template.chColorsUsed st) ⊆ dom (Template.chColorsUsed st').
Proof.
  intros Hrun.
  apply (tileLoop_inv
           (λ s, dom (Template.chColorsUsed st) ⊆ dom (Template.chColorsUsed s))
           bitmap c0 c1 c2 c3) in Hrun; [done| |done].
  intros pixelX pixelY' dx dy s _ _ Hs.
  pose proof (chunkSegment_mono bitmap c0 c1 c2 c3 pixelX pixelY' dx dy s). set_solver.
Qed.

(** Claim C10, as amended. [createTemplateTiles], on a template whose
    [activeColors] is a set of keys of [colorsUsed] (a new template has the
    empty set), leaves [activeColors] equal to the key set of [colorsUsed],
    and this set is not empty when the source image has a pixel that is not
    transparent. [buildCenterPixelIndex], on a template whose [chunked] is
    not null, returns and leaves [activeColors] equal to the key set of
    [colorsUsed], and for the multiplier 3 this set is not empty when a chunk
    bitmap has a centre sample that is not transparent. In both cases
    [activeColors] is not null. *)
Theorem activeColors_are_colorsUsed (fuel : nat) (dm : Z) (t t1 u : Template)
    (tiles : list (string * ImageData)) (segs : list Segment)
    (c : list (string * ImageData)) (ac0 : gset string) :
  activeColors t = Some ac0 → ac0 ⊆ dom (colorsUsed t) →
  Template.createTemplateTiles fuel t = Some (t1, tiles, segs) →
  chunked u = Some c → dm ≠ 0 →
  (activeColors t1 = Some (dom (colorsUsed t1)) ∧
   ∀ bitmap x y,
     file t = Some bitmap →
     Z.of_nat (length (data bitmap)) = 4 * width bitmap * height bitmap →
     0 ≤ x < width bitmap → 0 ≤ y < height bitmap →
     JS.get (data bitmap) ((y * width bitmap + x) * 4 + 3) ≠ Some 0 →
     activeColors t1 ≠ Some ∅) ∧
  ∃ u1, Template.buildCenterPixelIndex dm u = Some u1 ∧
        activeColors u1 = Some (dom (colorsUsed u1)) ∧
        (dm = 3 →
         Forall (λ kb, 0 ≤ width kb.2 ∧ 0 ≤ height kb.2 ∧
                       Z.of_nat (length (data kb.2)) = 4 * width kb.2 * height kb.2) c →
         ∀ key bmp x y, (key, bmp) ∈ c →
           0 ≤ x < width bmp `div` 3 → 0 ≤ y < height bmp `div` 3 →
           JS.get (data bmp) (((y * 3 + 1) * width bmp + (x * 3 + 1)) * 4 + 3) ≠ Some 0 →
           activeColors u1 ≠ Some ∅).
Proof.
  intros Hac Hsub Hrun Hchunked Hdm. split.
  - unfold Template.createTemplateTiles in Hrun.
    destruct (file t) as [bitmap|]; simpl in Hrun; [|done].
    destruct (coords t) as [[[[c0 c1] c2] c3]|]; simpl in Hrun; [|done].
    destruct (decide (tileSize t = 0)); [done|].
    destruct (Template.tileLoop _ _ _ _ _ _ _ _ _) as [st|] eqn:Hloop; simpl in Hrun; [|done].
    rewrite Hac in Hrun. simpl in Hrun. injection Hrun as <- _ _. simpl.
    pose proof (tileLoop_mono _ _ _ _ _ _ _ _ _ _ Hloop) as Hmono. simpl in Hmono.
    split; [f_equal; set_solver|].
    intros bitmap' x y [= <-] Hlen Hx Hy Ha.
    destruct (tileLoop_colors bitmap c0 c1 c2 c3 x y Hlen Hx Hy Ha _ _ _ _ _ Hloop)
      as [_ Hfound].
    intros [= He]. assert (Hin := Hfound ltac:(lia)). set_solver.
  - unfold Template.buildCenterPixelIndex. rewrite Hchunked.
    rewrite decide_False by done. destruct (foldl _ _ _) as [cpi cu] eqn:Hfold.
    eexists. split; [done|]. simpl. split; [done|].
    intros -> Hwf key bmp x y Hin Hx Hy Ha.
    destruct (rebuild_fold_colors c (∅, ∅) Hwf) as [_ Hfound].
    rewrite Hfold in Hfound. simpl in Hfound.
    intros [= He]. assert (Hk := Hfound key bmp x y Hin Hx Hy Ha).
    rewrite He in Hk. by apply not_elem_of_empty in Hk.
Qed.

(** The worked example: chunking it, then rebuilding the index of its chunk.
    Both leave a set of colours that is not empty. *)
Lemma activeColors_are_colorsUsed_witness :
  match Examples.chunk Examples.image22 (0, 0, 0, 0) 1000 with
  | Some (t1, tiles, segs) =>
      activeColors t1 = Some (dom (colorsUsed t1)) ∧ activeColors t1 ≠ Some ∅ ∧
      ∃ u1, Template.buildCenterPixelIndex 3 (Template.withChunked t1 (Some tiles)) = Some u1 ∧
            activeColors u1 = Some (dom (colorsUsed u1))
  | None => False
  end.
Proof.
  destruct (Examples.chunk Examples.image22 (0, 0, 0, 0) 1000) as [[[t1 tiles] segs]|] eqn:Hrun.
  - destruct (activeColors_are_colorsUsed 5 3
                (Template.new 0 (Some Examples.image22) (Some (0, 0, 0, 0)) None 1000)
                t1 (Template.withChunked t1 (Some tiles)) tiles segs tiles ∅)
      as [[Hac Hne] (u1 & Hu1 & Hac1 & _)];
      [reflexivity | set_solver | exact Hrun | reflexivity | lia |].
    split; [exact Hac|]. split.
    + apply (Hne Examples.image22 0 0); [reflexivity|reflexivity|simpl; lia|simpl; lia|].
      vm_compute. discriminate.
    + exists u1. split; [exact Hu1|exact Hac1].
  - vm_compute in Hrun. discriminate.
Defined.

(** Claim C10 as stated fails in two ways. When [chunked] is null: after
    chunking two red pixels, [buildCenterPixelIndex] on the template, whose
    [chunked] was not assigned, empties [colorsUsed] and returns with
    [activeColors] still holding "255,0,0". And when [activeColors] holds a
    key that [colorsUsed] does not: [createTemplateTiles] only adds keys, so
    on a template for the two red pixels whose [activeColors] holds
    "0,0,255" it returns with "0,0,255" and "255,0,0" enabled while
    [colorsUsed] has the key "255,0,0" only. *)
Lemma activeColors_stale_keys :
  match Examples.chunk Examples.image21 (0, 0, 0, 0) 1000 with
  | Some (t1, _, _) =>
      chunked t1 = None ∧
      match Template.buildCenterPixelIndex 3 t1 with
      | Some u1 =>
          activeColors u1 ≠ Some (dom (colorsUsed u1)) ∧
          elements <$> activeColors u1 = Some ["255,0,0"] ∧
          elements (dom (colorsUsed u1)) = []
      | None => False
      end
  | None => False
  end ∧
  match Template.createTemplateTiles 5
          (mkTemplate 0 (Some Examples.image21) (Some (0, 0, 0, 0)) None 1000 0 ∅ ∅ ∅
             (Some Examples.blue) ∅ ∅) with
  | Some (t1, _, _) =>
      activeColors t1 ≠ Some (dom (colorsUsed t1)) ∧
      elements <$> activeColors t1 = Some ["255,0,0"; "0,0,255"] ∧
      elements (dom (colorsUsed t1)) = ["255,0,0"]
  | None => False
  end.
Proof.
  split.
  - destruct (Examples.chunk Examples.image21 (0, 0, 0, 0) 1000)
      as [[[t1 tiles] segs]|] eqn:Hrun; [|vm_compute in Hrun; discriminate].
    assert (chunked t1 = None ∧ elements <$> activeColors t1 = Some ["255,0,0"]) as [Hch Hac].
    { assert ((λ r, (chunked r.1.1, elements <$> activeColors r.1.1))
                <$> Examples.chunk Examples.image21 (0, 0, 0, 0) 1000
              = Some (None, Some ["255,0,0"])) as Hval by (vm_compute; reflexivity).
      rewrite Hrun in Hval. simpl in Hval. by injection Hval as -> ->. }
    split; [done|].
    destruct (Template.buildCenterPixelIndex 3 t1) as [u1|] eqn:Hb;
      unfold Template.buildCenterPixelIndex in Hb; rewrite Hch in Hb; simpl in Hb; [|done].
    injection Hb as <-. simpl.
    rewrite dom_empty_L, elements_empty. split; [|done].
    intros Heq. rewrite Heq in Hac. simpl in Hac. rewrite elements_empty in Hac. done.
  - destruct (Template.createTemplateTiles 5 _) as [[[t1 tiles] segs]|] eqn:Hrun;
      [|vm_compute in Hrun; discriminate].
    assert (elements <$> activeColors t1 = Some ["255,0,0"; "0,0,255"] ∧
            elements (dom (colorsUsed t1)) = ["255,0,0"]) as [Hac Hcu].
    { assert ((λ r, (elements <$> activeColors r.1.1, elements (dom (colorsUsed r.1.1))))
                <$> Template.createTemplateTiles 5
                      (mkTemplate 0 (Some Examples.image21) (Some (0, 0, 0, 0)) None 1000 0
                         ∅ ∅ ∅ (Some Examples.blue) ∅ ∅)
              = Some (Some ["255,0,0"; "0,0,255"], ["255,0,0"])) as Hval
        by (vm_compute; reflexivity).
      rewrite Hrun in Hval. simpl in Hval. by injection Hval as -> ->. }
    split; [|done].
    intros Heq. rewrite Heq in Hac. simpl in Hac. rewrite Hcu in Hac. done.
Qed.

(** ** The masked copy of a chunk bitmap *)

Lemma alphaCleared_refl bw d0 : alphaCleared bw (λ _ _, False) d0 d0.
Proof. split; [done|]. intros X Y c _ _ _. split; [by intros [_ []]|done]. Qed.

Lemma alphaCleared_ext bw (P Q : Z → Z → Prop) d0 d :
  (∀ X Y, 0 ≤ X < bw → 0 ≤ Y → P X Y ↔ Q X Y) →
  alphaCleared bw P d0 d → alphaCleared bw Q d0 d.
Proof.
  intros Hiff [Hlen Hget]. split; [done|]. intros X Y c HX HY Hc.
  destruct (Hget X Y c HX HY Hc) as [H1 H2]. specialize (Hiff X Y HX HY).
  split; intros ?; [apply H1|apply H2]; cbn beta in *; naive_solver.
Qed.

Lemma alphaCleared_set bw bh (P : Z → Z → Prop) d0 d xx yy :
  0 ≤ xx < bw → 0 ≤ yy < bh → Z.of_nat (length d0) = 4 * bw * bh →
  alphaCleared bw P d0 d →
  alphaCleared bw (λ X Y, P X Y ∨ (X = xx ∧ Y = yy)) d0
    (JS.set d ((yy * bw + xx) * 4 + 3) 0).
Proof.
  intros Hxx Hyy Hlen0 [Hlen Hget]. split; [by rewrite length_set|].
  intros X Y c HX HY Hc. destruct (Hget X Y c HX HY Hc) as [H1 H2].
  destruct (decide (X = xx ∧ Y = yy ∧ c = 3)) as [(-> & -> & ->)|Hne].
  - split; [|intros Hn; exfalso; apply Hn; auto].
    intros _. apply get_set_eq. rewrite Hlen. nia.
  - rewrite get_set_ne.
    + split; intros ?; [apply H1|apply H2]; cbn beta in *; naive_solver.
    + intros Heq. apply pixel_index_inj in Heq; [|lia..]. apply Hne. naive_solver.
Qed.

Lemma blankBlock_cleared bw bh (P : Z → Z → Prop) d0 d y x :
  Z.of_nat (length d0) = 4 * bw * bh →
  alphaCleared bw P d0 d →
  alphaCleared bw
    (λ X Y, P X Y ∨ (x - 1 ≤ X ≤ x + 1 ∧ y - 1 ≤ Y ≤ y + 1 ∧ Y < bh)) d0
    (TemplateManager.blankBlock bw bh y x d).
Proof.
  intros Hlen0 Hd. unfold TemplateManager.blankBlock.
  set (A := λ (i X Y : Z), x - 1 ≤ X ≤ x + 1 ∧ y - 1 ≤ Y < y - 1 + i ∧ Y < bh).
  set (B := λ (i j X Y : Z), Y = y - 1 + i ∧ x - 1 ≤ X < x - 1 + j ∧ Y < bh).
  apply (alphaCleared_ext bw (λ X Y, P X Y ∨ A (Z.max 0 3) X Y)).
  { intros X Y HX HY. unfold A. simpl. naive_solver lia. }
  apply (forZ_ind (λ i d', alphaCleared bw (λ X Y, P X Y ∨ A i X Y) d0 d')).
  { apply (alphaCleared_ext bw P); [|done].
    intros X Y HX HY. unfold A. naive_solver lia. }
  intros i d1 Hi Hd1. cbv zeta.
  apply (alphaCleared_ext bw (λ X Y, P X Y ∨ A i X Y ∨ B i (Z.max 0 3) X Y)).
  { intros X Y HX HY. unfold A, B. simpl. naive_solver lia. }
  apply (forZ_ind (λ j d', alphaCleared bw (λ X Y, P X Y ∨ A i X Y ∨ B i j X Y) d0 d')).
  { apply (alphaCleared_ext bw (λ X Y, P X Y ∨ A i X Y)); [|done].
    intros X Y HX HY. unfold A, B. naive_solver lia. }
  intros j d2 Hj Hd2. destruct (decide _) as [Hout|Hin].
  - apply (alphaCleared_ext bw (λ X Y, P X Y ∨ A i X Y ∨ B i j X Y)); [|done].
    intros X Y HX HY. unfold A, B. naive_solver lia.
  - apply (alphaCleared_ext bw
             (λ X Y, (P X Y ∨ A i X Y ∨ B i j X Y) ∨ (X = x + (j - 1) ∧ Y = y + (i - 1)))).
    { intros X Y HX HY. unfold A, B. naive_solver lia. }
    apply (alphaCleared_set bw bh); [lia|lia|done|done].
Qed.

Section mask.
Context (ac : gset string) (bmp : ImageData).
Hypothesis Hw : 0 ≤ width bmp.
Hypothesis Hh : 0 ≤ height bmp.
Hypothesis Hlen : Z.of_nat (length (data bmp)) = 4 * width bmp * height bmp.

Abbreviation bw := (width bmp).
Abbreviation bh := (height bmp).
Abbreviation d0 := (data bmp).

Abbreviation doneUpTo := (blankedUpTo ac bmp).

Lemma maskPixel_cleared (P : Z → Z → Prop) d kx ky :
  0 ≤ kx → 0 ≤ ky → 1 + kx * 3 < bw → 1 + ky * 3 < bh →
  (∀ X Y, P X Y → ¬ (X `div` 3 = kx ∧ Y `div` 3 = ky)) →
  alphaCleared bw P d0 d →
  alphaCleared bw
    (λ X Y, P X Y ∨ (X `div` 3 = kx ∧ Y `div` 3 = ky ∧ Y < bh ∧ blockBlanked ac bmp X Y))
    d0 (TemplateManager.maskPixel ac bw bh (1 + ky * 3) (1 + kx * 3) d).
Proof.
  intros Hkx Hky Hx Hy Hfresh Hd.
  assert (Hdx : (1 + kx * 3) `div` 3 = kx).
  { rewrite Z.add_comm. apply center_div_mod. }
  assert (Hdy : (1 + ky * 3) `div` 3 = ky).
  { rewrite Z.add_comm. apply center_div_mod. }
  assert (Hread : ∀ c, 0 ≤ c < 4 →
            JS.get d (((1 + ky * 3) * bw + (1 + kx * 3)) * 4 + c) =
            JS.get d0 (((1 + ky * 3) * bw + (1 + kx * 3)) * 4 + c)).
  { intros c Hc. destruct Hd as [_ Hget].
    destruct (Hget (1 + kx * 3) (1 + ky * 3) c) as [_ H2]; [lia..|].
    apply H2. intros [_ HP]. by apply (Hfresh _ _ HP). }
  assert (Hcenter : ∀ X Y, X `div` 3 = kx → Y `div` 3 = ky →
            X `div` 3 * 3 + 1 = 1 + kx * 3 ∧ Y `div` 3 * 3 + 1 = 1 + ky * 3) by lia.
  unfold TemplateManager.maskPixel. cbv zeta. rewrite !Hread by lia.
  destruct (JS.is0 _) eqn:Ea.
  - apply is0_true in Ea. eapply alphaCleared_ext; [|exact Hd].
    intros X Y HX HY. split; [tauto|]. intros [?|(HbX & HbY & _ & Hb)]; [done|].
    exfalso. unfold blockBlanked in Hb. cbv zeta in Hb.
    destruct (Hcenter X Y HbX HbY) as [HcX HcY]. rewrite HcX, HcY in Hb.
    destruct Hb as (_ & _ & Hb & _). done.
  - apply is0_false in Ea.
    destruct (bool_decide (_ ∉ ac)) eqn:Hkey;
      [apply bool_decide_eq_true in Hkey|apply bool_decide_eq_false in Hkey].
    + eapply alphaCleared_ext; [|apply blankBlock_cleared; [done|exact Hd]].
      intros X Y HX HY. simpl.
      pose proof (Z.div_mod X 3). pose proof (Z.mod_pos_bound X 3).
      pose proof (Z.div_mod Y 3). pose proof (Z.mod_pos_bound Y 3).
      split.
      * intros [?|(? & ? & ?)]; [by left|]. right.
        assert (X `div` 3 = kx) as HbX by lia. assert (Y `div` 3 = ky) as HbY by lia.
        split; [done|]. split; [done|]. split; [done|].
        unfold blockBlanked. cbv zeta. destruct (Hcenter X Y HbX HbY) as [-> ->].
        unfold sampleKey. done.
      * intros [?|(? & ? & ? & _)]; [by left|]. right. lia.
    + eapply alphaCleared_ext; [|exact Hd].
      intros X Y HX HY. split; [tauto|]. intros [?|(HbX & HbY & _ & Hb)]; [done|].
      exfalso. unfold blockBlanked in Hb. cbv zeta in Hb.
      destruct (Hcenter X Y HbX HbY) as [HcX HcY]. rewrite HcX, HcY in Hb.
      destruct Hb as (_ & _ & _ & Hb). apply Hkey. exact Hb.
Qed.

Lemma maskRow_cleared d ky :
  0 ≤ ky → 1 + ky * 3 < bh →
  alphaCleared bw (doneUpTo ky 0) d0 d →
  alphaCleared bw (doneUpTo (ky + 1) 0) d0
    (JS.forNat (Z.to_nat ((bw - 1 + 3 - 1) `div` 3))
       (λ k, TemplateManager.maskPixel ac bw bh (1 + ky * 3) (1 + k * 3)) d).
Proof.
  intros Hky Hy Hd.
  set (nx := (bw - 1 + 3 - 1) `div` 3).
  assert (Hnx : 0 ≤ nx ∧ 3 * nx ≤ bw + 1 ∧ bw - 1 ≤ 3 * nx).
  { subst nx. pose proof (Z.div_mod (bw - 1 + 3 - 1) 3).
    pose proof (Z.mod_pos_bound (bw - 1 + 3 - 1) 3). lia. }
  apply (alphaCleared_ext bw (doneUpTo ky (Z.of_nat (Z.to_nat nx)))).
  { intros X Y HX HY. rewrite Z2Nat.id by lia. unfold blankedUpTo.
    pose proof (Z.div_mod X 3). pose proof (Z.mod_pos_bound X 3).
    split; intros [Hproc [HYb Hb]]; (split; [|done]); [lia|].
    unfold blockBlanked in Hb. cbv zeta in Hb. destruct Hb as (Hcx & _). lia. }
  apply (forNat_ind (λ k d', alphaCleared bw (doneUpTo ky (Z.of_nat k)) d0 d')).
  { exact Hd. }
  intros k d' Hk Hd'.
  apply (alphaCleared_ext bw
           (λ X Y, doneUpTo ky (Z.of_nat k) X Y ∨
                   (X `div` 3 = Z.of_nat k ∧ Y `div` 3 = ky ∧ Y < bh ∧
                    blockBlanked ac bmp X Y))).
  { intros X Y HX HY. unfold blankedUpTo. split.
    - intros [[Hproc Hrest]|(? & ? & ? & ?)]; (split; [lia|done]).
    - intros [Hproc [HYb Hb]].
      destruct (decide (X `div` 3 = Z.of_nat k ∧ Y `div` 3 = ky)) as [[? ?]|].
      + right. done.
      + left. split; [lia|done]. }
  apply maskPixel_cleared; [lia|lia|lia|lia| |exact Hd'].
  intros X Y [Hproc _]. lia.
Qed.

Lemma maskLoops_cleared :
  alphaCleared bw (λ X Y, Y < bh ∧ blockBlanked ac bmp X Y) d0
    (JS.forNat (Z.to_nat ((bh - 1 + 3 - 1) `div` 3))
       (λ ky, JS.forNat (Z.to_nat ((bw - 1 + 3 - 1) `div` 3))
                (λ kx, TemplateManager.maskPixel ac bw bh (1 + ky * 3) (1 + kx * 3))) d0).
Proof.
  set (ny := (bh - 1 + 3 - 1) `div` 3).
  assert (Hny : 0 ≤ ny ∧ 3 * ny ≤ bh + 1 ∧ bh - 1 ≤ 3 * ny).
  { subst ny. pose proof (Z.div_mod (bh - 1 + 3 - 1) 3).
    pose proof (Z.mod_pos_bound (bh - 1 + 3 - 1) 3). lia. }
  apply (alphaCleared_ext bw (doneUpTo (Z.of_nat (Z.to_nat ny)) 0)).
  { intros X Y HX HY. rewrite Z2Nat.id by lia. unfold blankedUpTo.
    pose proof (Z.div_mod Y 3). pose proof (Z.mod_pos_bound Y 3).
    split; [by intros [_ ?]|]. intros [HYb Hb]. split; [|done].
    unfold blockBlanked in Hb. cbv zeta in Hb. destruct Hb as (_ & Hcy & _). lia. }
  apply (forNat_ind (λ k d', alphaCleared bw (doneUpTo (Z.of_nat k) 0) d0 d')).
  { apply (alphaCleared_ext bw (λ _ _, False)); [|apply alphaCleared_refl].
    intros X Y HX HY. unfold blankedUpTo.
    pose proof (Z.div_mod Y 3). pose proof (Z.mod_pos_bound Y 3).
    pose proof (Z.div_mod X 3). pose proof (Z.mod_pos_bound X 3).
    split; [done|]. intros [Hproc _]. lia. }
  intros k d' Hk Hd'.
  replace (Z.of_nat (S k)) with (Z.of_nat k + 1) by lia.
  apply maskRow_cleared; [lia|lia|exact Hd'].
Qed.

(** With the multiplier 3 and fuel for the size of the bitmap, the masked
    copy exists, has the size of the bitmap, and is the bitmap with alpha 0
    in exactly the blanked blocks. *)
Lemma maskChunk_cleared fuel :
  (Z.to_nat bw ≤ fuel)%nat → (Z.to_nat bh ≤ fuel)%nat →
  ∃ masked, TemplateManager.maskChunk fuel 3 ac bmp = Some masked ∧
    width masked = bw ∧ height masked = bh ∧
    alphaCleared bw (λ X Y, Y < bh ∧ blockBlanked ac bmp X Y) d0 (data masked).
Proof.
  intros Hfw Hfh. unfold TemplateManager.maskChunk. cbv zeta.
  rewrite drawImageCopy_data by done.
  assert (Hn : ∀ n, 0 ≤ n → (Z.to_nat ((n - 1 + 3 - 1) `div` 3) ≤ Z.to_nat n)%nat).
  { intros n Hn. pose proof (Z.div_mod (n - 1 + 3 - 1) 3).
    pose proof (Z.mod_pos_bound (n - 1 + 3 - 1) 3). lia. }
  pose proof (Hn bw Hw). pose proof (Hn bh Hh).
  rewrite (forStep_forNat fuel 1 bh 3 _
             (λ y, JS.forNat (Z.to_nat ((bw - 1 + 3 - 1) `div` 3))
                     (λ k, TemplateManager.maskPixel ac bw bh y (1 + k * 3))));
    [|lia| |lia].
  - simpl. eexists. split; [done|]. simpl. split; [done|]. split; [done|].
    apply maskLoops_cleared.
  - intros y d. apply forStep_forNat; [lia|done|lia].
Qed.
End mask.

(** ** What [drawTemplateOnTile] leaves untouched *)

Lemma optimizedChunks_frame T bp tx ty keys t t' :
  TemplateManager.optimizedChunks T bp tx ty keys t = Some t' →
  chunked t' = chunked t ∧ activeColors t' = activeColors t ∧ tileIndex t' = tileIndex t.
Proof.
  destruct (optimizedChunks_effect T bp tx ty keys (centerPixelIndex t)) as (r & Hr).
  rewrite (Hr t eq_refl). destruct r as [[[T1 p1] w1]|]; simpl; [|done].
  by intros [= <-].
Qed.

Lemma legacyChunks_frame T dm dsl base tx ty keys t t' :
  TemplateManager.legacyChunks T dm dsl base tx ty keys t = Some t' →
  chunked t' = chunked t ∧ activeColors t' = activeColors t ∧ tileIndex t' = tileIndex t.
Proof.
  destruct (legacyChunks_effect T dm dsl base tx ty keys (chunked t)) as (r & Hr).
  rewrite (Hr t eq_refl). destruct r as [[[T1 p1] w1]|]; simpl; [|done].
  by intros [= <-].
Qed.

Lemma forTemplates_chunked (f : Template → option Template) (ts ts' : list Template) :
  (∀ t t', f t = Some t' → chunked t' = chunked t) →
  TemplateManager.forTemplates f ts = Some ts' →
  chunked <$> ts' = chunked <$> ts.
Proof.
  intros Hf. revert ts'. induction ts as [|t r IH]; intros ts'; simpl.
  - by intros [= <-].
  - destruct (f t) as [t1|] eqn:Ht; simpl; [|done].
    destruct (TemplateManager.forTemplates f r) as [r1|] eqn:Hr; simpl; [|done].
    intros [= <-]. rewrite !fmap_cons. by rewrite (Hf _ _ Ht), (IH _ eq_refl).
Qed.

Lemma countPixels_chunked m base tc ts ts' :
  TemplateManager.countPixels m base tc ts = Some ts' →
  chunked <$> ts' = chunked <$> ts.
Proof.
  unfold TemplateManager.countPixels. cbv zeta.
  destruct (useLegacyCount m); (destruct (decide _); [done|]).
  - destruct (JS.splitComma tc !! 0%nat ≫= JS.parseInt10) as [tx|]; simpl; [|done].
    destruct (JS.splitComma tc !! 1%nat ≫= JS.parseInt10) as [ty|]; simpl; [|done].
    apply forTemplates_chunked. intros t t' Ht. by apply legacyChunks_frame in Ht as [? _].
  - destruct (JS.splitComma tc !! 0%nat ≫= JS.parseInt10) as [tx|]; simpl; [|done].
    destruct (JS.splitComma tc !! 1%nat ≫= JS.parseInt10) as [ty|]; simpl; [|done].
    apply forTemplates_chunked. intros t t' Ht. by apply optimizedChunks_frame in Ht as [? _].
Qed.

Lemma insertBySortID_perm t l : TemplateManager.insertBySortID t l ≡ₚ t :: l.
Proof.
  induction l as [|u r IH]; simpl; [done|].
  destruct (decide _); [done|]. rewrite IH. apply Permutation_swap.
Qed.

Lemma sortBySortID_perm l : TemplateManager.sortBySortID l ≡ₚ l.
Proof.
  induction l as [|t r IH]; simpl; [done|].
  rewrite insertBySortID_perm. by rewrite IH.
Qed.

Lemma drawTemplateOnTile_chunked fuel tile coords m m' out :
  TemplateManager.drawTemplateOnTile fuel tile coords m = Some (m', out) →
  chunked <$> templatesArray m' ≡ₚ chunked <$> templatesArray m.
Proof.
  unfold TemplateManager.drawTemplateOnTile.
  destruct (templatesShouldBeDrawn m); simpl; [|by intros [= <- _]].
  destruct (decide (Forall _ _)); [|done].
  destruct (decide (_ = 0%nat)).
  - intros [= <- _]. simpl. by rewrite sortBySortID_perm.
  - destruct (TemplateManager.countPixels _ _ _ _) as [ts|] eqn:Hcount; simpl; [|done].
    destruct (TemplateManager.compositeTemplates _ _ _ _) as [ops|]; simpl; [|done].
    intros [= <- _]. simpl. rewrite (countPixels_chunked _ _ _ _ _ Hcount).
    by rewrite sortBySortID_perm.
Qed.

(** ** The compositor *)

(** Claim C9. For a chunk of a template (key fields readable, bitmap with
    its full byte buffer, fuel for the size of the bitmap, multiplier 3 as in
    the manager): with a null allow-list the bitmap itself is drawn at the
    chunk's offset; with an empty allow-list nothing is drawn; with any other
    allow-list a copy of the size of the bitmap is drawn in which the alpha
    byte is 0 at every pixel of a block whose centre sample is inside the
    bitmap, not transparent, and of a colour outside the allow-list, and in
    which every other byte is the byte of the bitmap; in particular the whole
    3 x 3 block around such a centre, clipped to the bitmap, is transparent.
    Whatever [drawTemplateOnTile] returns, the templates of the manager hold
    the chunk bitmaps they held before. *)
Theorem compositor_tri_state (fuel : nat) (tpl : Template) (tileKey : string)
    (c : list (string * ImageData)) (bmp : ImageData) (px py : Z) :
  chunked tpl = Some c → objGet tileKey c = Some bmp →
  JS.NumberDec (JS.splitComma tileKey !! 2%nat) = Some px →
  JS.NumberDec (JS.splitComma tileKey !! 3%nat) = Some py →
  0 ≤ width bmp → 0 ≤ height bmp →
  Z.of_nat (length (data bmp)) = 4 * width bmp * height bmp →
  (Z.to_nat (width bmp) ≤ fuel)%nat → (Z.to_nat (height bmp) ≤ fuel)%nat →
  (activeColors tpl = None →
   TemplateManager.compositeChunk fuel 3 tpl tileKey = Some [DrawAt bmp (px * 3) (py * 3)]) ∧
  (activeColors tpl = Some ∅ →
   TemplateManager.compositeChunk fuel 3 tpl tileKey = Some []) ∧
  (∀ ac, activeColors tpl = Some ac → ac ≠ ∅ →
   ∃ masked,
     TemplateManager.compositeChunk fuel 3 tpl tileKey
       = Some [DrawAt masked (px * 3) (py * 3)] ∧
     width masked = width bmp ∧ height masked = height bmp ∧
     length (data masked) = length (data bmp) ∧
     (∀ X Y ch, 0 ≤ X < width bmp → 0 ≤ Y < height bmp → 0 ≤ ch < 4 →
        (ch = 3 ∧ blockBlanked ac bmp X Y →
         JS.get (data masked) ((Y * width bmp + X) * 4 + ch) = Some 0) ∧
        (¬ (ch = 3 ∧ blockBlanked ac bmp X Y) →
         JS.get (data masked) ((Y * width bmp + X) * 4 + ch) =
         JS.get (data bmp) ((Y * width bmp + X) * 4 + ch))) ∧
     (∀ i j dx dy,
        0 ≤ i → 0 ≤ j → i * 3 + 1 < width bmp → j * 3 + 1 < height bmp →
        JS.get (data bmp) (((j * 3 + 1) * width bmp + (i * 3 + 1)) * 4 + 3) ≠ Some 0 →
        sampleKey (data bmp) (width bmp) (i * 3 + 1) (j * 3 + 1) ∉ ac →
        -1 ≤ dx ≤ 1 → -1 ≤ dy ≤ 1 →
        0 ≤ i * 3 + 1 + dx < width bmp → 0 ≤ j * 3 + 1 + dy < height bmp →
        JS.get (data masked)
          (((j * 3 + 1 + dy) * width bmp + (i * 3 + 1 + dx)) * 4 + 3) = Some 0)) ∧
  (∀ tile coords m m' out,
     TemplateManager.drawTemplateOnTile fuel tile coords m = Some (m', out) →
     chunked <$> templatesArray m' ≡ₚ chunked <$> templatesArray m).
Proof.
  intros Hc Hbmp Hpx Hpy Hw Hh Hlen Hfw Hfh.
  unfold TemplateManager.compositeChunk. rewrite Hc. simpl. rewrite Hbmp, Hpx, Hpy. simpl.
  split; [by intros ->|]. split.
  { intros ->. by rewrite decide_True by apply size_empty. }
  split; [|intros; by eapply drawTemplateOnTile_chunked].
  intros ac -> Hne. rewrite decide_False by (by intros ?%size_empty_inv%leibniz_equiv).
  destruct (maskChunk_cleared ac bmp Hw Hh Hlen fuel Hfw Hfh)
    as (masked & -> & Hmw & Hmh & Hlen' & Hget).
  simpl. exists masked. split; [done|]. split; [done|]. split; [done|]. split; [done|].
  assert (Hall : ∀ X Y ch, 0 ≤ X < width bmp → 0 ≤ Y < height bmp → 0 ≤ ch < 4 →
            (ch = 3 ∧ blockBlanked ac bmp X Y →
             JS.get (data masked) ((Y * width bmp + X) * 4 + ch) = Some 0) ∧
            (¬ (ch = 3 ∧ blockBlanked ac bmp X Y) →
             JS.get (data masked) ((Y * width bmp + X) * 4 + ch) =
             JS.get (data bmp) ((Y * width bmp + X) * 4 + ch))).
  { intros X Y ch HX HY Hch. destruct (Hget X Y ch) as [H1 H2]; [lia..|].
    split; intros ?; [apply H1|apply H2]; naive_solver. }
  split; [exact Hall|].
  intros i j dx dy Hi Hj Hcx Hcy Ha Hkey Hdx Hdy HX HY.
  destruct (Hall (i * 3 + 1 + dx) (j * 3 + 1 + dy) 3) as [H1 _]; [lia..|].
  apply H1. split; [done|]. unfold blockBlanked. cbv zeta.
  assert ((i * 3 + 1 + dx) `div` 3 = i) as ->.
  { symmetry. apply Z.div_unique with (1 + dx); lia. }
  assert ((j * 3 + 1 + dy) `div` 3 = j) as ->.
  { symmetry. apply Z.div_unique with (1 + dy); lia. }
  done.
Qed.

Lemma singleton_not_empty (k : string) : ({[k]} : gset string) ≠ ∅.
Proof. set_solver. Qed.

(** A red block under an allow-list of blue: the copy drawn has a
    transparent centre. *)
Lemma compositor_tri_state_witness :
  ∃ masked,
    TemplateManager.compositeChunk 3 3 Examples.blueOnly "0000,0000,000,000"
      = Some [DrawAt masked (0 * 3) (0 * 3)] ∧
    JS.get (data masked) (((0 * 3 + 1 + 0) * 3 + (0 * 3 + 1 + 0)) * 4 + 3) = Some 0.
Proof.
  destruct (compositor_tri_state 3 Examples.blueOnly "0000,0000,000,000"
              [("0000,0000,000,000"%string, Examples.redBlock)] Examples.redBlock 0 0)
    as (_ & _ & Hmask & _).
  1-4: reflexivity.
  1-2: (simpl; lia).
  1: reflexivity.
  1-2: (simpl; lia).
  destruct (Hmask Examples.blue) as (masked & Hdraw & _ & _ & _ & _ & Hblock).
  reflexivity.
  apply singleton_not_empty.
  exists masked. split; [exact Hdraw|].
  apply (Hblock 0 0 0 0); clear; try lia.
  - simpl; lia.
  - simpl; lia.
  - clear. intros Hx. vm_compute in Hx. inversion Hx.
  - change (sampleKey (data Examples.redBlock) (width Examples.redBlock) (0 * 3 + 1) (0 * 3 + 1))
      with "255,0,0"%string.
    clear. unfold Examples.blue. rewrite elem_of_singleton. intros Hx. inversion Hx.
  - simpl; lia.
  - simpl; lia.
Defined.

(** ** The format of the chunk keys for tiles of 1000 pixels *)

Lemma string_app_cons (x : ascii) (a b : string) : String x a +:+ b = String x (a +:+ b).
Proof. reflexivity. Qed.

Lemma string_app_nil_l (b : string) : "" +:+ b = b.
Proof. reflexivity. Qed.

Lemma string_app_nil_r (a : string) : a +:+ "" = a.
Proof. induction a as [|x a IH]; [done|]. by rewrite string_app_cons, IH. Qed.

Lemma rev_app_rev_app (a b c : string) :
  String.rev_app (String.rev_app a b) c = String.rev_app b (a +:+ c).
Proof.
  revert b c. induction a as [|x a IH]; intros b c; [done|].
  rewrite string_app_cons. cbn [String.rev_app]. by rewrite IH.
Qed.

Lemma rev_rev_app (a : string) : String.rev (String.rev_app a "") = a.
Proof. unfold String.rev. rewrite rev_app_rev_app. exact (string_app_nil_r a). Qed.

Lemma splitComma_go_field (a cur r : string) :
  noComma a = true →
  JS.splitComma_go cur (a +:+ String ","%char r) =
  String.rev (String.rev_app a cur) :: JS.splitComma_go "" r.
Proof.
  revert cur. induction a as [|x a IH]; intros cur Hno.
  - rewrite string_app_nil_l. simpl. done.
  - rewrite string_app_cons. cbn [JS.splitComma_go String.rev_app].
    cbn [noComma] in Hno. apply andb_true_iff in Hno as [Hx Hno].
    apply negb_true_iff in Hx. rewrite Hx. by rewrite IH.
Qed.

Lemma splitComma_go_last (a cur : string) :
  noComma a = true →
  JS.splitComma_go cur a = [String.rev (String.rev_app a cur)].
Proof.
  revert cur. induction a as [|x a IH]; intros cur Hno.
  - done.
  - cbn [JS.splitComma_go String.rev_app].
    cbn [noComma] in Hno. apply andb_true_iff in Hno as [Hx Hno].
    apply negb_true_iff in Hx. rewrite Hx. by rewrite IH.
Qed.

Lemma splitComma_four (a b c d : string) :
  noComma a = true → noComma b = true → noComma c = true → noComma d = true →
  JS.splitComma (a +:+ "," +:+ b +:+ "," +:+ c +:+ "," +:+ d) = [a; b; c; d].
Proof.
  intros Ha Hb Hc Hd. unfold JS.splitComma.
  change ("," +:+ b +:+ "," +:+ c +:+ "," +:+ d)
    with (String ","%char (b +:+ String ","%char (c +:+ String ","%char d))).
  rewrite !splitComma_go_field by done. rewrite splitComma_go_last by done.
  by rewrite !rev_rev_app.
Qed.

Lemma splitComma_two (a b : string) :
  noComma a = true → noComma b = true → JS.splitComma (a +:+ "," +:+ b) = [a; b].
Proof.
  intros Ha Hb. unfold JS.splitComma.
  change ("," +:+ b) with (String ","%char b).
  rewrite splitComma_go_field by done. rewrite splitComma_go_last by done.
  by rewrite !rev_rev_app.
Qed.

Lemma keyField4 (n : Z) : 0 ≤ n < 10000 → keyFieldOk 4 n = true.
Proof.
  assert (forallb (keyFieldOk 4) (seqZ 0 10000) = true) as Hall by (vm_compute; reflexivity).
  intros Hn. rewrite forallb_forall in Hall. apply Hall.
  apply list_elem_of_In, elem_of_seqZ. lia.
Qed.

Lemma keyField3 (n : Z) : 0 ≤ n < 1000 → keyFieldOk 3 n = true.
Proof.
  assert (forallb (keyFieldOk 3) (seqZ 0 1000) = true) as Hall by (vm_compute; reflexivity).
  intros Hn. rewrite forallb_forall in Hall. apply Hall.
  apply list_elem_of_In, elem_of_seqZ. lia.
Qed.

Lemma keyFieldOk_spec (len : nat) (n : Z) :
  keyFieldOk len n = true →
  noComma (JS.padStart0 len (JS.toString n)) = true ∧
  String.length (JS.padStart0 len (JS.toString n)) = len ∧
  JS.parseInt10 (JS.padStart0 len (JS.toString n)) = Some n ∧
  JS.NumberDec (Some (JS.padStart0 len (JS.toString n))) = Some n.
Proof.
  unfold keyFieldOk. cbv zeta. rewrite !andb_true_iff, !bool_decide_eq_true. tauto.
Qed.

(** For a chunk at a non-negative pixel position whose tile coordinates have
    at most four digits, the key written by the chunking has the four fields
    TTTT, TTTT, PPP, PPP: tile = origin tile + position div 1000, offset =
    position mod 1000 in [0, 1000); the diff and the compositor read the
    offsets back, and the first two fields are the key of the tile index. *)
Lemma templateTileName_format (c0 c1 pixelX pixelY : Z) :
  0 ≤ pixelX → 0 ≤ pixelY →
  0 ≤ c0 + pixelX `div` 1000 < 10000 → 0 ≤ c1 + pixelY `div` 1000 < 10000 →
  let name := Template.templateTileName c0 c1 pixelX pixelY in
  let fields := JS.splitComma name in
  fields = [JS.padStart0 4 (JS.toString (c0 + pixelX `div` 1000));
            JS.padStart0 4 (JS.toString (c1 + pixelY `div` 1000));
            JS.padStart0 3 (JS.toString (pixelX `mod` 1000));
            JS.padStart0 3 (JS.toString (pixelY `mod` 1000))] ∧
  String.length <$> fields = [4; 4; 3; 3]%nat ∧
  fields !! 0%nat ≫= JS.parseInt10 = Some (c0 + pixelX `div` 1000) ∧
  fields !! 1%nat ≫= JS.parseInt10 = Some (c1 + pixelY `div` 1000) ∧
  JS.NumberDec (fields !! 2%nat) = Some (pixelX `mod` 1000) ∧
  JS.NumberDec (fields !! 3%nat) = Some (pixelY `mod` 1000) ∧
  0 ≤ pixelX `mod` 1000 < 1000 ∧ 0 ≤ pixelY `mod` 1000 < 1000 ∧
  Template.tileXYOf name =
    TemplateManager.tileCoordsString (c0 + pixelX `div` 1000, c1 + pixelY `div` 1000).
Proof.
  intros HX HY Ht0 Ht1 name fields.
  pose proof (Z.mod_pos_bound pixelX 1000) as HmX.
  pose proof (Z.mod_pos_bound pixelY 1000) as HmY.
  destruct (keyFieldOk_spec 4 _ (keyField4 _ Ht0)) as (Hn0 & Hl0 & Hp0 & _).
  destruct (keyFieldOk_spec 4 _ (keyField4 _ Ht1)) as (Hn1 & Hl1 & Hp1 & _).
  destruct (keyFieldOk_spec 3 _ (keyField3 (pixelX `mod` 1000) ltac:(lia)))
    as (Hn2 & Hl2 & _ & Hd2).
  destruct (keyFieldOk_spec 3 _ (keyField3 (pixelY `mod` 1000) ltac:(lia)))
    as (Hn3 & Hl3 & _ & Hd3).
  assert (Hfields : fields =
            [JS.padStart0 4 (JS.toString (c0 + pixelX `div` 1000));
             JS.padStart0 4 (JS.toString (c1 + pixelY `div` 1000));
             JS.padStart0 3 (JS.toString (pixelX `mod` 1000));
             JS.padStart0 3 (JS.toString (pixelY `mod` 1000))]).
  { subst fields name. unfold Template.templateTileName.
    rewrite !Z.rem_mod_nonneg by lia. by apply splitComma_four. }
  split; [done|]. rewrite Hfields.
  cbn [fmap list_fmap lookup list_lookup mbind option_bind].
  rewrite Hl0, Hl1, Hl2, Hl3, Hp0, Hp1, Hd2, Hd3.
  repeat split; try done; try lia.
  unfold Template.tileXYOf. fold fields. rewrite Hfields. done.
Qed.

(** ** The counting step returns *)

Lemma keyLocal_chunked (f : Template → Template) (t : Template) :
  keyLocal f → chunked (f t) = chunked t.
Proof. intros (T & p & w & Hf). by rewrite Hf. Qed.

Lemma optimizedChunks_total T bp tx ty keys t :
  Forall keyReadable keys →
  is_Some (TemplateManager.optimizedChunks T bp tx ty keys t).
Proof.
  intros Hkeys. revert t. induction Hkeys as [|key rest [[ox Hox] [oy Hoy]] _ IH]; intros t.
  - by eexists.
  - cbn [TemplateManager.optimizedChunks]. rewrite Hox, Hoy. simpl. apply IH.
Qed.

Lemma legacyChunks_total T dm dsl base tx ty keys t c :
  Forall keyReadable keys →
  chunked t = Some c → Forall (λ key, is_Some (objGet key c)) keys →
  is_Some (TemplateManager.legacyChunks T dm dsl base tx ty keys t).
Proof.
  intros Hkeys. revert t.
  induction Hkeys as [|key rest [[ox Hox] [oy Hoy]] _ IH]; intros t Hc Hbmps.
  - by eexists.
  - apply Forall_cons in Hbmps as [[bmp Hbmp] Hbmps].
    cbn [TemplateManager.legacyChunks]. rewrite Hox, Hoy, Hc. simpl. rewrite Hbmp. simpl.
    apply IH; [|done]. rewrite <- Hc.
    apply (keyLocal_chunked (JS.forZ _ _)).
    apply keyLocal_forZ. intros y. apply keyLocal_forZ. intros x. apply legacyPixel_keyLocal.
Qed.

Lemma forTemplates_total (f : Template → option Template) (ts : list Template) :
  Forall (λ t, is_Some (f t)) ts → is_Some (TemplateManager.forTemplates f ts).
Proof.
  induction 1 as [|t r [t' Ht] _ [r' Hr]]; simpl; [by eexists|].
  rewrite Ht. simpl. rewrite Hr. simpl. by eexists.
Qed.

Lemma tileCoordsString_fields (x y : Z) :
  0 ≤ x < 10000 → 0 ≤ y < 10000 →
  JS.splitComma (TemplateManager.tileCoordsString (x, y)) !! 0%nat ≫= JS.parseInt10 = Some x ∧
  JS.splitComma (TemplateManager.tileCoordsString (x, y)) !! 1%nat ≫= JS.parseInt10 = Some y.
Proof.
  intros Hx Hy. unfold TemplateManager.tileCoordsString. cbn [fst snd].
  destruct (keyFieldOk_spec 4 _ (keyField4 _ Hx)) as (Hn0 & _ & Hp0 & _).
  destruct (keyFieldOk_spec 4 _ (keyField4 _ Hy)) as (Hn1 & _ & Hp1 & _).
  rewrite splitComma_two by done.
  cbn [lookup list_lookup mbind option_bind]. by rewrite Hp0, Hp1.
Qed.

(** For a manager with positive sizes, tile coordinates of at most four
    digits, templates whose chunk keys for the tile can be read and, on the
    legacy path, have their bitmaps, the counting step returns. *)
Lemma countPixels_total (m : TemplateManager) (baseBitmap : ImageData) (x y : Z)
    (ts : list Template) :
  0 < mTileSize m → 0 < drawMult m →
  0 ≤ x < 10000 → 0 ≤ y < 10000 →
  Forall (λ t,
    let keys := TemplateManager.matchingTiles (TemplateManager.tileCoordsString (x, y)) t in
    Forall keyReadable keys ∧
    (useLegacyCount m = true →
     ∃ c, chunked t = Some c ∧ Forall (λ key, is_Some (objGet key c)) keys)) ts →
  is_Some (TemplateManager.countPixels m baseBitmap
             (TemplateManager.tileCoordsString (x, y)) ts).
Proof.
  intros HT Hdm Hx Hy Hts. unfold TemplateManager.countPixels. cbv zeta.
  destruct (tileCoordsString_fields x y Hx Hy) as [-> ->]. simpl.
  destruct (useLegacyCount m) eqn:Hlegacy.
  - rewrite decide_False by nia. apply forTemplates_total.
    eapply Forall_impl; [exact Hts|]. intros t [Hkeys Hc]. simpl in *.
    destruct (Hc eq_refl) as (c & Hch & Hbmps). by eapply legacyChunks_total.
  - rewrite decide_False by lia. apply forTemplates_total.
    eapply Forall_impl; [exact Hts|]. intros t [Hkeys _]. by apply optimizedChunks_total.
Qed.

(** ** Agreement of the two counting paths away from black *)

Lemma cell_index_inj (w x y X Y : Z) :
  0 ≤ x < w → 0 ≤ X < w → y * w + x = Y * w + X → x = X ∧ y = Y.
Proof. intros Hx HX Heq. assert (y = Y) by nia. subst. lia. Qed.

Lemma centerPixel_set d cw w3 y x cd :
  Template.centerPixel d cw w3 y x cd =
  JS.set cd (y * w3 + x)
    (if JS.is0 (JS.get d (((y * 3 + 1) * cw + (x * 3 + 1)) * 4 + 3)) then 0
     else packRGB (JS.get d (((y * 3 + 1) * cw + (x * 3 + 1)) * 4 + 0))
                  (JS.get d (((y * 3 + 1) * cw + (x * 3 + 1)) * 4 + 1))
                  (JS.get d (((y * 3 + 1) * cw + (x * 3 + 1)) * 4 + 2))).
Proof.
  unfold Template.centerPixel, Template.shreadSize. cbv zeta. by destruct (JS.is0 _).
Qed.

(** The entries of the centre-pixel buffer. *)
Lemma inlineCenter_get d cw chh x y :
  0 ≤ x < cw `div` 3 → 0 ≤ y < chh `div` 3 →
  JS.get (cdata (Template.inlineCenter d cw chh)) (y * (cw `div` 3) + x) =
  Some (if JS.is0 (JS.get d (((y * 3 + 1) * cw + (x * 3 + 1)) * 4 + 3)) then 0
        else packRGB (JS.get d (((y * 3 + 1) * cw + (x * 3 + 1)) * 4 + 0))
                     (JS.get d (((y * 3 + 1) * cw + (x * 3 + 1)) * 4 + 1))
                     (JS.get d (((y * 3 + 1) * cw + (x * 3 + 1)) * 4 + 2))).
Proof.
  intros Hx Hy. unfold Template.inlineCenter, Template.shreadSize. cbv zeta. simpl.
  set (w3 := cw `div` 3). set (h3 := chh `div` 3).
  set (val := λ y x, if JS.is0 (JS.get d (((y * 3 + 1) * cw + (x * 3 + 1)) * 4 + 3)) then 0
        else packRGB (JS.get d (((y * 3 + 1) * cw + (x * 3 + 1)) * 4 + 0))
                     (JS.get d (((y * 3 + 1) * cw + (x * 3 + 1)) * 4 + 1))
                     (JS.get d (((y * 3 + 1) * cw + (x * 3 + 1)) * 4 + 2))).
  set (cd0 := replicate (Z.to_nat (w3 * h3)) 0).
  assert (Hlen0 : Z.of_nat (length cd0) = w3 * h3).
  { subst cd0. rewrite length_replicate. nia. }
  pose proof (forZ_ind
    (λ ky cd, length cd = length cd0 ∧
              ∀ x' y', 0 ≤ x' < w3 → 0 ≤ y' < ky →
                JS.get cd (y' * w3 + x') = Some (val y' x')) h3
    (λ yy, JS.forZ w3 (λ xx, Template.centerPixel d cw w3 yy xx)) cd0) as Houter.
  destruct Houter as [_ Hget].
  - split; [done|]. intros; lia.
  - intros ky cd Hky [Hlen Hrows].
    pose proof (forZ_ind
      (λ kx cd', length cd' = length cd0 ∧
                 ∀ x' y', 0 ≤ x' < w3 → (0 ≤ y' < ky ∨ (y' = ky ∧ x' < kx)) →
                   JS.get cd' (y' * w3 + x') = Some (val y' x')) w3
      (λ xx, Template.centerPixel d cw w3 ky xx) cd) as Hinner.
    destruct Hinner as [Hlen' Hcells].
    + split; [done|]. intros x' y' Hx' [?|[? ?]]; [by apply Hrows|lia].
    + intros kx cd' Hkx [Hlen' Hcells]. rewrite centerPixel_set.
      split; [by rewrite length_set|].
      intros x' y' Hx' Hy'.
      destruct (decide (x' = kx ∧ y' = ky)) as [[-> ->]|Hne].
      * apply get_set_eq. rewrite Hlen'. nia.
      * rewrite get_set_ne.
        -- apply Hcells; [done|]. destruct Hy' as [?|[? ?]]; [by left|right; lia].
        -- intros Heq. apply cell_index_inj in Heq; [|lia..]. apply Hne. lia.
    + split; [done|]. intros x' y' Hx' Hy'. apply Hcells; [done|].
      destruct (decide (y' = ky)); [right|left]; lia.
  - apply Hget; lia.
Qed.

(** The entries of the packed live tile. *)
Lemma packBaseImage_get T d i :
  0 ≤ i < T * T →
  JS.get (TemplateManager.packBaseImage T d) i =
  Some (if JS.is0 (JS.get d (4 * i + 3)) then 0
        else packRGB (JS.get d (4 * i)) (JS.get d (4 * i + 1)) (JS.get d (4 * i + 2))).
Proof.
  intros Hi. unfold TemplateManager.packBaseImage. cbv zeta.
  set (bp0 := replicate (Z.to_nat (T * T)) 0).
  assert (Hlen0 : Z.of_nat (length bp0) = T * T).
  { subst bp0. rewrite length_replicate. lia. }
  pose proof (forZ_ind
    (λ k st, st.2 = 4 * k ∧ length st.1 = length bp0 ∧
             ∀ j, 0 ≤ j < k →
               JS.get st.1 j =
               Some (if JS.is0 (JS.get d (4 * j + 3)) then 0
                     else packRGB (JS.get d (4 * j)) (JS.get d (4 * j + 1))
                                  (JS.get d (4 * j + 2))))
    (Z.of_nat (length bp0)) (TemplateManager.packBase d) (bp0, 0)) as Hloop.
  destruct Hloop as (_ & _ & Hget).
  - split; [done|]. split; [done|]. intros; lia.
  - intros k [bp di] Hk (Hdi & Hlen & Hprev). simpl in *. subst di.
    unfold TemplateManager.packBase. simpl. split; [lia|]. split; [by rewrite length_set|].
    intros j Hj. destruct (decide (j = k)) as [->|Hne].
    + rewrite get_set_eq by lia. done.
    + rewrite get_set_ne by done. apply Hprev. lia.
  - apply Hget. lia.
Qed.

Lemma wfImage_byte (img : ImageData) (X Y c : Z) :
  wfImage img → 0 ≤ X < width img → 0 ≤ Y < height img → 0 ≤ c < 4 →
  ∃ v, JS.get (data img) ((Y * width img + X) * 4 + c) = Some v ∧ 0 ≤ v < 256.
Proof.
  intros (Hw & Hh & Hlen & Hbytes) HX HY Hc.
  destruct (get_is_Some (data img) ((Y * width img + X) * 4 + c)) as [v Hv]; [nia|].
  exists v. split; [done|]. rewrite get_lookup in Hv by nia.
  rewrite Forall_forall in Hbytes. apply Hbytes. by eapply list_elem_of_lookup_2.
Qed.

Lemma forNat_ext {S : Type} (n : nat) (f g : Z → S → S) (s : S) :
  (∀ i s', 0 ≤ i < Z.of_nat n → f i s' = g i s') → JS.forNat n f s = JS.forNat n g s.
Proof.
  induction n as [|k IH]; intros Hfg; [done|]. simpl.
  rewrite IH by (intros; apply Hfg; lia). apply Hfg. lia.
Qed.

Lemma forZ_ext {S : Type} (n : Z) (f g : Z → S → S) (s : S) :
  (∀ i s', 0 ≤ i < n → f i s' = g i s') → JS.forZ n f s = JS.forZ n g s.
Proof. intros Hfg. apply forNat_ext. intros. apply Hfg. lia. Qed.

Section agreement.
Variables (T tx ty ox oy : Z) (base bmp : ImageData).
Hypothesis HT : 0 < T.
Hypothesis Hbase : wfImage base.
Hypothesis HbaseW : width base = T.
Hypothesis HbaseH : height base = T.
Hypothesis HbaseBlack : noOpaqueBlack base.
Hypothesis Hbmp : wfImage bmp.
Hypothesis HbmpBlack : noOpaqueBlack bmp.
Hypothesis Hox : 0 ≤ ox ∧ ox + width bmp `div` 3 ≤ T.
Hypothesis Hoy : 0 ≤ oy ∧ oy + height bmp `div` 3 ≤ T.

(** On a pixel of a chunk the two loop bodies do the same. *)
Lemma pixel_agreement (x y : Z) (t : Template) :
  0 ≤ x < width bmp `div` 3 → 0 ≤ y < height bmp `div` 3 →
  TemplateManager.legacyPixel T 3 (T * 3)
    (data (drawImageScaled base 0 0 (width base) (height base) (T * 3) (T * 3)))
    tx ty ox oy (data (drawImageCopy bmp)) (width bmp) y x t =
  TemplateManager.optimizedPixel T
    (TemplateManager.packBaseImage T
       (data (drawImageScaled base 0 0 (width base) (height base) T T)))
    tx ty ox oy (width bmp `div` 3)
    (cdata (Template.inlineCenter (data bmp) (width bmp) (height bmp))) y x t.
Proof.
  intros Hx Hy.
  assert (HX : 0 ≤ x * 3 + 1 < width bmp).
  { pose proof (Z.mul_div_le (width bmp) 3). lia. }
  assert (HY : 0 ≤ y * 3 + 1 < height bmp).
  { pose proof (Z.mul_div_le (height bmp) 3). lia. }
  destruct (wfImage_byte bmp _ _ 0 Hbmp HX HY) as (tr & Htr & Htrb); [lia|].
  destruct (wfImage_byte bmp _ _ 1 Hbmp HX HY) as (tg & Htg & Htgb); [lia|].
  destruct (wfImage_byte bmp _ _ 2 Hbmp HX HY) as (tb & Htb & Htbb); [lia|].
  destruct (wfImage_byte bmp _ _ 3 Hbmp HX HY) as (ta & Hta & Htab); [lia|].
  assert (HBX : 0 ≤ ox + x < width base) by lia.
  assert (HBY : 0 ≤ oy + y < height base) by lia.
  destruct (wfImage_byte base _ _ 0 Hbase HBX HBY) as (br & Hbr & Hbrb); [lia|].
  destruct (wfImage_byte base _ _ 1 Hbase HBX HBY) as (bg & Hbg & Hbgb); [lia|].
  destruct (wfImage_byte base _ _ 2 Hbase HBX HBY) as (bb & Hbb & Hbbb); [lia|].
  destruct (wfImage_byte base _ _ 3 Hbase HBX HBY) as (ba & Hba & Hbab); [lia|].
  pose proof (HbmpBlack _ _ HX HY) as Htblack.
  pose proof (HbaseBlack _ _ HBX HBY) as Hbblack.
  destruct Hbmp as (Hw & Hh & Hlen & _). destruct Hbase as (_ & _ & HlenB & _).
  (* the legacy reads *)
  assert (Hleg : ∀ c, 0 ≤ c < 4 →
    JS.get (data (drawImageScaled base 0 0 (width base) (height base) (T * 3) (T * 3)))
      ((((oy + y) * 3 + 1) * (T * 3) + ((ox + x) * 3 + 1)) * 4 + c) =
    JS.get (data base) (((oy + y) * width base + (ox + x)) * 4 + c)).
  { intros c Hc. rewrite get_drawImageScaled by lia.
    rewrite <- canvasByte_get by lia. rewrite HbaseW, HbaseH.
    rewrite !upscale_source by lia.
    replace (((ox + x) * 3 + 1) `div` 3) with (ox + x)
      by (apply (Z.div_unique _ 3 _ 1); lia).
    replace (((oy + y) * 3 + 1) `div` 3) with (oy + y)
      by (apply (Z.div_unique _ 3 _ 1); lia).
    by rewrite !Z.add_0_l. }
  (* the optimized reads *)
  assert (Hopt : ∀ c, 0 ≤ c < 4 →
    JS.get (data (drawImageScaled base 0 0 (width base) (height base) T T))
      (4 * ((oy + y) * T + (ox + x)) + c) =
    JS.get (data base) (((oy + y) * width base + (ox + x)) * 4 + c)).
  { intros c Hc.
    replace (drawImageScaled base 0 0 (width base) (height base) T T)
      with (drawImageCopy base) by (unfold drawImageCopy; by rewrite HbaseW, HbaseH).
    rewrite drawImageCopy_data by lia. f_equal. rewrite HbaseW. lia. }
  unfold TemplateManager.legacyPixel, TemplateManager.optimizedPixel. cbv zeta.
  rewrite drawImageCopy_data by lia.
  rewrite !Hleg by lia. rewrite Htr, Htg, Htb, Hta, Hbr, Hbg, Hbb, Hba.
  rewrite decide_False by lia.
  rewrite packBaseImage_get by nia.
  pose proof (Hopt 0) as Ho0. rewrite Z.add_0_r in Ho0.
  rewrite Ho0, !Hopt by lia. rewrite Hbr, Hbg, Hbb, Hba.
  rewrite inlineCenter_get by lia. rewrite Htr, Htg, Htb, Hta.
  unfold JS.is0, JS.seq.
  destruct (decide (ta = 0)) as [->|Hta0].
  { rewrite !bool_decide_eq_true_2 by done. done. }
  rewrite (bool_decide_eq_false_2 (Some ta = Some 0)) by congruence.
  assert (Htp : packRGB (Some tr) (Some tg) (Some tb) ≠ 0).
  { rewrite packRGB_zero by done. intros (-> & -> & ->).
    apply Htblack; [rewrite Hta; congruence|done]. }
  rewrite (bool_decide_eq_false_2 (Some (packRGB (Some tr) (Some tg) (Some tb)) = Some 0))
    by congruence.
  destruct (decide (ba = 0)) as [->|Hba0].
  { rewrite !bool_decide_eq_true_2 by done. done. }
  rewrite (bool_decide_eq_false_2 (Some ba = Some 0)) by congruence.
  assert (Hbp : packRGB (Some br) (Some bg) (Some bb) ≠ 0).
  { rewrite packRGB_zero by done. intros (-> & -> & ->).
    apply Hbblack; [rewrite Hba; congruence|done]. }
  rewrite (bool_decide_eq_false_2 (Some (packRGB (Some br) (Some bg) (Some bb)) = Some 0))
    by congruence.
  destruct (decide (br = tr ∧ bg = tg ∧ bb = tb)) as [(-> & -> & ->)|Hne].
  { rewrite !bool_decide_eq_true_2 by done. done. }
  rewrite (bool_decide_eq_false_2
             (Some (packRGB (Some br) (Some bg) (Some bb)) =
              Some (packRGB (Some tr) (Some tg) (Some tb)))).
  2:{ intros [= Heq]. apply packRGB_inj in Heq; done. }
  destruct (decide (br = tr)) as [->|?].
  2:{ rewrite (bool_decide_eq_false_2 (Some br = Some tr)) by congruence. done. }
  destruct (decide (bg = tg)) as [->|?].
  2:{ rewrite (bool_decide_eq_false_2 (Some bg = Some tg)) by congruence.
      by rewrite andb_false_r. }
  rewrite (bool_decide_eq_false_2 (Some bb = Some tb)) by (intros [= ->]; by apply Hne).
  by rewrite andb_false_r.
Qed.

End agreement.

Lemma keyLocal_centerPixelIndex (f : Template → Template) (t : Template) :
  keyLocal f → centerPixelIndex (f t) = centerPixelIndex t.
Proof. intros (T & p & w & Hf). by rewrite Hf. Qed.

Lemma chunkInTile_keyLocal (f : Template → Template) (T : Z) (t : Template) (key : string) :
  keyLocal f → chunkInTile T t key → chunkInTile T (f t) key.
Proof.
  intros Hf (ox & oy & c & bmp & H). exists ox, oy, c, bmp.
  rewrite (keyLocal_chunked f t Hf), (keyLocal_centerPixelIndex f t Hf). done.
Qed.

(** On chunks inside the tile and without opaque black, over a live tile
    without opaque black, the two loops over the chunks do the same. *)
Lemma chunks_agreement T tx ty base keys t :
  0 < T → wfImage base → width base = T → height base = T → noOpaqueBlack base →
  Forall (chunkInTile T t) keys →
  TemplateManager.legacyChunks T 3 (T * 3)
    (data (drawImageScaled base 0 0 (width base) (height base) (T * 3) (T * 3)))
    tx ty keys t =
  TemplateManager.optimizedChunks T
    (TemplateManager.packBaseImage T
       (data (drawImageScaled base 0 0 (width base) (height base) T T)))
    tx ty keys t.
Proof.
  intros HT Hbase HW HH Hblack. revert t.
  induction keys as [|key rest IH]; intros t Hkeys; [done|].
  apply Forall_cons in Hkeys as [Hkey Hrest].
  destruct Hkey as (ox & oy & c & bmp & Hox & Hoy & Hc & Hbmp & Hwf & Hnb & Hidx & Hin).
  cbn [TemplateManager.legacyChunks TemplateManager.optimizedChunks].
  rewrite Hox, Hoy, Hc, Hidx. simpl. rewrite Hbmp. simpl.
  unfold Template.shreadSize.
  set (loop := JS.forZ (height bmp `div` 3) _ t).
  assert (Hloop : loop =
    JS.forZ (height bmp `div` 3)
      (λ y, JS.forZ (width bmp `div` 3)
              (λ x, TemplateManager.optimizedPixel T
                      (TemplateManager.packBaseImage T
                         (data (drawImageScaled base 0 0 (width base) (height base) T T)))
                      tx ty ox oy (width bmp `div` 3)
                      (cdata (Template.inlineCenter (data bmp) (width bmp) (height bmp)))
                      y x)) t).
  { subst loop. apply forZ_ext. intros y t1 Hy. apply forZ_ext. intros x t2 Hx.
    apply pixel_agreement; try done; lia. }
  rewrite Hloop. apply IH.
  eapply Forall_impl; [exact Hrest|]. intros key' Hkey'.
  apply (chunkInTile_keyLocal (JS.forZ _ _)); [|done].
  apply keyLocal_forZ. intros y. apply keyLocal_forZ. intros x.
  apply optimizedPixel_keyLocal.
Qed.

Lemma forTemplates_ext (f g : Template → option Template) (ts : list Template) :
  Forall (λ t, f t = g t) ts →
  TemplateManager.forTemplates f ts = TemplateManager.forTemplates g ts.
Proof.
  induction 1 as [|t r Ht _ IH]; [done|].
  cbn [TemplateManager.forTemplates]. by rewrite Ht, IH.
Qed.

(** X1. The counting step gives the same sets with either path when the live tile
    is a bitmap of the tile size, no pixel of it or of the chunks at the tile
    is opaque black, and the chunks lie inside the tile. *)
Lemma countPixels_agreement T ta sd base tileCoords ts :
  0 < T → wfImage base → width base = T → height base = T → noOpaqueBlack base →
  Forall (λ t, Forall (chunkInTile T t) (TemplateManager.matchingTiles tileCoords t)) ts →
  TemplateManager.countPixels (mkManager T 3 ta sd true) base tileCoords ts =
  TemplateManager.countPixels (mkManager T 3 ta sd false) base tileCoords ts.
Proof.
  intros HT Hbase HW HH Hblack Hts.
  unfold TemplateManager.countPixels. cbn [useLegacyCount mTileSize drawMult]. cbv zeta.
  rewrite !decide_False by lia.
  destruct (JS.splitComma tileCoords !! 0%nat ≫= JS.parseInt10) as [tx|]; [|done].
  destruct (JS.splitComma tileCoords !! 1%nat ≫= JS.parseInt10) as [ty|]; [|done].
  simpl. apply forTemplates_ext.
  eapply Forall_impl; [exact Hts|]. intros t Ht. by apply chunks_agreement.
Qed.

(** The agreement on a tile of 2 x 2 pixels and a template of two red
    pixels. *)
Lemma countPixels_agreement_witness :
  TemplateManager.countPixels (Examples.smallManager true) Examples.redTile
    "0000,0000" Examples.redTemplates =
  TemplateManager.countPixels (Examples.smallManager false) Examples.redTile
    "0000,0000" Examples.redTemplates.
Proof.
  apply (countPixels_agreement 2 [] true); try done.
  - repeat split; try done. vm_compute. repeat constructor; done.
  - intros X Y HX HY. cbn in HX, HY.
    assert (HX' : X = 0 ∨ X = 1) by lia. assert (HY' : Y = 0 ∨ Y = 1) by lia.
    clear HX HY. destruct HX' as [->| ->], HY' as [->| ->]; vm_compute;
      intros Ha (Hr & Hg & Hb); congruence.
  - assert (Hts : ∃ t, Examples.redTemplates = [t] ∧
        TemplateManager.matchingTiles "0000,0000" t = ["0000,0000,000,000"%string] ∧
        chunkInTile 2 t "0000,0000,000,000").
    2:{ destruct Hts as (t & -> & Hm & Hin). constructor; [|constructor].
        rewrite Hm. by repeat constructor. }
    eexists. split; [vm_compute; reflexivity|]. split; [vm_compute; reflexivity|].
    eexists 0, 0, _, _. split; [by vm_compute|]. split; [by vm_compute|].
    split; [reflexivity|]. split; [vm_compute; reflexivity|].
    split; [repeat split; try done; vm_compute; repeat constructor; done|].
    split.
    { intros X Y HX HY. cbn in HX, HY.
      assert (HX' : X = 0 ∨ X = 1 ∨ X = 2 ∨ X = 3 ∨ X = 4 ∨ X = 5) by lia.
      assert (HY' : Y = 0 ∨ Y = 1 ∨ Y = 2) by lia. clear HX HY.
      destruct HX' as [->|[->|[->|[->|[->| ->]]]]], HY' as [->|[->| ->]]; vm_compute;
        intros Ha (Hr & Hg & Hb); congruence. }
    split; [by vm_compute|]. by vm_compute.
Defined.

(** * Further properties of the chunking, the counting and the compositor *)

(** ** Invariants of the chunking loops that depend on the position *)

Section chunking_position.
Context (bitmap : ImageData) (T c0 c1 c2 c3 : Z).
Context (Q : Z → Z → Z → Template.Chunking → Prop) (R : Z → Template.Chunking → Prop).
Hypothesis HT : 0 < T.
Hypothesis Hc2 : 0 ≤ c2.
Hypothesis Hc3 : 0 ≤ c3.
Hypothesis HW : 0 ≤ width bitmap.
Hypothesis Qstep : ∀ y dy x dx st,
  c3 ≤ y < height bitmap + c3 → 0 < dy → y + dy ≤ height bitmap + c3 →
  dy ≤ T - y `mod` T →
  c2 ≤ x < width bitmap + c2 → 0 < dx → x + dx ≤ width bitmap + c2 →
  dx ≤ T - x `mod` T →
  Q y dy x st →
  Q y dy (x + dx) (Template.chunkSegment bitmap c0 c1 c2 c3 x y dx dy st).
Hypothesis Rrow : ∀ y dy st,
  c3 ≤ y < height bitmap + c3 → 0 < dy → y + dy ≤ height bitmap + c3 →
  R y st → Q y dy c2 st.
Hypothesis Rnext : ∀ y dy st,
  c3 ≤ y < height bitmap + c3 → 0 < dy → y + dy ≤ height bitmap + c3 →
  Q y dy (width bitmap + c2) st → R (y + dy) st.

Lemma rowLoop_at fuel y dy x st st' :
  c3 ≤ y < height bitmap + c3 → 0 < dy → y + dy ≤ height bitmap + c3 →
  dy ≤ T - y `mod` T →
  c2 ≤ x ≤ width bitmap + c2 →
  Template.rowLoop fuel bitmap T c0 c1 c2 c3 y dy x st = Some st' →
  Q y dy x st → Q y dy (width bitmap + c2) st'.
Proof.
  intros Hy Hdy Hydy HdyT. revert x st.
  induction fuel as [|fuel IH]; intros x st Hx.
  - rewrite rowLoop_O. destruct (decide _); [done|]. intros [= <-].
    by replace (width bitmap + c2) with x by lia.
  - rewrite rowLoop_S. destruct (decide (x < _)) as [Hlt|Hge].
    + cbv zeta. rewrite Z.rem_mod_nonneg by lia.
      set (dx := Z.min (T - x `mod` T) (width bitmap - (x - c2))).
      destruct (decide (_ ∧ _)) as [[Hdx _]|]; [|done].
      intros Hrun HQ. pose proof (Z.mod_pos_bound x T HT) as Hmod.
      assert (Hdxb : x + dx ≤ width bitmap + c2 ∧ dx ≤ T - x `mod` T) by (subst dx; lia).
      eapply (IH (x + dx)); [lia|exact Hrun|]. apply Qstep; try done; lia.
    + intros [= <-]. by replace (width bitmap + c2) with x by lia.
Qed.

Lemma tileLoop_at fuel y st st' :
  c3 ≤ y ≤ height bitmap + c3 →
  Template.tileLoop fuel bitmap T c0 c1 c2 c3 y st = Some st' →
  R y st → R (height bitmap + c3) st'.
Proof.
  revert y st. induction fuel as [|fuel IH]; intros y st Hy.
  - rewrite tileLoop_O. destruct (decide _); [done|]. intros [= <-].
    by replace (height bitmap + c3) with y by lia.
  - rewrite tileLoop_S. destruct (decide (y < _)) as [Hlt|Hge].
    + cbv zeta. rewrite Z.rem_mod_nonneg by lia.
      set (dy := Z.min (T - y `mod` T) (height bitmap - (y - c3))).
      destruct (Template.rowLoop _ _ _ _ _ _ _ _ _ _ _) as [st1|] eqn:Hrow; [|done].
      simpl. intros Hrun HR.
      pose proof (Z.mod_pos_bound y T HT) as Hmod.
      assert (Hdy : 0 < dy ∧ y + dy ≤ height bitmap + c3 ∧ dy ≤ T - y `mod` T)
        by (subst dy; lia).
      eapply (IH (y + dy)); [lia|exact Hrun|]. apply (Rnext y dy); [lia..|].
      eapply (rowLoop_at _ y dy c2 st); [lia..|exact Hrow|].
      apply Rrow; [lia..|done].
    + intros [= <-]. by replace (height bitmap + c3) with y by lia.
Qed.
End chunking_position.

(** ** The bitmap of a chunk *)

Lemma shred_cleared (cw ch : Z) (d0 : list Z) (cu0 : gmap string Z) :
  0 ≤ cw → 0 ≤ ch → Z.of_nat (length d0) = 4 * cw * ch →
  alphaCleared cw (λ X Y, Y < ch ∧ ¬ (X `mod` 3 = 1 ∧ Y `mod` 3 = 1)) d0
    (Template.shred cw ch (d0, cu0)).1.
Proof.
  intros Hcw Hch Hlen. unfold Template.shred.
  set (A := λ (ky X Y : Z), Y < ky ∧ ¬ (X `mod` 3 = 1 ∧ Y `mod` 3 = 1)).
  set (B := λ (ky kx X Y : Z), Y = ky ∧ X < kx ∧ ¬ (X `mod` 3 = 1 ∧ Y `mod` 3 = 1)).
  apply (alphaCleared_ext cw (A (Z.max 0 ch))).
  { intros X Y HX HY. unfold A. naive_solver lia. }
  apply (forZ_ind (λ ky (st : list Z * gmap string Z), alphaCleared cw (A ky) d0 st.1)).
  { apply (alphaCleared_ext cw (λ _ _, False)); [|apply alphaCleared_refl].
    intros X Y HX HY. unfold A. naive_solver lia. }
  intros ky st Hky Hst.
  apply (alphaCleared_ext cw (λ X Y, A ky X Y ∨ B ky (Z.max 0 cw) X Y)).
  { intros X Y HX HY. unfold A, B. naive_solver lia. }
  apply (forZ_ind (λ kx (st' : list Z * gmap string Z),
           alphaCleared cw (λ X Y, A ky X Y ∨ B ky kx X Y) d0 st'.1)).
  { apply (alphaCleared_ext cw (A ky)); [|done].
    intros X Y HX HY. unfold A, B. naive_solver lia. }
  intros kx [d cu] Hkx Hd. simpl in Hd.
  unfold Template.shredPixel, Template.shreadSize. rewrite !Z.rem_mod_nonneg by lia.
  destruct (bool_decide (kx `mod` 3 = 1) && bool_decide (ky `mod` 3 = 1)) eqn:Ec.
  - apply andb_true_iff in Ec as [Ex%bool_decide_eq_true Ey%bool_decide_eq_true].
    assert (alphaCleared cw (λ X Y, A ky X Y ∨ B ky (kx + 1) X Y) d0 d) as Hd'.
    { apply (alphaCleared_ext cw (λ X Y, A ky X Y ∨ B ky kx X Y)); [|done].
      intros X Y HX HY. unfold A, B.
      destruct (decide (X = kx)) as [->|]; naive_solver lia. }
    by destruct (negb _).
  - simpl.
    apply (alphaCleared_ext cw (λ X Y, (A ky X Y ∨ B ky kx X Y) ∨ (X = kx ∧ Y = ky))).
    { intros X Y HX HY. unfold A, B.
      apply andb_false_iff in Ec as [Ex%bool_decide_eq_false|Ey%bool_decide_eq_false];
        naive_solver lia. }
    apply (alphaCleared_set cw ch); [lia|lia|done|done].
Qed.

Lemma objSet_new {V : Type} (k : string) (v : V) (o : list (string * V)) :
  k ∉ o.*1 → objSet k v o = o ++ [(k, v)].
Proof.
  induction o as [|[k' w] r IH]; intros Hk; simpl; [done|].
  rewrite fmap_cons, not_elem_of_cons in Hk. destruct Hk as [Hne Hk].
  rewrite decide_False by done. by rewrite IH.
Qed.

(** ** The colour histogram of the chunking and of the rebuilt index *)

Lemma forZ_snd {A B : Type} (n : Z) (f : Z → A * B → A * B) (g : Z → B → B) :
  (∀ k s, (f k s).2 = g k s.2) →
  ∀ s, (JS.forZ n f s).2 = JS.forZ n g s.2.
Proof.
  intros Hfg s. unfold JS.forZ. induction (Z.to_nat n) as [|k IH]; [done|].
  simpl. by rewrite Hfg, IH.
Qed.

Lemma forZ_succ {S : Type} (k : Z) (body : Z → S → S) (s : S) :
  0 ≤ k → JS.forZ (k + 1) body s = body k (JS.forZ k body s).
Proof.
  intros Hk. unfold JS.forZ. replace (Z.to_nat (k + 1)) with (Datatypes.S (Z.to_nat k)) by lia.
  simpl. by rewrite Z2Nat.id by done.
Qed.

Lemma rebuildPixel_snd d bw cw y x st :
  (Template.rebuildPixel d bw cw 3 y x st).2 = countCenter d bw y x st.2.
Proof.
  destruct st as [cd cu]. unfold Template.rebuildPixel, countCenter. cbv zeta.
  by destruct (JS.is0 _).
Qed.

Lemma rebuildChunk_snd (bmp : ImageData) (cu : gmap string Z) :
  (Template.rebuildChunk 3 bmp cu).2 =
  countCenters (data (drawImageCopy bmp)) (width bmp)
    (width bmp `div` 3) (height bmp `div` 3) cu.
Proof.
  unfold Template.rebuildChunk, countCenters. cbv zeta.
  destruct (JS.forZ _ _ _) as [cd cu'] eqn:Hloop. simpl.
  apply (f_equal snd) in Hloop. simpl in Hloop. rewrite <- Hloop.
  rewrite (forZ_snd _ _
             (λ y, JS.forZ (width bmp `div` 3)
                     (λ x, countCenter (data (drawImageCopy bmp)) (width bmp) y x))); [done|].
  intros y s. apply forZ_snd. intros x s'. apply rebuildPixel_snd.
Qed.

Lemma countCenters_ext (d d' : list Z) (w cw ch : Z) (cu : gmap string Z) :
  (∀ x y c, 0 ≤ x < cw → 0 ≤ y < ch → 0 ≤ c < 4 →
     JS.get d (((y * 3 + 1) * w + (x * 3 + 1)) * 4 + c) =
     JS.get d' (((y * 3 + 1) * w + (x * 3 + 1)) * 4 + c)) →
  countCenters d w cw ch cu = countCenters d' w cw ch cu.
Proof.
  intros Hd. unfold countCenters. apply forZ_ext. intros y s Hy.
  apply forZ_ext. intros x s' Hx. unfold countCenter. cbv zeta.
  by rewrite !Hd by lia.
Qed.

(** The histogram part of the shredding loops: they count the centres. *)
Lemma shred_snd (dx dy : Z) (d0 : list Z) (cu0 : gmap string Z) :
  0 ≤ dx → 0 ≤ dy →
  (Template.shred (dx * 3) (dy * 3) (d0, cu0)).2 = countCenters d0 (dx * 3) dx dy cu0.
Proof.
  intros Hdx Hdy. unfold Template.shred, countCenters.
  set (cw := dx * 3).
  set (keeps := λ d : list Z,
    ∀ X Y c, 0 ≤ X < cw → X `mod` 3 = 1 → Y `mod` 3 = 1 → 0 ≤ c < 4 →
      JS.get d ((Y * cw + X) * 4 + c) = JS.get d0 ((Y * cw + X) * 4 + c)).
  set (row := λ y, JS.forZ dx (λ x, countCenter d0 cw y x)).
  assert (Hall :
    (λ ky (st : list Z * gmap string Z),
       keeps st.1 ∧ st.2 = JS.forZ ((ky + 1) `div` 3) row cu0) (Z.max 0 (dy * 3))
      (JS.forZ (dy * 3) (λ y, JS.forZ cw (λ x, Template.shredPixel cw y x)) (d0, cu0))).
  { apply forZ_ind.
    - split; [done|]. done.
    - intros ky st Hky [Hkeep Hcu].
      assert (Hrow :
        (λ kx (st' : list Z * gmap string Z),
           keeps st'.1 ∧
           st'.2 = if decide (ky `mod` 3 = 1)
                   then JS.forZ ((kx + 1) `div` 3) (λ x, countCenter d0 cw (ky `div` 3) x) st.2
                   else st.2) (Z.max 0 cw)
          (JS.forZ cw (λ x, Template.shredPixel cw ky x) st)).
      { apply forZ_ind.
        - split; [done|]. by destruct (decide _).
        - intros kx [d cu] Hkx [Hkeep' Hcu']. simpl in Hkeep', Hcu'.
          unfold Template.shredPixel, Template.shreadSize.
          rewrite !Z.rem_mod_nonneg by lia.
          destruct (decide (ky `mod` 3 = 1)) as [Hcy|Hncy].
          + rewrite (bool_decide_eq_true_2 (ky `mod` 3 = 1)) by done. rewrite andb_true_r.
            destruct (decide (kx `mod` 3 = 1)) as [Hcx|Hncx].
            * rewrite (bool_decide_eq_true_2 (kx `mod` 3 = 1)) by done.
              assert (Hnext : (kx + 1 + 1) `div` 3 = (kx + 1) `div` 3 + 1 ∧
                              (kx + 1) `div` 3 = kx `div` 3).
              { pose proof (Z.div_mod kx 3). pose proof (Z.div_mod (kx + 1) 3).
                pose proof (Z.div_mod (kx + 1 + 1) 3).
                pose proof (Z.mod_pos_bound (kx + 1) 3).
                pose proof (Z.mod_pos_bound (kx + 1 + 1) 3). lia. }
              destruct Hnext as [-> Hkx3].
              rewrite forZ_succ by (apply Z.div_pos; lia). rewrite <- Hcu'.
              assert (Hidx : ((ky `div` 3 * 3 + 1) * cw + ((kx + 1) `div` 3 * 3 + 1)) =
                             ky * cw + kx).
              { rewrite Hkx3. pose proof (Z.div_mod kx 3). pose proof (Z.div_mod ky 3). nia. }
              unfold countCenter. cbv zeta. rewrite Hidx.
              rewrite <- !Hkeep' by (done || lia).
              destruct (JS.is0 (JS.get d ((ky * cw + kx) * 4 + 3))); simpl; by split.
            * rewrite (bool_decide_eq_false_2 (kx `mod` 3 = 1)) by done. simpl.
              assert (Hnext : (kx + 1 + 1) `div` 3 = (kx + 1) `div` 3).
              { pose proof (Z.div_mod kx 3). pose proof (Z.div_mod (kx + 1) 3).
                pose proof (Z.div_mod (kx + 1 + 1) 3).
                pose proof (Z.mod_pos_bound kx 3).
                pose proof (Z.mod_pos_bound (kx + 1) 3).
                pose proof (Z.mod_pos_bound (kx + 1 + 1) 3). lia. }
              rewrite Hnext. split; [|done].
              intros X Y c HX HXc HYc Hc. rewrite get_set_ne; [by apply Hkeep'|].
              intros Heq. apply pixel_index_inj in Heq as (-> & _ & _); [done|lia..].
          + rewrite (bool_decide_eq_false_2 (ky `mod` 3 = 1)) by done.
            rewrite andb_false_r. simpl. split; [|done].
            intros X Y c HX HXc HYc Hc. rewrite get_set_ne; [by apply Hkeep'|].
            intros Heq. apply pixel_index_inj in Heq as (_ & -> & _); [done|lia..]. }
      destruct Hrow as [Hkeep' Hcu']. split; [done|]. rewrite Hcu'.
      destruct (decide (ky `mod` 3 = 1)) as [Hcy|Hncy].
      + assert (Hnext : (ky + 1 + 1) `div` 3 = (ky + 1) `div` 3 + 1 ∧
                        (ky + 1) `div` 3 = ky `div` 3).
        { pose proof (Z.div_mod ky 3). pose proof (Z.div_mod (ky + 1) 3).
          pose proof (Z.div_mod (ky + 1 + 1) 3).
          pose proof (Z.mod_pos_bound (ky + 1) 3).
          pose proof (Z.mod_pos_bound (ky + 1 + 1) 3). lia. }
        destruct Hnext as [-> Hky3].
        rewrite forZ_succ by (apply Z.div_pos; lia). rewrite <- Hcu, Hky3.
        unfold row. f_equal. subst cw. rewrite Z.max_r by lia.
        replace (dx * 3 + 1) with (1 + dx * 3) by lia.
        rewrite Z.div_add by lia. done.
      + assert (Hnext : (ky + 1 + 1) `div` 3 = (ky + 1) `div` 3).
        { pose proof (Z.div_mod ky 3). pose proof (Z.div_mod (ky + 1) 3).
          pose proof (Z.div_mod (ky + 1 + 1) 3).
          pose proof (Z.mod_pos_bound ky 3).
          pose proof (Z.mod_pos_bound (ky + 1) 3).
          pose proof (Z.mod_pos_bound (ky + 1 + 1) 3). lia. }
        by rewrite Hnext. }
  destruct Hall as [_ ->]. rewrite Z.max_r by lia.
  replace (dy * 3 + 1) with (1 + dy * 3) by lia. rewrite Z.div_add by lia. done.
Qed.

(** One pass of the chunking loop stores, under the key of its segment, a
    bitmap that encodes the segment, and counts the colours that rebuilding
    the index counts for that bitmap. *)
Lemma chunkSegment_encodes bitmap c0 c1 c2 c3 x y dx dy st :
  0 < dx → 0 < dy →
  ∃ bmp,
    Template.templateTiles (Template.chunkSegment bitmap c0 c1 c2 c3 x y dx dy st) =
      objSet (Template.templateTileName c0 c1 x y) bmp (Template.templateTiles st) ∧
    chunkEncodes bitmap c2 c3
      (mkSegment x y dx dy dx dy (Template.templateTileName c0 c1 x y)) bmp ∧
    Template.chColorsUsed (Template.chunkSegment bitmap c0 c1 c2 c3 x y dx dy st) =
      (Template.rebuildChunk 3 bmp (Template.chColorsUsed st)).2.
Proof.
  intros Hdx Hdy. unfold Template.chunkSegment. cbv zeta.
  destruct (Template.shred _ _ _) as [d cu] eqn:Hshred.
  eexists. split; [reflexivity|].
  unfold Template.shreadSize in *.
  set (d0 := data (drawImageScaled bitmap (x - c2) (y - c3) dx dy (dx * 3) (dy * 3))) in *.
  assert (Hlen0 : Z.of_nat (length d0) = 4 * (dx * 3) * (dy * 3)).
  { subst d0. rewrite length_drawImageScaled. lia. }
  pose proof (shred_cleared (dx * 3) (dy * 3) d0 (Template.chColorsUsed st)
                ltac:(lia) ltac:(lia) Hlen0) as [Hlen Hget].
  pose proof (shred_snd dx dy d0 (Template.chColorsUsed st) ltac:(lia) ltac:(lia)) as Hcu.
  rewrite Hshred in Hlen, Hget, Hcu. simpl in Hlen, Hget, Hcu.
  split.
  - unfold chunkEncodes. simpl. split; [done|]. split; [done|].
    split; [by rewrite Hlen|].
    intros X Y c HX HY Hc.
    destruct (Hget X Y c HX ltac:(lia) Hc) as [H1 H2].
    assert (Hsrc : JS.get d0 ((Y * (dx * 3) + X) * 4 + c) =
                   Some (canvasByte bitmap (x - c2 + X `div` 3) (y - c3 + Y `div` 3) c)).
    { subst d0. rewrite get_drawImageScaled by lia.
      by rewrite !upscale_source by lia. }
    destruct (decide (c = 3 ∧ ¬ (X `mod` 3 = 1 ∧ Y `mod` 3 = 1))) as [[-> Hnc]|Hno].
    + apply H1. split; [done|]. split; [lia|done].
    + rewrite H2; [done|]. intros [-> [_ Hnc]]. apply Hno. done.
  - cbn [Template.chColorsUsed]. rewrite rebuildChunk_snd.
    rewrite drawImageCopy_data by (simpl; lia). simpl.
    rewrite !Z.div_mul by lia. rewrite Hcu.
    apply countCenters_ext. intros x' y' c Hx' Hy' Hc.
    destruct (Hget (x' * 3 + 1) (y' * 3 + 1) c ltac:(lia) ltac:(lia) Hc) as [_ H2].
    symmetry. apply H2. intros [_ [_ Hnc]]. apply Hnc.
    destruct (center_div_mod x') as [_ ?]. destruct (center_div_mod y') as [_ ?]. done.
Qed.

(** ** The segments partition the image *)

Lemma segmentsArea_app (a b : list Segment) :
  segmentsArea (a ++ b) = segmentsArea a + segmentsArea b.
Proof. induction a as [|s a IH]; simpl; [done|]. rewrite IH. lia. Qed.

Lemma segmentsUpTo_step (W c2 c3 y dy x dx : Z) (segs : list Segment) (name : string) :
  0 < dy → 0 < dx → c3 ≤ y → c2 ≤ x → x + dx ≤ W + c2 →
  segmentsUpTo W c2 c3 y dy x segs →
  segmentsUpTo W c2 c3 y dy (x + dx) (segs ++ [mkSegment x y dx dy dx dy name]).
Proof.
  intros Hdy Hdx Hy Hx Hxdx (Hcov & Hin & Hdisj & Harea).
  set (new := mkSegment x y dx dy dx dy name).
  assert (Hnew : ∀ X Y, inSegment new X Y ↔ (x ≤ X < x + dx ∧ y ≤ Y < y + dy)) by done.
  assert (Hold : ∀ s X Y, s ∈ segs → inSegment s X Y → Y < y ∨ (Y < y + dy ∧ X < x)).
  { intros s X Y Hs [HX HY]. destruct (Hin s Hs) as (? & ? & ? & ? & ? & [?|(? & ? & ?)]); lia. }
  split; [|split; [|split]].
  - intros X Y HX HY Hreg.
    destruct (decide (Y < y ∨ (Y < y + dy ∧ X < x))) as [Hbefore|Hnow].
    + destruct (Hcov X Y HX HY Hbefore) as (s & Hs & Hs'). exists s.
      split; [|done]. apply elem_of_app. by left.
    + exists new. split; [apply elem_of_app; right; by apply list_elem_of_singleton|].
      apply Hnew. lia.
  - intros s [Hs|Hs%list_elem_of_singleton]%elem_of_app.
    + destruct (Hin s Hs) as (? & ? & ? & ? & ? & [?|(? & ? & ?)]); repeat split; try lia.
    + subst s. simpl. lia.
  - intros i j s s' X Y Hi Hj Hs Hs'.
    apply lookup_app_Some in Hi as [Hi|[Hil Hi]], Hj as [Hj|[Hjl Hj]].
    + by apply (Hdisj i j s s' X Y).
    + apply list_lookup_singleton_Some in Hj as [_ <-].
      apply Hold in Hs; [|by eapply list_elem_of_lookup_2]. apply (proj1 (Hnew _ _)) in Hs'. lia.
    + apply list_lookup_singleton_Some in Hi as [_ <-].
      apply Hold in Hs'; [|by eapply list_elem_of_lookup_2]. apply (proj1 (Hnew _ _)) in Hs. lia.
    + apply list_lookup_singleton_Some in Hi as [Hi _], Hj as [Hj _]. lia.
  - rewrite segmentsArea_app, Harea. simpl. lia.
Qed.

Section partition.
Context (bitmap : ImageData) (T c0 c1 c2 c3 : Z).
Hypothesis HT : 0 < T.
Hypothesis Hc2 : 0 ≤ c2.
Hypothesis Hc3 : 0 ≤ c3.
Hypothesis HW : 0 ≤ width bitmap.
Hypothesis HH : 0 ≤ height bitmap.

Lemma tileLoop_partition fuel st st' :
  Template.segments st = [] →
  Template.tileLoop fuel bitmap T c0 c1 c2 c3 c3 st = Some st' →
  segmentsUpTo (width bitmap) c2 c3 (height bitmap + c3) 0 c2 (Template.segments st').
Proof.
  intros Hnil Hrun.
  apply (tileLoop_at bitmap T c0 c1 c2 c3
           (λ y dy x st, segmentsUpTo (width bitmap) c2 c3 y dy x (Template.segments st))
           (λ y st, segmentsUpTo (width bitmap) c2 c3 y 0 c2 (Template.segments st))
           HT Hc2 Hc3 HW) with (fuel := fuel) (y := c3) (st := st); [..|lia|done|].
  - intros y dy x dx st1 Hy Hdy Hydy _ Hx Hdx Hxdx _ Hinv.
    rewrite chunkSegment_segments. apply segmentsUpTo_step; try done; lia.
  - intros y dy st1 Hy Hdy Hydy (Hcov & Hin & Hdisj & Harea).
    split; [|split; [|split]]; [| |done|lia].
    + intros X Y HX HY Hreg. apply Hcov; [done|done|lia].
    + intros s Hs. destruct (Hin s Hs) as (? & ? & ? & ? & ? & [?|(? & ? & ?)]);
        repeat split; try lia.
  - intros y dy st1 Hy Hdy Hydy (Hcov & Hin & Hdisj & Harea).
    split; [|split; [|split]]; [| |done|lia].
    + intros X Y HX HY Hreg. apply Hcov; [done|done|lia].
    + intros s Hs. destruct (Hin s Hs) as (? & ? & ? & ? & ? & [?|(? & ? & ?)]);
        repeat split; try lia.
  - rewrite Hnil. split; [|split; [|split]].
    + intros X Y HX HY Hreg. lia.
    + intros s Hs. by apply elem_of_nil in Hs.
    + intros i j s s' X Y Hi. done.
    + simpl. lia.
Qed.
End partition.

(** ** Keys of distinct segments *)

Lemma templateTileName_inj (c0 c1 X Y X' Y' : Z) :
  0 ≤ X → 0 ≤ Y → 0 ≤ X' → 0 ≤ Y' →
  0 ≤ c0 + X `div` 1000 < 10000 → 0 ≤ c1 + Y `div` 1000 < 10000 →
  0 ≤ c0 + X' `div` 1000 < 10000 → 0 ≤ c1 + Y' `div` 1000 < 10000 →
  Template.templateTileName c0 c1 X Y = Template.templateTileName c0 c1 X' Y' →
  X = X' ∧ Y = Y'.
Proof.
  intros HX HY HX' HY' Hx Hy Hx' Hy' Heq.
  destruct (templateTileName_format c0 c1 X Y HX HY Hx Hy)
    as (_ & _ & Ht0 & Ht1 & Hp2 & Hp3 & _).
  destruct (templateTileName_format c0 c1 X' Y' HX' HY' Hx' Hy')
    as (_ & _ & Ht0' & Ht1' & Hp2' & Hp3' & _).
  rewrite Heq in Ht0, Ht1, Hp2, Hp3.
  rewrite Ht0 in Ht0'. rewrite Ht1 in Ht1'. rewrite Hp2 in Hp2'. rewrite Hp3 in Hp3'.
  injection Ht0' as Ht0'. injection Ht1' as Ht1'.
  injection Hp2' as Hp2'. injection Hp3' as Hp3'.
  pose proof (Z.div_mod X 1000). pose proof (Z.div_mod X' 1000).
  pose proof (Z.div_mod Y 1000). pose proof (Z.div_mod Y' 1000). lia.
Qed.

Section chunks_of_segments.
Context (bitmap : ImageData) (T c0 c1 c2 c3 : Z).
Hypothesis HT : 0 < T.
Hypothesis Hc0 : 0 ≤ c0.
Hypothesis Hc1 : 0 ≤ c1.
Hypothesis Hc2 : 0 ≤ c2.
Hypothesis Hc3 : 0 ≤ c3.
Hypothesis HW : 0 ≤ width bitmap.
Hypothesis HH : 0 ≤ height bitmap.
Hypothesis HmaxX : c0 + (c2 + width bitmap) `div` 1000 < 10000.
Hypothesis HmaxY : c1 + (c3 + height bitmap) `div` 1000 < 10000.

Lemma tile_field_bound (c p lim : Z) :
  0 ≤ c → 0 ≤ p ≤ lim → c + lim `div` 1000 < 10000 → 0 ≤ c + p `div` 1000 < 10000.
Proof.
  intros Hc Hp Hlim. pose proof (Z.div_le_mono p lim 1000 ltac:(lia) ltac:(lia)).
  pose proof (Z.div_pos p 1000 ltac:(lia) ltac:(lia)). lia.
Qed.

(** The chunks stored so far are those of the segments, in their order. *)
Lemma tileLoop_chunks fuel st st' :
  Template.segments st = [] → Template.templateTiles st = [] →
  Template.tileLoop fuel bitmap T c0 c1 c2 c3 c3 st = Some st' →
  Forall2 (λ s kb, kb.1 = segName s ∧ chunkEncodes bitmap c2 c3 s kb.2)
    (Template.segments st') (Template.templateTiles st') ∧
  NoDup (segName <$> Template.segments st') ∧
  Forall (λ s, segName s = Template.templateTileName c0 c1 (segPixelX s) (segPixelY s) ∧
               chunkWidthPx s = drawSizeX s ∧ chunkHeightPx s = drawSizeY s)
    (Template.segments st') ∧
  Template.chColorsUsed st' =
    foldl (λ cu kb, (Template.rebuildChunk 3 kb.2 cu).2) (Template.chColorsUsed st)
      (Template.templateTiles st').
Proof.
  intros Hnil Hnil' Hrun.
  rename st into st0.
  set (I := λ (y dy x : Z) (st : Template.Chunking),
    segmentsUpTo (width bitmap) c2 c3 y dy x (Template.segments st) ∧
    y ≤ height bitmap + c3 ∧
    Forall2 (λ s kb, kb.1 = segName s ∧ chunkEncodes bitmap c2 c3 s kb.2)
      (Template.segments st) (Template.templateTiles st) ∧
    NoDup (segName <$> Template.segments st) ∧
    Forall (λ s, segName s = Template.templateTileName c0 c1 (segPixelX s) (segPixelY s) ∧
                 chunkWidthPx s = drawSizeX s ∧ chunkHeightPx s = drawSizeY s)
      (Template.segments st) ∧
    Template.chColorsUsed st =
      foldl (λ cu kb, (Template.rebuildChunk 3 kb.2 cu).2) (Template.chColorsUsed st0)
        (Template.templateTiles st)).
  assert (Hfinal : I (height bitmap + c3) 0 c2 st'); [|by destruct Hfinal as (_ & _ & ?)].
  apply (tileLoop_at bitmap T c0 c1 c2 c3 I (λ y st, I y 0 c2 st) HT Hc2 Hc3 HW)
    with (fuel := fuel) (y := c3) (st := st0); [..|lia|done|].
  - intros y dy x dx st1 Hy Hdy Hydy _ Hx Hdx Hxdx _ (Hup & Hyb & Hall & Hnd & Hnames & Hcu).
    pose proof Hup as (_ & Hin & _ & _).
    assert (Hfresh : Template.templateTileName c0 c1 x y ∉ segName <$> Template.segments st1).
    { intros (s & Hname & Hs)%list_elem_of_fmap.
      rewrite Forall_forall in Hnames. destruct (Hnames s Hs) as (Hsn & _).
      rewrite Hsn in Hname.
      destruct (Hin s Hs) as (HdX & HdY & HsX & HsY & HsW & Hbefore).
      assert (HsH : segPixelY s + drawSizeY s ≤ height bitmap + c3)
        by (destruct Hbefore as [?|(? & ? & ?)]; lia).
      apply templateTileName_inj in Hname as [-> ->]; try lia.
      - apply (tile_field_bound c0 x (c2 + width bitmap)); [done|lia|done].
      - apply (tile_field_bound c1 y (c3 + height bitmap)); [done|lia|done].
      - apply (tile_field_bound c0 _ (c2 + width bitmap)); [done|lia|done].
      - apply (tile_field_bound c1 _ (c3 + height bitmap)); [done|lia|done]. }
    destruct (chunkSegment_encodes bitmap c0 c1 c2 c3 x y dx dy st1 Hdx Hdy)
      as (bmp & Htiles & Henc & Hhist).
    rewrite objSet_new in Htiles.
    2:{ replace ((Template.templateTiles st1).*1) with (segName <$> Template.segments st1);
          [done|].
        clear -Hall. induction Hall as [|s kb segs tiles [Hk _] _ IH]; [done|].
        rewrite !fmap_cons. by rewrite IH, Hk. }
    unfold I. rewrite chunkSegment_segments, Htiles, Hhist.
    split; [apply segmentsUpTo_step; try done; lia|]. split; [done|]. split; [|split; [|split]].
    + apply Forall2_app; [done|]. constructor; [done|constructor].
    + rewrite fmap_app. apply NoDup_app. split; [done|]. split.
      * intros k Hk ->%list_elem_of_singleton. done.
      * apply NoDup_singleton.
    + apply Forall_app. split; [done|]. constructor; [done|constructor].
    + rewrite foldl_app. simpl. by rewrite <- Hcu.
  - intros y dy st1 Hy Hdy Hydy ((Hcov & Hin & Hdisj & Harea) & Hyb & Hrest).
    split; [|by split].
    split; [|split; [|split]]; [| |done|lia].
    + intros X Y HX HY Hreg. apply Hcov; [done|done|lia].
    + intros s Hs. destruct (Hin s Hs) as (? & ? & ? & ? & ? & [?|(? & ? & ?)]);
        repeat split; try lia.
  - intros y dy st1 Hy Hdy Hydy ((Hcov & Hin & Hdisj & Harea) & Hyb & Hrest).
    split; [|split; [lia|done]].
    split; [|split; [|split]]; [| |done|lia].
    + intros X Y HX HY Hreg. apply Hcov; [done|done|lia].
    + intros s Hs. destruct (Hin s Hs) as (? & ? & ? & ? & ? & [?|(? & ? & ?)]);
        repeat split; try lia.
  - unfold I. rewrite Hnil, Hnil'. split; [|split; [lia|]].
    + split; [|split; [|split]].
      * intros X Y HX HY Hreg. lia.
      * intros s Hs. by apply elem_of_nil in Hs.
      * intros i j s s' X Y Hi. done.
      * simpl. lia.
    + split; [constructor|]. split; [constructor|]. split; [constructor|done].
Qed.
End chunks_of_segments.

Lemma createTemplateTiles_loop fuel t t' tiles segs bitmap c0 c1 c2 c3 :
  file t = Some bitmap → coords t = Some (c0, c1, c2, c3) →
  Template.createTemplateTiles fuel t = Some (t', tiles, segs) →
  ∃ st, Template.tileLoop fuel bitmap (tileSize t) c0 c1 c2 c3 c3
          (Template.mkChunking [] (colorsUsed t) (centerPixelIndex t) (tileIndex t) [])
        = Some st ∧
        tiles = Template.templateTiles st ∧ segs = Template.segments st ∧
        pixelCount t' = width bitmap * height bitmap ∧
        colorsUsed t' = Template.chColorsUsed st ∧
        centerPixelIndex t' = Template.chCenterPixelIndex st ∧
        tileIndex t' = Template.chTileIndex st ∧
        Template.enableAll (Template.chColorsUsed st) (activeColors t) = Some (activeColors t') ∧
        sortID t' = sortID t ∧ file t' = file t ∧ coords t' = coords t ∧
        chunked t' = chunked t ∧ tileSize t' = tileSize t ∧
        placedPixelKeys t' = placedPixelKeys t ∧ wrongPixelKeys t' = wrongPixelKeys t.
Proof.
  intros Hfile Hcoords. unfold Template.createTemplateTiles. rewrite Hfile, Hcoords. simpl.
  destruct (decide (tileSize t = 0)); [done|].
  destruct (Template.tileLoop _ _ _ _ _ _ _ _ _) as [st|]; simpl; [|done].
  destruct (Template.enableAll _ _) as [ac|] eqn:Hac; simpl; [|done].
  intros [= <- <- <-]. exists st. simpl. by repeat split.
Qed.

(** X2. The segments made by [createTemplateTiles] partition the image: every
    pixel of the image lies in a segment, no pixel lies in two segments, every
    segment lies inside the image, and the areas of the segments add up to
    [pixelCount], the width times the height of the image. *)
Theorem segments_partition_image (fuel : nat) (t t' : Template)
    (tiles : list (string * ImageData)) (segs : list Segment) (bitmap : ImageData)
    (c0 c1 c2 c3 : Z) :
  file t = Some bitmap → coords t = Some (c0, c1, c2, c3) →
  0 < tileSize t → 0 ≤ c2 → 0 ≤ c3 → 0 ≤ width bitmap → 0 ≤ height bitmap →
  Template.createTemplateTiles fuel t = Some (t', tiles, segs) →
  (∀ X Y, c2 ≤ X < c2 + width bitmap → c3 ≤ Y < c3 + height bitmap →
     ∃ s, s ∈ segs ∧ inSegment s X Y) ∧
  (∀ i j s s' X Y, segs !! i = Some s → segs !! j = Some s' →
     inSegment s X Y → inSegment s' X Y → i = j) ∧
  (∀ s X Y, s ∈ segs → inSegment s X Y →
     c2 ≤ X < c2 + width bitmap ∧ c3 ≤ Y < c3 + height bitmap) ∧
  segmentsArea segs = pixelCount t' ∧
  pixelCount t' = width bitmap * height bitmap.
Proof.
  intros Hfile Hcoords HT Hc2 Hc3 HW HH Hrun.
  destruct (createTemplateTiles_loop _ _ _ _ _ _ _ _ _ _ Hfile Hcoords Hrun)
    as (st & Hloop & _ & -> & Hpc & _).
  apply tileLoop_partition in Hloop as (Hcov & Hin & Hdisj & Harea); try done.
  split; [|split; [|split; [|split]]]; try done.
  - intros X Y HX HY. apply Hcov; [done|lia|lia].
  - intros s X Y Hs [HX HY].
    destruct (Hin s Hs) as (? & ? & ? & ? & ? & [?|(? & ? & ?)]); lia.
  - rewrite Harea, Hpc. lia.
Qed.

(** The worked example placed across the corner of four tiles. *)
Lemma segments_partition_image_witness :
  match Examples.chunk Examples.image22 (3, 4, 999, 999) 1000 with
  | Some (t', tiles, segs) =>
      (∀ X Y, 999 ≤ X < 999 + 2 → 999 ≤ Y < 999 + 2 → ∃ s, s ∈ segs ∧ inSegment s X Y) ∧
      (∀ i j s s' X Y, segs !! i = Some s → segs !! j = Some s' →
         inSegment s X Y → inSegment s' X Y → i = j) ∧
      (∀ s X Y, s ∈ segs → inSegment s X Y → 999 ≤ X < 999 + 2 ∧ 999 ≤ Y < 999 + 2) ∧
      segmentsArea segs = pixelCount t' ∧
      pixelCount t' = 2 * 2
  | None => False
  end.
Proof.
  destruct (Examples.chunk Examples.image22 (3, 4, 999, 999) 1000)
    as [[[t' tiles] segs]|] eqn:Hrun.
  - apply (segments_partition_image 5
             (Template.new 0 (Some Examples.image22) (Some (3, 4, 999, 999)) None 1000)
             t' tiles segs Examples.image22 3 4 999 999);
      [reflexivity|reflexivity|simpl; lia|lia|lia|simpl; lia|simpl; lia|exact Hrun].
  - vm_compute in Hrun. discriminate.
Defined.

Lemma chunkEncodes_shows (bitmap : ImageData) (c2 c3 : Z) (s : Segment) (bmp : ImageData) :
  chunkEncodes bitmap c2 c3 s bmp → chunkShows bitmap c2 c3 s bmp.
Proof.
  intros (Hw & Hh & Hlen & Hbytes). split; [done|]. split; [done|]. split; [done|].
  intros X Y HX HY. cbv zeta. split.
  - rewrite (Hbytes X Y 3) by (done || lia).
    destruct (decide (X `mod` 3 = 1 ∧ Y `mod` 3 = 1)) as [Hc|Hc].
    + rewrite decide_False; [done|]. intros [_ Hn]. by apply Hn.
    + by rewrite decide_True.
  - intros _ _ _ c Hc. rewrite (Hbytes X Y c) by (done || lia).
    rewrite decide_False; [done|]. intros [-> _]. lia.
Qed.

(** X3. For a placement with non-negative coordinates whose tiles have at most
    four digits, [createTemplateTiles] returns one bitmap per segment, in the
    order of the segments and under distinct keys: no chunk overwrites
    another. The bitmap of a segment is three times its size; in each 3 x 3
    block the centre has the alpha of the source pixel of the image and the
    other eight pixels have alpha 0; where the source pixel is opaque, the
    centre has its colour. *)
Theorem chunks_encode_segments (fuel : nat) (t t' : Template)
    (tiles : list (string * ImageData)) (segs : list Segment) (bitmap : ImageData)
    (c0 c1 c2 c3 : Z) :
  file t = Some bitmap → coords t = Some (c0, c1, c2, c3) →
  0 < tileSize t → 0 ≤ c0 → 0 ≤ c1 → 0 ≤ c2 → 0 ≤ c3 →
  0 ≤ width bitmap → 0 ≤ height bitmap →
  c0 + (c2 + width bitmap) `div` 1000 < 10000 →
  c1 + (c3 + height bitmap) `div` 1000 < 10000 →
  Template.createTemplateTiles fuel t = Some (t', tiles, segs) →
  Forall2 (λ s kb, kb.1 = segName s ∧ chunkShows bitmap c2 c3 s kb.2) segs tiles ∧
  NoDup (tiles.*1) ∧
  Forall (λ s, segName s = Template.templateTileName c0 c1 (segPixelX s) (segPixelY s)) segs.
Proof.
  intros Hfile Hcoords HT Hc0 Hc1 Hc2 Hc3 HW HH HmaxX HmaxY Hrun.
  destruct (createTemplateTiles_loop _ _ _ _ _ _ _ _ _ _ Hfile Hcoords Hrun)
    as (st & Hloop & -> & -> & _).
  apply tileLoop_chunks in Hloop as (Hall & Hnd & Hnames & _); try done.
  split; [|split].
  - eapply Forall2_impl; [exact Hall|]. intros s kb [Hk Henc].
    split; [done|]. by apply chunkEncodes_shows.
  - replace ((Template.templateTiles st).*1) with (segName <$> Template.segments st);
      [done|].
    clear -Hall. induction Hall as [|s kb segs tiles [Hk _] _ IH]; [done|].
    rewrite !fmap_cons. by rewrite IH, Hk.
  - eapply Forall_impl; [exact Hnames|]. by intros s (? & _).
Qed.

(** The worked example placed across the corner of four tiles. *)
Lemma chunks_encode_segments_witness :
  match Examples.chunk Examples.image22 (3, 4, 999, 999) 1000 with
  | Some (t', tiles, segs) =>
      Forall2 (λ s kb, kb.1 = segName s ∧ chunkShows Examples.image22 999 999 s kb.2)
        segs tiles ∧
      NoDup (tiles.*1) ∧
      Forall (λ s, segName s = Template.templateTileName 3 4 (segPixelX s) (segPixelY s)) segs
  | None => False
  end.
Proof.
  destruct (Examples.chunk Examples.image22 (3, 4, 999, 999) 1000)
    as [[[t' tiles] segs]|] eqn:Hrun.
  - apply (chunks_encode_segments 5
             (Template.new 0 (Some Examples.image22) (Some (3, 4, 999, 999)) None 1000)
             t' tiles segs Examples.image22 3 4 999 999);
      [reflexivity|reflexivity|simpl; lia|lia|lia|lia|lia|simpl; lia|simpl; lia
      |vm_compute; reflexivity|vm_compute; reflexivity|exact Hrun].
  - vm_compute in Hrun. discriminate.
Defined.

(** ** The tile index *)

Lemma tileIndex_step_eq (ti : gmap string (list string)) (key : string) :
  (let tileXY := Template.tileXYOf key in
   let ti' := if decide (is_Some (ti !! tileXY)) then ti else <[tileXY := []]> ti in
   <[tileXY := default [] (ti' !! tileXY) ++ [key]]> ti') =
  <[Template.tileXYOf key := default [] (ti !! Template.tileXYOf key) ++ [key]]> ti.
Proof.
  cbv zeta. destruct (decide (is_Some (ti !! Template.tileXYOf key))) as [Hs|Hn]; [done|].
  rewrite lookup_insert_eq, insert_insert_eq.
  apply eq_None_not_Some in Hn. by rewrite Hn.
Qed.

Lemma tileIndex_fold_lookup (keys : list string) (ti : gmap string (list string))
    (xy : string) :
  default [] (foldl (λ ti key,
                       <[Template.tileXYOf key :=
                           default [] (ti !! Template.tileXYOf key) ++ [key]]> ti)
                    ti keys !! xy) =
  default [] (ti !! xy) ++ filter (λ k, Template.tileXYOf k = xy) keys.
Proof.
  revert ti. induction keys as [|k r IH]; intros ti; simpl.
  - by rewrite app_nil_r.
  - rewrite IH. destruct (decide (Template.tileXYOf k = xy)) as [<-|Hne].
    + rewrite lookup_insert_eq. simpl. rewrite filter_cons_True by done.
      by rewrite <- app_assoc.
    + rewrite lookup_insert_ne by done. by rewrite filter_cons_False.
Qed.

Lemma buildTileIndex_fold (t : Template) (c : list (string * ImageData)) :
  chunked t = Some c →
  tileIndex (Template.buildTileIndex t) =
  foldl (λ ti key,
           <[Template.tileXYOf key := default [] (ti !! Template.tileXYOf key) ++ [key]]> ti)
        ∅ (c.*1).
Proof.
  intros Hc. unfold Template.buildTileIndex. rewrite Hc. simpl.
  generalize (∅ : gmap string (list string)).
  induction (c.*1) as [|k r IH]; intros ti; simpl; [done|].
  rewrite tileIndex_step_eq. apply IH.
Qed.

(** X4. After [buildTileIndex], the chunk keys listed for a tile are the keys
    of [chunked] whose first two fields name the tile, in the order of
    [chunked]; a template without chunks lists nothing. *)
Theorem buildTileIndex_lists_tile_keys (t : Template) (xy : string) :
  TemplateManager.matchingTiles xy (Template.buildTileIndex t) =
  filter (λ k, Template.tileXYOf k = xy) (default [] (chunked t)).*1.
Proof.
  unfold TemplateManager.matchingTiles.
  destruct (chunked t) as [c|] eqn:Hc.
  - rewrite (buildTileIndex_fold t c Hc), tileIndex_fold_lookup. by rewrite lookup_empty.
  - unfold Template.buildTileIndex. rewrite Hc. simpl. by rewrite lookup_empty.
Qed.

Lemma chunkSegment_tileIndex bitmap c0 c1 c2 c3 x y dx dy st :
  Template.chTileIndex (Template.chunkSegment bitmap c0 c1 c2 c3 x y dx dy st) =
  let name := Template.templateTileName c0 c1 x y in
  <[Template.tileXYOf name :=
      default [] (Template.chTileIndex st !! Template.tileXYOf name) ++ [name]]>
    (Template.chTileIndex st).
Proof.
  unfold Template.chunkSegment. cbv zeta. by destruct (Template.shred _ _ _).
Qed.

Lemma tileLoop_tileIndex bitmap fuel T c0 c1 c2 c3 y st st' :
  Template.segments st = [] →
  Template.tileLoop fuel bitmap T c0 c1 c2 c3 y st = Some st' →
  Template.chTileIndex st' =
  foldl (λ ti key,
           <[Template.tileXYOf key := default [] (ti !! Template.tileXYOf key) ++ [key]]> ti)
        (Template.chTileIndex st) (segName <$> Template.segments st').
Proof.
  intros Hnil Hrun.
  pose (P := λ s : Template.Chunking,
    Template.chTileIndex s =
    foldl (λ ti key,
             <[Template.tileXYOf key := default [] (ti !! Template.tileXYOf key) ++ [key]]> ti)
          (Template.chTileIndex st) (segName <$> Template.segments s)).
  apply (tileLoop_inv P bitmap c0 c1 c2 c3) in Hrun; [done| |].
  - intros x' y' dx dy s _ _ HP. unfold P in *.
    rewrite chunkSegment_tileIndex, chunkSegment_segments. cbv zeta.
    rewrite fmap_app, foldl_app. simpl. by rewrite <- HP.
  - unfold P. by rewrite Hnil.
Qed.

(** ** Importing the chunks of a created template *)

Lemma computedTotalPixels_area (bitmap : ImageData) (c2 c3 : Z) (segs : list Segment)
    (tiles : list (string * ImageData)) (acc : Z) :
  Forall2 (λ s kb, kb.1 = segName s ∧ chunkEncodes bitmap c2 c3 s kb.2) segs tiles →
  foldl (λ acc '(_, bmp), acc + (width bmp `div` 3) * (height bmp `div` 3)) acc tiles =
  acc + segmentsArea segs.
Proof.
  intros Hall. revert acc.
  induction Hall as [|s [k bmp] segs tiles [_ (Hw & Hh & _)] _ IH]; intros acc; simpl.
  - lia.
  - rewrite IH. simpl in Hw, Hh. rewrite Hw, Hh, !Z.div_mul by lia. lia.
Qed.

Lemma buildCenterPixelIndex_of_chunked (dm : Z) (t t' u : Template) :
  chunked u = chunked t → is_Some (chunked t) →
  Template.buildCenterPixelIndex dm t = Some t' →
  Template.buildCenterPixelIndex dm u =
  Some (mkTemplate (sortID u) (file u) (coords u) (chunked u) (tileSize u) (pixelCount u)
          (placedPixelKeys u) (wrongPixelKeys u) (colorsUsed t') (activeColors t')
          (centerPixelIndex t') (tileIndex u)) ∧
  t' = mkTemplate (sortID t) (file t) (coords t) (chunked t) (tileSize t) (pixelCount t)
         (placedPixelKeys t) (wrongPixelKeys t) (colorsUsed t') (activeColors t')
         (centerPixelIndex t') (tileIndex t).
Proof.
  intros Hc [c Hsome]. unfold Template.buildCenterPixelIndex. rewrite Hc, Hsome.
  destruct (decide (dm = 0)); [done|].
  destruct (foldl _ _ _) as [cpi cu]. intros [= <-]. done.
Qed.

(** X5. A template made by [createTemplate] (non-negative coordinates, tiles of
    at most four digits, multiplier 3) is restored from its chunk bitmaps:
    importing them into a manager without templates gives the template that
    [createTemplate] stored, but for [file] and [coords], which are not
    exported. In particular the pixel count computed from the chunks is the
    width times the height of the image. *)
Theorem import_restores_created_template (fuel : nat) (blob : ImageData)
    (c0 c1 c2 c3 : Z) (m m1 : TemplateManager) :
  drawMult m = 3 → 0 ≤ c0 → 0 ≤ c1 → 0 ≤ c2 → 0 ≤ c3 →
  0 ≤ width blob → 0 ≤ height blob →
  c0 + (c2 + width blob) `div` 1000 < 10000 →
  c1 + (c3 + height blob) `div` 1000 < 10000 →
  TemplateManager.createTemplate fuel blob (c0, c1, c2, c3) m = Some m1 →
  ∃ t1 tiles,
    templatesArray m1 = [t1] ∧ chunked t1 = Some tiles ∧
    pixelCount t1 = width blob * height blob ∧
    TemplateManager.importTemplate 0 tiles (TemplateManager.withTemplates m []) =
    Some (TemplateManager.withTemplates m
            [mkTemplate (sortID t1) None None (chunked t1) (tileSize t1) (pixelCount t1)
               (placedPixelKeys t1) (wrongPixelKeys t1) (colorsUsed t1) (activeColors t1)
               (centerPixelIndex t1) (tileIndex t1)]).
Proof.
  intros Hdm Hc0 Hc1 Hc2 Hc3 HW HH HmaxX HmaxY. unfold TemplateManager.createTemplate.
  destruct (Template.createTemplateTiles fuel _) as [[[t1 tiles] segs]|] eqn:Hrun;
    simpl; [|done].
  destruct (Template.buildCenterPixelIndex _ _) as [t4|] eqn:Hbuild; simpl; [|done].
  intros [= <-]. simpl.
  destruct (createTemplateTiles_loop fuel
              (Template.new 0 (Some blob) (Some (c0, c1, c2, c3)) None 1000)
              t1 tiles segs blob c0 c1 c2 c3 eq_refl eq_refl Hrun)
    as (st & Hloop & -> & -> & Hpc & _ & _ & _ & _ & Hsid & _ & _ & _ & Hts & Hp & Hw).
  simpl in Hloop, Hsid, Hts, Hp, Hw.
  destruct (tileLoop_partition blob 1000 c0 c1 c2 c3 ltac:(lia) Hc2 Hc3 HW HH fuel
              (Template.mkChunking [] ∅ ∅ ∅ []) st eq_refl Hloop) as (_ & _ & _ & Harea).
  apply tileLoop_chunks in Hloop as (Hall & _ & _ & _); try done.
  eexists _, _. split; [reflexivity|].
  set (u2 := Template.buildTileIndex
               (Template.withChunked (Template.new 0 None None None 1000)
                  (Some (Template.templateTiles st)))).
  destruct (buildCenterPixelIndex_of_chunked (drawMult m)
              (Template.buildTileIndex
                 (Template.withChunked t1 (Some (Template.templateTiles st)))) t4 u2)
    as [Hu Ht4]; [| |exact Hbuild|].
  { subst u2. unfold Template.buildTileIndex. done. }
  { unfold Template.buildTileIndex. simpl. by eexists. }
  rewrite Ht4. simpl. split; [done|]. split; [done|].
  unfold TemplateManager.importTemplate. cbv zeta.
  cbn [TemplateManager.withTemplates templatesArray drawMult length].
  rewrite decide_True by done. change (Z.of_nat 0) with 0. fold u2. rewrite Hu. simpl.
  rewrite Hdm.
  rewrite (computedTotalPixels_area blob c2 c3 (Template.segments st)) by done.
  rewrite Harea, Hsid, Hts, Hw, Hpc.
  do 3 f_equal. f_equal; lia.
Qed.

(** The worked example, created and imported again. *)
Lemma import_restores_created_template_witness :
  match TemplateManager.createTemplate 5 Examples.image22 (0, 0, 0, 0) TemplateManager.new with
  | Some m1 =>
      ∃ t1 tiles,
        templatesArray m1 = [t1] ∧ chunked t1 = Some tiles ∧
        pixelCount t1 = 2 * 2 ∧
        TemplateManager.importTemplate 0 tiles
          (TemplateManager.withTemplates TemplateManager.new []) =
        Some (TemplateManager.withTemplates TemplateManager.new
                [mkTemplate (sortID t1) None None (chunked t1) (tileSize t1) (pixelCount t1)
                   (placedPixelKeys t1) (wrongPixelKeys t1) (colorsUsed t1) (activeColors t1)
                   (centerPixelIndex t1) (tileIndex t1)])
  | None => False
  end.
Proof.
  destruct (TemplateManager.createTemplate 5 Examples.image22 (0, 0, 0, 0) TemplateManager.new)
    as [m1|] eqn:Hrun.
  - apply (import_restores_created_template 5 Examples.image22 0 0 0 0 TemplateManager.new m1);
      [reflexivity|lia|lia|lia|lia|simpl; lia|simpl; lia
      |vm_compute; reflexivity|vm_compute; reflexivity|exact Hrun].
  - vm_compute in Hrun. discriminate.
Defined.

Lemma tileCoordsString_inj (x y x' y' : Z) :
  0 ≤ x < 10000 → 0 ≤ y < 10000 → 0 ≤ x' < 10000 → 0 ≤ y' < 10000 →
  TemplateManager.tileCoordsString (x, y) = TemplateManager.tileCoordsString (x', y') →
  x = x' ∧ y = y'.
Proof.
  intros Hx Hy Hx' Hy' Heq.
  destruct (tileCoordsString_fields x y Hx Hy) as [H0 H1].
  destruct (tileCoordsString_fields x' y' Hx' Hy') as [H0' H1'].
  rewrite Heq in H0, H1. rewrite H0 in H0'. rewrite H1 in H1'.
  by injection H0' as ->; injection H1' as ->.
Qed.

Lemma filter_fmap_segName (P : string → Prop) `{!∀ k, Decision (P k)}
    (Q : Segment → Prop) `{!∀ s, Decision (Q s)} (segs : list Segment) :
  Forall (λ s, P (segName s) ↔ Q s) segs →
  filter P (segName <$> segs) = segName <$> filter Q segs.
Proof.
  induction 1 as [|s r Hs _ IH]; [done|]. rewrite fmap_cons.
  destruct (decide (Q s)) as [HQ|HQ].
  - rewrite !filter_cons_True by tauto. by rewrite fmap_cons, IH.
  - rewrite !filter_cons_False by tauto. done.
Qed.

(** X6. After [createTemplateTiles] on a template whose tile index was empty
    (non-negative coordinates, tiles of at most four digits), the chunk keys
    that [drawTemplateOnTile] finds for the tile [(tx, ty)] are the keys of
    the segments that start in that tile, in the order of the chunking; and
    [buildTileIndex] on the returned bitmaps builds the same index again. *)
Theorem tile_lookup_finds_segments (fuel : nat) (t t' : Template)
    (tiles : list (string * ImageData)) (segs : list Segment) (bitmap : ImageData)
    (c0 c1 c2 c3 tx ty : Z) :
  file t = Some bitmap → coords t = Some (c0, c1, c2, c3) → tileIndex t = ∅ →
  0 < tileSize t → 0 ≤ c0 → 0 ≤ c1 → 0 ≤ c2 → 0 ≤ c3 →
  0 ≤ width bitmap → 0 ≤ height bitmap →
  c0 + (c2 + width bitmap) `div` 1000 < 10000 →
  c1 + (c3 + height bitmap) `div` 1000 < 10000 →
  0 ≤ tx < 10000 → 0 ≤ ty < 10000 →
  Template.createTemplateTiles fuel t = Some (t', tiles, segs) →
  TemplateManager.matchingTiles (TemplateManager.tileCoordsString (tx, ty)) t' =
    segName <$> filter (λ s, c0 + segPixelX s `div` 1000 = tx ∧
                             c1 + segPixelY s `div` 1000 = ty) segs ∧
  tileIndex (Template.buildTileIndex (Template.withChunked t' (Some tiles))) = tileIndex t'.
Proof.
  intros Hfile Hcoords Hempty HT Hc0 Hc1 Hc2 Hc3 HW HH HmaxX HmaxY Htx Hty Hrun.
  destruct (createTemplateTiles_loop _ _ _ _ _ _ _ _ _ _ Hfile Hcoords Hrun)
    as (st & Hloop & -> & -> & _ & _ & _ & Hti & _).
  set (st0 := Template.mkChunking [] (colorsUsed t) (centerPixelIndex t) (tileIndex t) [])
    in Hloop.
  pose proof (tileLoop_tileIndex bitmap fuel (tileSize t) c0 c1 c2 c3 c3 st0 st
                eq_refl Hloop) as Hidx.
  simpl in Hidx. rewrite Hempty in Hidx.
  destruct (tileLoop_partition bitmap (tileSize t) c0 c1 c2 c3 HT Hc2 Hc3 HW HH fuel
              st0 st eq_refl Hloop) as (_ & Hin & _ & _).
  apply tileLoop_chunks in Hloop as (Hall & _ & Hnames & _); try done.
  assert (Hkeys : (Template.templateTiles st).*1 = segName <$> Template.segments st).
  { clear -Hall. induction Hall as [|s kb segs tiles [Hk _] _ IH]; [done|].
    rewrite !fmap_cons. by rewrite IH, Hk. }
  split.
  - unfold TemplateManager.matchingTiles. rewrite Hti, Hidx, tileIndex_fold_lookup.
    rewrite lookup_empty. simpl. apply filter_fmap_segName.
    apply Forall_forall. intros s Hs.
    rewrite Forall_forall in Hnames. destruct (Hnames s Hs) as (Hname & _).
    destruct (Hin s Hs) as (HdX & HdY & HsX & HsY & HsW & Hbefore).
    assert (HsH : segPixelY s + drawSizeY s ≤ height bitmap + c3)
      by (destruct Hbefore as [?|(? & ? & ?)]; lia).
    pose proof (tile_field_bound c0 (segPixelX s) (c2 + width bitmap) Hc0
                  ltac:(lia) HmaxX) as HbX.
    pose proof (tile_field_bound c1 (segPixelY s) (c3 + height bitmap) Hc1
                  ltac:(lia) HmaxY) as HbY.
    destruct (templateTileName_format c0 c1 (segPixelX s) (segPixelY s)
                ltac:(lia) ltac:(lia) HbX HbY) as (_ & _ & _ & _ & _ & _ & _ & _ & Hxy).
    rewrite Hname, Hxy. split.
    + intros Heq. by apply tileCoordsString_inj in Heq.
    + by intros [-> ->].
  - rewrite (buildTileIndex_fold _ (Template.templateTiles st)) by done.
    by rewrite Hkeys, Hti, Hidx.
Qed.

(** The worked example placed across the corner of four tiles, looked up at
    the last of them. *)
Lemma tile_lookup_finds_segments_witness :
  match Examples.chunk Examples.image22 (3, 4, 999, 999) 1000 with
  | Some (t', tiles, segs) =>
      TemplateManager.matchingTiles (TemplateManager.tileCoordsString (4, 5)) t' =
        segName <$> filter (λ s, 3 + segPixelX s `div` 1000 = 4 ∧
                                 4 + segPixelY s `div` 1000 = 5) segs ∧
      tileIndex (Template.buildTileIndex (Template.withChunked t' (Some tiles))) = tileIndex t'
  | None => False
  end.
Proof.
  destruct (Examples.chunk Examples.image22 (3, 4, 999, 999) 1000)
    as [[[t' tiles] segs]|] eqn:Hrun.
  - apply (tile_lookup_finds_segments 5
             (Template.new 0 (Some Examples.image22) (Some (3, 4, 999, 999)) None 1000)
             t' tiles segs Examples.image22 3 4 999 999 4 5);
      [reflexivity|reflexivity|reflexivity|simpl; lia|lia|lia|lia|lia|simpl; lia|simpl; lia
      |vm_compute; reflexivity|vm_compute; reflexivity|lia|lia|exact Hrun].
  - vm_compute in Hrun. discriminate.
Defined.

Lemma rebuild_fold_snd (c : list (string * ImageData))
    (acc : gmap string CenterInfo * gmap string Z) :
  (foldl (λ '(cpi, cu) '(key, bmp),
            let '(ci, cu') := Template.rebuildChunk 3 bmp cu in
            (<[key := ci]> cpi, cu'))
         acc c).2 =
  foldl (λ cu kb, (Template.rebuildChunk 3 kb.2 cu).2) acc.2 c.
Proof.
  revert acc. induction c as [|[k b] r IH]; intros [cpi cu]; simpl; [done|].
  destruct (Template.rebuildChunk 3 b cu) as [ci cu'] eqn:Hci. by rewrite IH.
Qed.

(** X7. The colour histogram that [createTemplateTiles] counts while it
    chunks (on a template whose histogram was empty; non-negative coordinates,
    tiles of at most four digits) is the histogram that
    [buildCenterPixelIndex] counts from the returned bitmaps, on any template
    whose [chunked] holds them and whatever histogram it had; if no colour
    was enabled before the chunking, the enabled colours are the same as
    well. *)
Theorem histogram_round_trip (fuel : nat) (t t' u : Template)
    (tiles : list (string * ImageData)) (segs : list Segment) (bitmap : ImageData)
    (c0 c1 c2 c3 : Z) :
  file t = Some bitmap → coords t = Some (c0, c1, c2, c3) → colorsUsed t = ∅ →
  0 < tileSize t → 0 ≤ c0 → 0 ≤ c1 → 0 ≤ c2 → 0 ≤ c3 →
  0 ≤ width bitmap → 0 ≤ height bitmap →
  c0 + (c2 + width bitmap) `div` 1000 < 10000 →
  c1 + (c3 + height bitmap) `div` 1000 < 10000 →
  Template.createTemplateTiles fuel t = Some (t', tiles, segs) →
  chunked u = Some tiles →
  ∃ u', Template.buildCenterPixelIndex 3 u = Some u' ∧
        colorsUsed u' = colorsUsed t' ∧
        (activeColors t = Some ∅ → activeColors u' = activeColors t').
Proof.
  intros Hfile Hcoords Hempty HT Hc0 Hc1 Hc2 Hc3 HW HH HmaxX HmaxY Hrun Hu.
  destruct (createTemplateTiles_loop _ _ _ _ _ _ _ _ _ _ Hfile Hcoords Hrun)
    as (st & Hloop & -> & -> & _ & Hcu & _ & _ & Hac & _).
  apply tileLoop_chunks in Hloop as (_ & _ & _ & Hhist); try done.
  simpl in Hhist. rewrite Hempty in Hhist.
  unfold Template.buildCenterPixelIndex. rewrite Hu. simpl.
  destruct (foldl _ (∅, ∅) _) as [cpi cu] eqn:Hfold.
  apply (f_equal snd) in Hfold. rewrite rebuild_fold_snd in Hfold. simpl in Hfold.
  eexists. split; [reflexivity|]. simpl.
  rewrite Hcu, Hhist, Hfold. split; [done|].
  intros Hac0. rewrite Hac0 in Hac. simpl in Hac. injection Hac as <-.
  rewrite Hhist, Hfold. f_equal. set_solver.
Qed.

(** The worked example placed across the corner of four tiles, counted again
    on a template that holds the chunks and a stale histogram of its own. *)
Lemma histogram_round_trip_witness :
  match Examples.chunk Examples.image22 (3, 4, 999, 999) 1000 with
  | Some (t', tiles, segs) =>
      let u := mkTemplate 7 None None (Some tiles) 1000 0 ∅ ∅
                 {["1,2,3"%string := 9]} None ∅ ∅ in
      ∃ u', Template.buildCenterPixelIndex 3 u = Some u' ∧
            colorsUsed u' = colorsUsed t' ∧
            (activeColors (Template.new 0 (Some Examples.image22) (Some (3, 4, 999, 999))
                             None 1000) = Some ∅ →
             activeColors u' = activeColors t')
  | None => False
  end.
Proof.
  destruct (Examples.chunk Examples.image22 (3, 4, 999, 999) 1000)
    as [[[t' tiles] segs]|] eqn:Hrun.
  - intros u.
    apply (histogram_round_trip 5
             (Template.new 0 (Some Examples.image22) (Some (3, 4, 999, 999)) None 1000)
             t' u tiles segs Examples.image22 3 4 999 999);
      [reflexivity|reflexivity|reflexivity|simpl; lia|lia|lia|lia|lia|simpl; lia|simpl; lia
      |vm_compute; reflexivity|vm_compute; reflexivity|exact Hrun|reflexivity].
  - vm_compute in Hrun. discriminate.
Defined.

(** ** What the histogram counts *)

Lemma forZ_foldl {S : Type} (n : Z) (body : Z → S → S) (s : S) :
  JS.forZ n body s = foldl (λ s i, body i s) s (seqZ 0 n).
Proof.
  unfold JS.forZ. destruct (decide (0 ≤ n)) as [Hn|Hn].
  - rewrite <- (Z2Nat.id n) at 2 by done.
    induction (Z.to_nat n) as [|k IH]; [done|].
    rewrite seqZ_S, foldl_app. simpl. by rewrite IH, Z.add_0_l.
  - rewrite seqZ_nil by lia. by replace (Z.to_nat n) with O by lia.
Qed.

Lemma foldl_bind {A B C : Type} (f : A → B → A) (g : C → list B) (l : list C) (a : A) :
  foldl f a (l ≫= g) = foldl (λ a c, foldl f a (g c)) a l.
Proof.
  revert a. induction l as [|c r IH]; intros a; [done|].
  rewrite bind_cons, foldl_app. simpl. by rewrite IH.
Qed.

Lemma foldl_pointwise {A B : Type} (f g : A → B → A) (l : list B) (a : A) :
  (∀ a b, f a b = g a b) → foldl f a l = foldl g a l.
Proof.
  intros Hfg. revert a. induction l as [|b r IH]; intros a; [done|].
  simpl. by rewrite Hfg, IH.
Qed.

Lemma countCenters_foldl (bmp : ImageData) (cu : gmap string Z) :
  countCenters (data bmp) (width bmp) (width bmp `div` 3) (height bmp `div` 3) cu =
  foldl (λ cu key, <[key := default 0 (cu !! key) + 1]> cu) cu (centerKeys bmp).
Proof.
  unfold countCenters, centerKeys. rewrite forZ_foldl, foldl_bind.
  apply foldl_pointwise. intros cu1 y. rewrite forZ_foldl, foldl_bind.
  apply foldl_pointwise. intros cu2 x. unfold countCenter, sampleKey. cbv zeta.
  by destruct (JS.is0 _).
Qed.

Lemma count_fold_lookup (keys : list string) (cu : gmap string Z) (k : string) :
  default 0 (foldl (λ cu key, <[key := default 0 (cu !! key) + 1]> cu) cu keys !! k) =
  default 0 (cu !! k) + Z.of_nat (length (filter (λ key, key = k) keys)).
Proof.
  revert cu. induction keys as [|key r IH]; intros cu; simpl; [lia|].
  rewrite IH. destruct (decide (key = k)) as [->|Hne].
  - rewrite filter_cons_True by done. rewrite lookup_insert_eq. simpl. lia.
  - rewrite filter_cons_False by done. by rewrite lookup_insert_ne.
Qed.

Lemma count_fold_dom (keys : list string) (cu : gmap string Z) :
  dom (foldl (λ cu key, <[key := default 0 (cu !! key) + 1]> cu) cu keys) =
  dom cu ∪ list_to_set keys.
Proof.
  revert cu. induction keys as [|key r IH]; intros cu; simpl.
  - set_solver.
  - rewrite IH, dom_insert_L. set_solver.
Qed.

Lemma rebuild_fold_keys (c : list (string * ImageData)) (cu : gmap string Z) :
  Forall (λ kb, 0 ≤ width kb.2 ∧ 0 ≤ height kb.2 ∧
                Z.of_nat (length (data kb.2)) = 4 * width kb.2 * height kb.2) c →
  foldl (λ cu kb, (Template.rebuildChunk 3 kb.2 cu).2) cu c =
  foldl (λ cu key, <[key := default 0 (cu !! key) + 1]> cu) cu (c ≫= λ kb, centerKeys kb.2).
Proof.
  intros Hwf. revert cu. induction Hwf as [|[k bmp] r (Hw & Hh & Hlen) _ IH]; intros cu; [done|].
  rewrite bind_cons, foldl_app. simpl in *. rewrite IH. f_equal.
  rewrite rebuildChunk_snd, drawImageCopy_data by done. apply countCenters_foldl.
Qed.

(** X8. After [buildCenterPixelIndex] with the multiplier 3 on well-formed chunk
    bitmaps, the histogram [colorsUsed] holds for every colour the number of
    centre samples of that colour that are not transparent, over all chunks;
    its keys, which are also the enabled colours, are the colours that occur. *)
Theorem histogram_counts_center_samples (t t' : Template) (c : list (string * ImageData))
    (k : string) :
  chunked t = Some c →
  Forall (λ kb, 0 ≤ width kb.2 ∧ 0 ≤ height kb.2 ∧
                Z.of_nat (length (data kb.2)) = 4 * width kb.2 * height kb.2) c →
  Template.buildCenterPixelIndex 3 t = Some t' →
  let keys := c ≫= λ kb, centerKeys kb.2 in
  default 0 (colorsUsed t' !! k) = Z.of_nat (length (filter (λ key, key = k) keys)) ∧
  (k ∈ dom (colorsUsed t') ↔ k ∈ keys) ∧
  activeColors t' = Some (dom (colorsUsed t')).
Proof.
  intros Hc Hwf. unfold Template.buildCenterPixelIndex. rewrite Hc. simpl.
  destruct (foldl _ (∅, ∅) _) as [cpi cu] eqn:Hfold.
  apply (f_equal snd) in Hfold. rewrite rebuild_fold_snd in Hfold. simpl in Hfold.
  rewrite rebuild_fold_keys in Hfold by done.
  intros [= <-]. cbv zeta. simpl. subst cu.
  rewrite count_fold_lookup, count_fold_dom. rewrite lookup_empty, dom_empty_L. simpl.
  split; [lia|]. split; [|done]. set_solver.
Qed.

(** A chunk of one red block. *)
Lemma histogram_counts_center_samples_witness :
  match Template.buildCenterPixelIndex 3 Examples.blueOnly with
  | Some t' =>
      let keys := [("0000,0000,000,000"%string, Examples.redBlock)] ≫= λ kb, centerKeys kb.2 in
      default 0 (colorsUsed t' !! "255,0,0"%string) =
        Z.of_nat (length (filter (λ key, key = "255,0,0"%string) keys)) ∧
      ("255,0,0"%string ∈ dom (colorsUsed t') ↔ "255,0,0"%string ∈ keys) ∧
      activeColors t' = Some (dom (colorsUsed t'))
  | None => False
  end.
Proof.
  destruct (Template.buildCenterPixelIndex 3 Examples.blueOnly) as [t'|] eqn:Hrun.
  - apply (histogram_counts_center_samples Examples.blueOnly t'
             [("0000,0000,000,000"%string, Examples.redBlock)] "255,0,0");
      [reflexivity| |exact Hrun].
    constructor; [|constructor]. simpl. lia.
  - vm_compute in Hrun. discriminate.
Defined.

(** ** The histogram of a created template counts the pixels of the image *)

Lemma filter_bind_length {A B C : Type} (P : B → Prop) `{!∀ b, Decision (P b)}
    (Q : C → Prop) `{!∀ c, Decision (Q c)} (f : A → list B) (g : A → list C) (l : list A) :
  (∀ a, a ∈ l → length (filter P (f a)) = length (filter Q (g a))) →
  length (filter P (l ≫= f)) = length (filter Q (l ≫= g)).
Proof.
  induction l as [|a r IH]; intros Hfg; [done|].
  rewrite !bind_cons, !filter_app, !length_app.
  rewrite (Hfg a) by (apply elem_of_cons; by left).
  rewrite IH; [done|]. intros a' Ha'. apply Hfg. apply elem_of_cons. by right.
Qed.

Lemma filter_bind_app_length {A B : Type} (P : B → Prop) `{!∀ b, Decision (P b)}
    (f g : A → list B) (l : list A) :
  length (filter P (l ≫= λ a, f a ++ g a)) =
  (length (filter P (l ≫= f)) + length (filter P (l ≫= g)))%nat.
Proof.
  induction l as [|a r IH]; [done|].
  rewrite !bind_cons, !filter_app, !length_app, IH. lia.
Qed.

Lemma seqZ_split (a b : Z) : 0 ≤ a → 0 ≤ b → seqZ 0 (a + b) = seqZ 0 a ++ (Z.add a <$> seqZ 0 b).
Proof.
  intros Ha Hb. rewrite seqZ_app by done. f_equal.
  rewrite fmap_add_seqZ. f_equal. lia.
Qed.

Lemma countColor_beside (img : ImageData) (k : string) (x0 y0 w1 w2 h : Z) :
  0 ≤ w1 → 0 ≤ w2 →
  countColor img k x0 y0 (w1 + w2) h =
  countColor img k x0 y0 w1 h + countColor img k (x0 + w1) y0 w2 h.
Proof.
  intros Hw1 Hw2. unfold countColor, rectPixels.
  rewrite <- Nat2Z.inj_add. f_equal.
  rewrite <- filter_bind_app_length. f_equal. f_equal.
  apply list_bind_ext; [|done]. intros y.
  rewrite seqZ_split by done. rewrite bind_app. f_equal.
  rewrite list_fmap_bind. apply list_bind_ext; [|done]. intros x. simpl.
  do 2 f_equal. lia.
Qed.

Lemma countColor_below (img : ImageData) (k : string) (x0 y0 w h1 h2 : Z) :
  0 ≤ h1 → 0 ≤ h2 →
  countColor img k x0 y0 w (h1 + h2) =
  countColor img k x0 y0 w h1 + countColor img k x0 (y0 + h1) w h2.
Proof.
  intros Hh1 Hh2. unfold countColor, rectPixels.
  rewrite seqZ_split by done. rewrite bind_app, filter_app, length_app, Nat2Z.inj_add.
  f_equal. do 3 f_equal. rewrite list_fmap_bind. apply list_bind_ext; [|done].
  intros y. apply list_bind_ext; [|done]. intros x. simpl. do 2 f_equal. lia.
Qed.

Lemma countColor_empty (img : ImageData) (k : string) (x0 y0 h : Z) :
  countColor img k x0 y0 0 h = 0.
Proof.
  unfold countColor, rectPixels.
  assert ((seqZ 0 h ≫= λ y, seqZ 0 0 ≫= λ x, [(x0 + x, y0 + y)]) = []) as ->; [|done].
  induction (seqZ 0 h) as [|y r IH]; [done|]. by rewrite bind_cons, IH.
Qed.

Lemma countColor_none (img : ImageData) (k : string) (x0 y0 w : Z) :
  countColor img k x0 y0 w 0 = 0.
Proof. done. Qed.

Lemma centerKeys_count (bitmap : ImageData) (c2 c3 : Z) (s : Segment) (bmp : ImageData)
    (k : string) :
  Z.of_nat (length (data bitmap)) = 4 * width bitmap * height bitmap →
  0 ≤ segPixelX s - c2 → segPixelX s - c2 + drawSizeX s ≤ width bitmap →
  0 ≤ segPixelY s - c3 → segPixelY s - c3 + drawSizeY s ≤ height bitmap →
  0 ≤ drawSizeX s → 0 ≤ drawSizeY s →
  chunkEncodes bitmap c2 c3 s bmp →
  Z.of_nat (length (filter (λ key, key = k) (centerKeys bmp))) =
  countColor bitmap k (segPixelX s - c2) (segPixelY s - c3) (drawSizeX s) (drawSizeY s).
Proof.
  intros Hlen HX0 HX1 HY0 HY1 HdX HdY (Hw & Hh & Hlenb & Hget).
  unfold countColor, centerKeys, rectPixels. f_equal.
  rewrite Hw, Hh, !Z.div_mul by lia.
  apply filter_bind_length. intros y Hy%elem_of_seqZ.
  apply filter_bind_length. intros x Hx%elem_of_seqZ.
  assert (Hbytes : ∀ c, 0 ≤ c < 4 →
    JS.get (data bmp) (((y * 3 + 1) * (drawSizeX s * 3) + (x * 3 + 1)) * 4 + c) =
    JS.get (data bitmap)
      (((segPixelY s - c3 + y) * width bitmap + (segPixelX s - c2 + x)) * 4 + c)).
  { intros c Hc. rewrite <- Hw. rewrite Hget by lia.
    destruct (center_div_mod x) as [-> Hmx]. destruct (center_div_mod y) as [-> Hmy].
    rewrite decide_False by (intros [_ Hn]; by apply Hn).
    apply canvasByte_get; lia. }
  unfold pixelHasKey, sampleKey. simpl.
  rewrite !Hbytes by lia.
  destruct (JS.is0 _) eqn:Ha.
  - apply is0_true in Ha. rewrite filter_cons_False; [done|]. by intros [Hn _].
  - apply is0_false in Ha.
    destruct (decide (colorKey
        (JS.get (data bitmap)
           (((segPixelY s - c3 + y) * width bitmap + (segPixelX s - c2 + x)) * 4 + 0))
        (JS.get (data bitmap)
           (((segPixelY s - c3 + y) * width bitmap + (segPixelX s - c2 + x)) * 4 + 1))
        (JS.get (data bitmap)
           (((segPixelY s - c3 + y) * width bitmap + (segPixelX s - c2 + x)) * 4 + 2)) = k))
      as [Hk|Hk].
    + rewrite !filter_cons_True by done. done.
    + rewrite !filter_cons_False; [done| |done]. by intros [_ ?].
Qed.

Section histogram_of_image.
Context (bitmap : ImageData) (T c0 c1 c2 c3 : Z) (k : string).
Hypothesis HT : 0 < T.
Hypothesis Hc2 : 0 ≤ c2.
Hypothesis Hc3 : 0 ≤ c3.
Hypothesis HW : 0 ≤ width bitmap.
Hypothesis HH : 0 ≤ height bitmap.
Hypothesis Hlen : Z.of_nat (length (data bitmap)) = 4 * width bitmap * height bitmap.

Lemma tileLoop_histogram fuel st st' :
  Template.tileLoop fuel bitmap T c0 c1 c2 c3 c3 st = Some st' →
  default 0 (Template.chColorsUsed st' !! k) =
  default 0 (Template.chColorsUsed st !! k) +
  countColor bitmap k 0 0 (width bitmap) (height bitmap).
Proof.
  intros Hrun. rename st into st0.
  set (Q := λ (y dy x : Z) (st : Template.Chunking),
    default 0 (Template.chColorsUsed st !! k) =
    default 0 (Template.chColorsUsed st0 !! k) +
    countColor bitmap k 0 0 (width bitmap) (y - c3) +
    countColor bitmap k 0 (y - c3) (x - c2) dy).
  assert (Hfinal : Q (height bitmap + c3) 0 c2 st').
  { apply (tileLoop_at bitmap T c0 c1 c2 c3 Q (λ y st, Q y 0 c2 st) HT Hc2 Hc3 HW)
      with (fuel := fuel) (y := c3) (st := st0); [..|lia|done|].
    - intros y dy x dx st1 Hy Hdy Hydy _ Hx Hdx Hxdx _ HQ. unfold Q in *.
      destruct (chunkSegment_encodes bitmap c0 c1 c2 c3 x y dx dy st1 Hdx Hdy)
        as (bmp & _ & Henc & ->).
      pose proof Henc as (Hbw & Hbh & Hblen & _). simpl in Hbw, Hbh.
      rewrite rebuildChunk_snd, drawImageCopy_data by lia.
      rewrite countCenters_foldl, count_fold_lookup, HQ.
      rewrite (centerKeys_count bitmap c2 c3
                 (mkSegment x y dx dy dx dy (Template.templateTileName c0 c1 x y)) bmp k Hlen)
        by (done || (simpl; lia)).
      simpl. replace (x + dx - c2) with ((x - c2) + dx) by lia.
      rewrite (countColor_beside bitmap k 0 (y - c3) (x - c2) dx dy) by lia.
      rewrite Z.add_0_l. lia.
    - intros y dy st1 Hy Hdy Hydy HQ. unfold Q in *.
      rewrite HQ, Z.sub_diag, !countColor_empty. lia.
    - intros y dy st1 Hy Hdy Hydy HQ. unfold Q in *.
      rewrite HQ, Z.sub_diag, !countColor_empty.
      replace (y + dy - c3) with ((y - c3) + dy) by lia.
      rewrite (countColor_below bitmap k 0 0 (width bitmap) (y - c3) dy) by lia.
      replace (width bitmap + c2 - c2) with (width bitmap) by lia.
      rewrite Z.add_0_l. lia.
    - unfold Q. rewrite !Z.sub_diag, !countColor_empty, ?countColor_none. lia. }
  unfold Q in Hfinal. rewrite Hfinal, Z.sub_diag, !countColor_empty.
  replace (height bitmap + c3 - c3) with (height bitmap) by lia. lia.
Qed.
End histogram_of_image.

Lemma filter_ext_elem {A : Type} (P Q : A → Prop) `{!∀ x, Decision (P x)}
    `{!∀ x, Decision (Q x)} (l : list A) :
  (∀ x, x ∈ l → P x ↔ Q x) → filter P l = filter Q l.
Proof.
  induction l as [|a l IH]; intros Hext; [done|].
  rewrite !filter_cons.
  rewrite IH by (intros x Hx; apply Hext; by apply elem_of_cons; right).
  destruct (decide (P a)) as [HP|HP], (decide (Q a)) as [HQ|HQ]; try done.
  - exfalso. apply HQ. apply Hext; [by apply elem_of_cons; left|done].
  - exfalso. apply HP. apply Hext; [by apply elem_of_cons; left|done].
Qed.

Lemma countColor_opaque (img : ImageData) (k : string) :
  noPartialAlpha img →
  countColor img k 0 0 (width img) (height img) = countOpaque img k.
Proof.
  intros Halpha. unfold countColor, countOpaque. f_equal. f_equal.
  apply filter_ext_elem. intros [X Y] Hin. unfold rectPixels in Hin.
  apply list_elem_of_bind in Hin as (y & Hin & Hy%elem_of_seqZ).
  apply list_elem_of_bind in Hin as (x & Hin & Hx%elem_of_seqZ).
  apply list_elem_of_singleton in Hin as [= -> ->].
  unfold pixelHasKey, opaqueHasKey. simpl. rewrite !Z.add_0_l.
  destruct (Halpha x y ltac:(lia) ltac:(lia)) as [Ha|Ha]; rewrite Ha; naive_solver.
Qed.

(** X9. After [createTemplateTiles] on a template whose histogram was empty,
    for an image with the bytes of its size placed at a non-negative pixel
    offset and whose pixels are all opaque or fully transparent, [colorsUsed]
    holds for every colour the number of opaque pixels of the image that have
    this colour. *)
Theorem histogram_counts_image_pixels (fuel : nat) (t t' : Template)
    (tiles : list (string * ImageData)) (segs : list Segment) (bitmap : ImageData)
    (c0 c1 c2 c3 : Z) (k : string) :
  file t = Some bitmap → coords t = Some (c0, c1, c2, c3) → colorsUsed t = ∅ →
  0 < tileSize t → 0 ≤ c2 → 0 ≤ c3 → 0 ≤ width bitmap → 0 ≤ height bitmap →
  Z.of_nat (length (data bitmap)) = 4 * width bitmap * height bitmap →
  noPartialAlpha bitmap →
  Template.createTemplateTiles fuel t = Some (t', tiles, segs) →
  default 0 (colorsUsed t' !! k) = countOpaque bitmap k.
Proof.
  intros Hfile Hcoords Hempty HT Hc2 Hc3 HW HH Hlen Halpha Hrun.
  destruct (createTemplateTiles_loop _ _ _ _ _ _ _ _ _ _ Hfile Hcoords Hrun)
    as (st & Hloop & _ & _ & _ & Hcu & _).
  apply (tileLoop_histogram bitmap (tileSize t) c0 c1 c2 c3 k HT Hc2 Hc3 HW HH Hlen) in Hloop.
  simpl in Hloop. rewrite Hempty, lookup_empty in Hloop. simpl in Hloop.
  rewrite Hcu, Hloop. by apply countColor_opaque.
Qed.

(** An image of 2 x 2 pixels with one transparent pixel (red, a green, nothing,
    black), placed across the corner of four tiles: one opaque red pixel. *)
Lemma histogram_counts_image_pixels_witness :
  match Examples.chunk Examples.liveTile (3, 4, 999, 999) 1000 with
  | Some (t', tiles, segs) =>
      default 0 (colorsUsed t' !! "255,0,0"%string) = countOpaque Examples.liveTile "255,0,0" ∧
      countOpaque Examples.liveTile "255,0,0" = 1
  | None => False
  end.
Proof.
  destruct (Examples.chunk Examples.liveTile (3, 4, 999, 999) 1000)
    as [[[t' tiles] segs]|] eqn:Hrun.
  - split; [|vm_compute; reflexivity].
    apply (histogram_counts_image_pixels 5
             (Template.new 0 (Some Examples.liveTile) (Some (3, 4, 999, 999)) None 1000)
             t' tiles segs Examples.liveTile 3 4 999 999 "255,0,0");
      [reflexivity|reflexivity|reflexivity|simpl; lia|lia|lia|simpl; lia|simpl; lia
      |reflexivity| |exact Hrun].
    intros x y Hx Hy. simpl in Hx, Hy.
    assert (Hx' : x = 0 ∨ x = 1) by lia. assert (Hy' : y = 0 ∨ y = 1) by lia.
    destruct Hx' as [->| ->], Hy' as [->| ->]; vm_compute; auto.
  - vm_compute in Hrun. discriminate.
Defined.

(** ** Pixel keys *)

Lemma pretty_N_char_noComma (x : N) : Ascii.eqb (pretty_N_char x) ","%char = false.
Proof. unfold pretty_N_char. by repeat case_match. Qed.

Lemma pretty_N_go_noComma (x : N) (s : string) :
  noComma s = true → noComma (pretty_N_go x s) = true.
Proof.
  revert s. induction (N.lt_wf_0 x) as [x _ IH]; intros s Hs.
  assert (x = 0 ∨ 0 < x)%N as [->|Hx] by lia.
  - by rewrite pretty_N_go_0.
  - rewrite pretty_N_go_step by done. apply IH; [by apply N.div_lt|].
    cbn [noComma]. by rewrite pretty_N_char_noComma, Hs.
Qed.

Lemma pretty_N_noComma (x : N) : noComma (pretty x) = true.
Proof.
  unfold pretty, pretty_N. destruct (decide (x = 0%N)); [done|].
  by apply pretty_N_go_noComma.
Qed.

Lemma toString_noComma (z : Z) : noComma (JS.toString z) = true.
Proof.
  unfold JS.toString, pretty, pretty_Z. destruct z as [|p|p]; [done| |].
  - apply pretty_N_noComma.
  - change ("-" +:+ pretty p) with (String "-"%char (pretty p)).
    cbn [noComma]. apply (pretty_N_noComma (N.pos p)).
Qed.

Lemma pixelKey_inj (x y x' y' : Z) : pixelKey x y = pixelKey x' y' → x = x' ∧ y = y'.
Proof.
  intros Heq. apply (f_equal JS.splitComma) in Heq. unfold pixelKey in Heq.
  rewrite !splitComma_two in Heq by apply toString_noComma.
  injection Heq as Hx Hy. split; by apply (inj pretty).
Qed.

(** ** The outcome of the counting loops for each pixel of a chunk *)

Lemma optimizedPixel_status T bp tx ty ox oy w cd y x t :
  TemplateManager.optimizedPixel T bp tx ty ox oy w cd y x t =
  setStatus (pixelKey (tx * T + (ox + x)) (ty * T + (oy + y)))
    (optimizedStatus T bp ox oy w cd y x) t.
Proof.
  unfold TemplateManager.optimizedPixel, optimizedStatus. cbv zeta.
  destruct (decide _); [done|]. destruct (JS.is0 (JS.get cd _)); [done|].
  destruct (JS.is0 _); [done|]. by destruct (JS.seq _ _).
Qed.

Lemma legacyPixel_status T dm dsl base tx ty ox oy tpl bw y x t :
  TemplateManager.legacyPixel T dm dsl base tx ty ox oy tpl bw y x t =
  setStatus (pixelKey (tx * T + (ox + x)) (ty * T + (oy + y)))
    (legacyStatus dm dsl base ox oy tpl bw y x) t.
Proof.
  unfold TemplateManager.legacyPixel, legacyStatus. cbv zeta.
  destruct (JS.is0 (JS.get tpl _)); [done|].
  destruct (JS.is0 _); [done|]. by destruct (_ && _).
Qed.

Lemma setStatus_own (key : string) (s : PixelStatus) (t : Template) :
  hasStatus key s t (setStatus key s t).
Proof.
  destruct s; simpl; rewrite ?setAdd_eq, ?setDelete_eq; set_solver.
Qed.

Lemma setStatus_other (key k : string) (s : PixelStatus) (t : Template) :
  k ≠ key →
  (k ∈ placedPixelKeys (setStatus key s t) ↔ k ∈ placedPixelKeys t) ∧
  (k ∈ wrongPixelKeys (setStatus key s t) ↔ k ∈ wrongPixelKeys t).
Proof.
  intros Hne. destruct s; simpl; rewrite ?setAdd_eq, ?setDelete_eq; set_solver.
Qed.

Lemma hasStatus_other (key : string) (s : PixelStatus) (t t1 t2 : Template) :
  (key ∈ placedPixelKeys t2 ↔ key ∈ placedPixelKeys t1) →
  (key ∈ wrongPixelKeys t2 ↔ key ∈ wrongPixelKeys t1) →
  hasStatus key s t t1 → hasStatus key s t t2.
Proof. intros Hp Hw. destruct s; simpl; naive_solver. Qed.

Section status_loops.
Context (K : Z → Z → string) (σ : Z → Z → PixelStatus) (w h : Z).
Hypothesis Kinj : ∀ x y x' y', K y x = K y' x' → x = x' ∧ y = y'.

(** Loops whose body sets the status of the key of its pixel leave every
    pixel of the rectangle with its status, and other keys as they were. *)
Lemma status_loops (t : Template) :
  let t' := JS.forZ h (λ y, JS.forZ w (λ x, setStatus (K y x) (σ y x))) t in
  (∀ x y, 0 ≤ x < w → 0 ≤ y < h → hasStatus (K y x) (σ y x) t t') ∧
  (∀ k, (∀ x y, 0 ≤ x < w → 0 ≤ y < h → σ y x ≠ Skipped → k ≠ K y x) →
     (k ∈ placedPixelKeys t' ↔ k ∈ placedPixelKeys t) ∧
     (k ∈ wrongPixelKeys t' ↔ k ∈ wrongPixelKeys t)).
Proof.
  cbv zeta.
  set (I := λ (ky kx : Z) (u : Template),
    (∀ x y, 0 ≤ x < w → 0 ≤ y < h → (y < ky ∨ (y = ky ∧ x < kx)) →
       hasStatus (K y x) (σ y x) t u) ∧
    (∀ k, (∀ x y, 0 ≤ x < w → 0 ≤ y < h → (y < ky ∨ (y = ky ∧ x < kx)) →
             σ y x ≠ Skipped → k ≠ K y x) →
       (k ∈ placedPixelKeys u ↔ k ∈ placedPixelKeys t) ∧
       (k ∈ wrongPixelKeys u ↔ k ∈ wrongPixelKeys t))).
  assert (Hall : I (Z.max 0 h) 0 (JS.forZ h (λ y, JS.forZ w (λ x, setStatus (K y x) (σ y x))) t)).
  { apply (forZ_ind (λ ky u, I ky 0 u)).
    - split; [intros; lia|]. done.
    - intros ky u Hky [Hdone Hrest].
      assert (Hrow : I ky (Z.max 0 w) (JS.forZ w (λ x, setStatus (K ky x) (σ ky x)) u)).
      { apply (forZ_ind (λ kx u', I ky kx u')); [done|].
        intros kx u' Hkx [Hdone' Hrest']. split.
        - intros x y Hx Hy Hbefore.
          destruct (decide (x = kx ∧ y = ky)) as [[-> ->]|Hne].
          + destruct (σ ky kx) eqn:Hs; simpl; [|apply setStatus_own with (s := Unplaced)
              |apply setStatus_own with (s := Placed)|apply setStatus_own with (s := Wrong)].
            apply Hrest'. intros x y Hx' Hy' Hb Hns Heq.
            apply Kinj in Heq as [-> ->]. lia.
          + destruct (setStatus_other (K ky kx) (K y x) (σ ky kx) u') as [Hp Hw].
            { intros Heq. apply Kinj in Heq. lia. }
            apply (hasStatus_other _ _ _ u'); [done|done|]. apply Hdone'; [done|done|lia].
        - intros k Hk. destruct (σ ky kx) eqn:Hs.
          + simpl. apply Hrest'. intros x y Hx Hy Hb. apply Hk; [done|done|lia].
          + destruct (setStatus_other (K ky kx) k Unplaced u') as [Hp Hw].
            { apply Hk; [lia|lia|lia|by rewrite Hs]. }
            rewrite Hp, Hw. apply Hrest'. intros x y Hx Hy Hb. apply Hk; [done|done|lia].
          + destruct (setStatus_other (K ky kx) k Placed u') as [Hp Hw].
            { apply Hk; [lia|lia|lia|by rewrite Hs]. }
            rewrite Hp, Hw. apply Hrest'. intros x y Hx Hy Hb. apply Hk; [done|done|lia].
          + destruct (setStatus_other (K ky kx) k Wrong u') as [Hp Hw].
            { apply Hk; [lia|lia|lia|by rewrite Hs]. }
            rewrite Hp, Hw. apply Hrest'. intros x y Hx Hy Hb. apply Hk; [done|done|lia]. }
      destruct Hrow as [Hr1 Hr2]. split.
      + intros x y Hx Hy Hb. apply Hr1; [done|done|lia].
      + intros k Hk. apply Hr2. intros x y Hx Hy Hb. apply Hk; [done|done|lia]. }
  destruct Hall as [H1 H2]. split.
  - intros x y Hx Hy. apply H1; [done|done|lia].
  - intros k Hk. apply H2. intros x y Hx Hy _. by apply Hk.
Qed.
End status_loops.

Lemma pixelKey_of_chunk_inj (tx ty T ox oy x y x' y' : Z) :
  pixelKey (tx * T + (ox + x)) (ty * T + (oy + y)) =
  pixelKey (tx * T + (ox + x')) (ty * T + (oy + y')) → x = x' ∧ y = y'.
Proof. intros Heq. apply pixelKey_inj in Heq. lia. Qed.

(** X10. The optimized loops over one chunk leave every pixel of the chunk
    with the outcome of its own comparison: a pixel outside the tile or
    without template colour keeps its set memberships, a pixel whose live
    value is 0 is in neither set, a pixel whose live value is the template
    value is in [placed] only, and any other pixel is in [wrong] only. Keys
    that are not pixels of the tile keep their memberships. *)
Theorem optimized_chunk_classified (T : Z) (basePacked : list Z) (tx ty : Z) (key : string)
    (t : Template) (ox oy : Z) (ci : CenterInfo) :
  JS.NumberDec (JS.splitComma key !! 2%nat) = Some ox →
  JS.NumberDec (JS.splitComma key !! 3%nat) = Some oy →
  centerPixelIndex t !! key = Some ci →
  ∃ t', TemplateManager.optimizedChunks T basePacked tx ty [key] t = Some t' ∧
    (∀ x y, 0 ≤ x < cwidth ci → 0 ≤ y < cheight ci →
       hasStatus (pixelKey (tx * T + (ox + x)) (ty * T + (oy + y)))
         (optimizedStatus T basePacked ox oy (cwidth ci) (cdata ci) y x) t t') ∧
    (∀ k, (∀ dx dy, 0 ≤ dx < T → 0 ≤ dy < T → k ≠ pixelKey (tx * T + dx) (ty * T + dy)) →
       (k ∈ placedPixelKeys t' ↔ k ∈ placedPixelKeys t) ∧
       (k ∈ wrongPixelKeys t' ↔ k ∈ wrongPixelKeys t)).
Proof.
  intros Hox Hoy Hci. cbn [TemplateManager.optimizedChunks]. rewrite Hox, Hoy, Hci. simpl.
  eexists. split; [reflexivity|].
  erewrite forZ_ext.
  2:{ intros y t1 _. apply forZ_ext. intros x t2 _. apply optimizedPixel_status. }
  destruct (status_loops (λ y x, pixelKey (tx * T + (ox + x)) (ty * T + (oy + y)))
              (optimizedStatus T basePacked ox oy (cwidth ci) (cdata ci))
              (cwidth ci) (cheight ci)
              (λ x y x' y' H, pixelKey_of_chunk_inj tx ty T ox oy x y x' y' H) t) as [Hin Hout].
  split; [exact Hin|].
  intros k Hk. apply Hout. intros x y Hx Hy Hs.
  unfold optimizedStatus in Hs. cbv zeta in Hs.
  destruct (decide _) as [|Hb]; [done|].
  apply Hk; lia.
Qed.

(** A chunk of one red pixel over a live tile of 2 x 2 pixels. *)
Lemma optimized_chunk_classified_witness :
  let t := mkTemplate 0 None None None 1000 1 ∅ ∅ ∅ None
             {["0000,0000,001,000"%string := mkCenter 1 1 [16711680]]} ∅ in
  ∃ t', TemplateManager.optimizedChunks 2 [0; 16711680; 0; 0] 0 0 ["0000,0000,001,000"%string] t
        = Some t' ∧
    (∀ x y, 0 ≤ x < 1 → 0 ≤ y < 1 →
       hasStatus (pixelKey (0 * 2 + (1 + x)) (0 * 2 + (0 + y)))
         (optimizedStatus 2 [0; 16711680; 0; 0] 1 0 1 [16711680] y x) t t') ∧
    (∀ k, (∀ dx dy, 0 ≤ dx < 2 → 0 ≤ dy < 2 → k ≠ pixelKey (0 * 2 + dx) (0 * 2 + dy)) →
       (k ∈ placedPixelKeys t' ↔ k ∈ placedPixelKeys t) ∧
       (k ∈ wrongPixelKeys t' ↔ k ∈ wrongPixelKeys t)).
Proof.
  intros t.
  apply (optimized_chunk_classified 2 [0; 16711680; 0; 0] 0 0 "0000,0000,001,000" t 1 0
           (mkCenter 1 1 [16711680])); reflexivity.
Defined.

(** X11. The legacy loops over one chunk leave every pixel of the chunk with
    the outcome of its own comparison: a pixel whose template sample is
    transparent keeps its set memberships, a pixel whose live sample is
    transparent is in neither set, a pixel whose live sample has the red,
    green and blue of the template sample is in [placed] only, and any other
    pixel is in [wrong] only. *)
Theorem legacy_chunk_classified (T dm dsl : Z) (baseImage : list Z) (tx ty : Z) (key : string)
    (t : Template) (ox oy : Z) (c : list (string * ImageData)) (bmp : ImageData) :
  JS.NumberDec (JS.splitComma key !! 2%nat) = Some ox →
  JS.NumberDec (JS.splitComma key !! 3%nat) = Some oy →
  chunked t = Some c → objGet key c = Some bmp →
  ∃ t', TemplateManager.legacyChunks T dm dsl baseImage tx ty [key] t = Some t' ∧
    ∀ x y, 0 ≤ x < width bmp `div` dm → 0 ≤ y < height bmp `div` dm →
      hasStatus (pixelKey (tx * T + (ox + x)) (ty * T + (oy + y)))
        (legacyStatus dm dsl baseImage ox oy (data (drawImageCopy bmp)) (width bmp) y x) t t'.
Proof.
  intros Hox Hoy Hc Hbmp. cbn [TemplateManager.legacyChunks].
  rewrite Hox, Hoy, Hc. simpl. rewrite Hbmp. simpl.
  eexists. split; [reflexivity|].
  erewrite forZ_ext.
  2:{ intros y t1 _. apply forZ_ext. intros x t2 _. apply legacyPixel_status. }
  destruct (status_loops (λ y x, pixelKey (tx * T + (ox + x)) (ty * T + (oy + y)))
              (legacyStatus dm dsl baseImage ox oy (data (drawImageCopy bmp)) (width bmp))
              (width bmp `div` dm) (height bmp `div` dm)
              (λ x y x' y' H, pixelKey_of_chunk_inj tx ty T ox oy x y x' y' H) t) as [Hin _].
  exact Hin.
Qed.

(** A chunk of one red pixel over a live tile of 2 x 2 pixels. *)
Lemma legacy_chunk_classified_witness :
  let base := data (drawImageScaled Examples.redTile 0 0 2 2 6 6) in
  ∃ t', TemplateManager.legacyChunks 2 3 6 base 0 0 ["0000,0000,000,000"%string]
          Examples.blueOnly = Some t' ∧
    ∀ x y, 0 ≤ x < width Examples.redBlock `div` 3 → 0 ≤ y < height Examples.redBlock `div` 3 →
      hasStatus (pixelKey (0 * 2 + (0 + x)) (0 * 2 + (0 + y)))
        (legacyStatus 3 6 base 0 0 (data (drawImageCopy Examples.redBlock))
           (width Examples.redBlock) y x) Examples.blueOnly t'.
Proof.
  intros base.
  apply (legacy_chunk_classified 2 3 6 base 0 0 "0000,0000,000,000" Examples.blueOnly 0 0
           [("0000,0000,000,000"%string, Examples.redBlock)] Examples.redBlock); reflexivity.
Defined.

(** ** The optimized path stays inside its tile *)

Lemma optimizedChunks_in_tile T bp tx ty keys t t' k :
  (∀ dx dy, 0 ≤ dx < T → 0 ≤ dy < T → k ≠ pixelKey (tx * T + dx) (ty * T + dy)) →
  TemplateManager.optimizedChunks T bp tx ty keys t = Some t' →
  (k ∈ placedPixelKeys t' ↔ k ∈ placedPixelKeys t) ∧
  (k ∈ wrongPixelKeys t' ↔ k ∈ wrongPixelKeys t).
Proof.
  intros Hk. revert t. induction keys as [|key rest IH]; intros t.
  - by intros [= <-].
  - cbn [TemplateManager.optimizedChunks].
    destruct (JS.NumberDec (_ !! 2%nat)) as [ox|]; simpl; [|done].
    destruct (JS.NumberDec (_ !! 3%nat)) as [oy|]; simpl; [|done].
    intros Hrun. apply IH in Hrun as [Hp Hw]. rewrite Hp, Hw. clear Hp Hw.
    destruct (centerPixelIndex t !! key) as [ci|]; [|done].
    erewrite forZ_ext.
    2:{ intros y t1 _. apply forZ_ext. intros x t2 _. apply optimizedPixel_status. }
    destruct (status_loops (λ y x, pixelKey (tx * T + (ox + x)) (ty * T + (oy + y)))
                (optimizedStatus T bp ox oy (cwidth ci) (cdata ci))
                (cwidth ci) (cheight ci)
                (λ x y x' y' H, pixelKey_of_chunk_inj tx ty T ox oy x y x' y' H) t)
      as [_ Hout].
    apply Hout. intros x y Hx Hy Hs.
    unfold optimizedStatus in Hs. cbv zeta in Hs.
    destruct (decide _) as [|Hb]; [done|]. apply Hk; lia.
Qed.

Lemma forTemplates_Forall2 (R : Template → Template → Prop)
    (f : Template → option Template) (ts ts' : list Template) :
  (∀ t t', f t = Some t' → R t t') →
  TemplateManager.forTemplates f ts = Some ts' → Forall2 R ts ts'.
Proof.
  intros Hf. revert ts'. induction ts as [|t r IH]; intros ts'; simpl.
  - intros [= <-]. constructor.
  - destruct (f t) as [t'|] eqn:Ht; simpl; [|done].
    destruct (TemplateManager.forTemplates f r) as [r'|]; simpl; [|done].
    intros [= <-]. constructor; [by apply Hf|by apply IH].
Qed.

(** X12. With the optimized path, counting the tile [(tx, ty)] changes the
    recorded status of pixels of that tile only: a key that is not the key of
    a pixel of the tile is in [placed] and in [wrong] of every template
    exactly when it was before. *)
Theorem optimized_count_stays_in_tile (m : TemplateManager) (baseBitmap : ImageData)
    (tx ty : Z) (ts ts' : list Template) :
  useLegacyCount m = false → 0 ≤ tx < 10000 → 0 ≤ ty < 10000 →
  TemplateManager.countPixels m baseBitmap (TemplateManager.tileCoordsString (tx, ty)) ts
    = Some ts' →
  Forall2 (λ t t', ∀ k,
             (∀ dx dy, 0 ≤ dx < mTileSize m → 0 ≤ dy < mTileSize m →
                k ≠ pixelKey (tx * mTileSize m + dx) (ty * mTileSize m + dy)) →
             (k ∈ placedPixelKeys t' ↔ k ∈ placedPixelKeys t) ∧
             (k ∈ wrongPixelKeys t' ↔ k ∈ wrongPixelKeys t)) ts ts'.
Proof.
  intros Hopt Htx Hty. unfold TemplateManager.countPixels. rewrite Hopt. cbv zeta.
  destruct (decide _); [done|].
  destruct (tileCoordsString_fields tx ty Htx Hty) as [-> ->]. simpl.
  apply forTemplates_Forall2. intros t t' Hrun k Hk.
  by eapply optimizedChunks_in_tile.
Qed.

(** The worked example counted with the optimized path. *)
Lemma optimized_count_stays_in_tile_witness :
  match TemplateManager.countPixels (Examples.smallManager false) Examples.liveTile
          (TemplateManager.tileCoordsString (0, 0)) (Examples.templatesOf false) with
  | Some ts' =>
      Forall2 (λ t t', ∀ k,
                 (∀ dx dy, 0 ≤ dx < 2 → 0 ≤ dy < 2 →
                    k ≠ pixelKey (0 * 2 + dx) (0 * 2 + dy)) →
                 (k ∈ placedPixelKeys t' ↔ k ∈ placedPixelKeys t) ∧
                 (k ∈ wrongPixelKeys t' ↔ k ∈ wrongPixelKeys t))
        (Examples.templatesOf false) ts'
  | None => False
  end.
Proof.
  destruct (TemplateManager.countPixels (Examples.smallManager false) Examples.liveTile
              (TemplateManager.tileCoordsString (0, 0)) (Examples.templatesOf false))
    as [ts'|] eqn:Hrun.
  - apply (optimized_count_stays_in_tile (Examples.smallManager false) Examples.liveTile
             0 0 (Examples.templatesOf false) ts'); [reflexivity|lia|lia|exact Hrun].
  - vm_compute in Hrun. discriminate.
Defined.

(** ** The compositor with the default allow-list *)

Lemma alphaCleared_none (bw bh : Z) (P : Z → Z → Prop) (d0 d : list Z) :
  0 ≤ bw → 0 ≤ bh → Z.of_nat (length d0) = 4 * bw * bh →
  (∀ X Y, 0 ≤ X < bw → 0 ≤ Y < bh → ¬ P X Y) →
  alphaCleared bw P d0 d → d = d0.
Proof.
  intros Hbw Hbh Hlen0 HP [Hlen Hget]. apply list_eq. intros i.
  destruct (decide (i < length d0)%nat) as [Hi|Hi].
  - assert (0 < bw) by nia.
    set (p := Z.of_nat i `div` 4). set (c := Z.of_nat i `mod` 4).
    set (X := p `mod` bw). set (Y := p `div` bw).
    assert (Hc : 0 ≤ c < 4) by (apply Z.mod_pos_bound; lia).
    assert (HX : 0 ≤ X < bw) by (apply Z.mod_pos_bound; lia).
    assert (Hp : Z.of_nat i = p * 4 + c).
    { subst p c. pose proof (Z.div_mod (Z.of_nat i) 4). lia. }
    assert (HpXY : p = Y * bw + X).
    { subst X Y. pose proof (Z.div_mod p bw). lia. }
    assert (HY : 0 ≤ Y < bh).
    { split; [apply Z.div_pos; lia|]. apply Z.div_lt_upper_bound; [lia|]. nia. }
    destruct (Hget X Y c HX ltac:(lia) Hc) as [_ Hsame].
    rewrite !get_lookup in Hsame by lia.
    replace (Z.to_nat ((Y * bw + X) * 4 + c)) with i in Hsame by lia.
    apply Hsame. intros [_ HPXY]. by apply (HP X Y).
  - rewrite !lookup_ge_None_2; [done|lia|lia].
Qed.

Lemma objGet_Some_elem_of {V : Type} (k : string) (v : V) (o : list (string * V)) :
  objGet k o = Some v → (k, v) ∈ o.
Proof.
  induction o as [|[k0 w] r IH]; simpl; [done|].
  destruct (decide (k0 = k)) as [->|Hne].
  - intros [= ->]. apply elem_of_cons. by left.
  - intros Hget. apply elem_of_cons. right. by apply IH.
Qed.

(** X13. After [buildCenterPixelIndex] with the multiplier 3, on well-formed
    chunk bitmaps whose sides are multiples of 3, the compositor shows every
    chunk as it is: the copy it draws for a chunk is equal to the chunk's
    bitmap, at the chunk's offset times 3. When no colour was found at all,
    the allow-list is empty and nothing is drawn. *)
Theorem default_allow_list_shows_all (fuel : nat) (t t' : Template)
    (c : list (string * ImageData)) (key : string) (bmp : ImageData) (px py : Z) :
  chunked t = Some c →
  Forall (λ kb, 0 ≤ width kb.2 ∧ 0 ≤ height kb.2 ∧
                Z.of_nat (length (data kb.2)) = 4 * width kb.2 * height kb.2) c →
  objGet key c = Some bmp →
  width bmp `mod` 3 = 0 → height bmp `mod` 3 = 0 →
  JS.NumberDec (JS.splitComma key !! 2%nat) = Some px →
  JS.NumberDec (JS.splitComma key !! 3%nat) = Some py →
  (Z.to_nat (width bmp) ≤ fuel)%nat → (Z.to_nat (height bmp) ≤ fuel)%nat →
  Template.buildCenterPixelIndex 3 t = Some t' →
  TemplateManager.compositeChunk fuel 3 t' key =
  Some (if decide (colorsUsed t' = ∅) then [] else [DrawAt bmp (px * 3) (py * 3)]).
Proof.
  intros Hc Hwf Hbmp Hw3 Hh3 Hpx Hpy Hfw Hfh.
  unfold Template.buildCenterPixelIndex. rewrite Hc. simpl.
  destruct (foldl _ _ _) as [cpi cu] eqn:Hfold. intros [= <-].
  unfold TemplateManager.compositeChunk. simpl.
  rewrite Hbmp, Hpx, Hpy. simpl.
  destruct (decide (cu = ∅)) as [->|Hne].
  { rewrite decide_True; [done|]. by rewrite dom_empty_L, size_empty. }
  rewrite decide_False.
  2:{ intros Hsz%size_empty_inv. apply Hne. apply (dom_empty_inv_L (D := gset string)).
      by apply leibniz_equiv. }
  assert (Hin : (key, bmp) ∈ c) by (by apply objGet_Some_elem_of).
  rewrite Forall_forall in Hwf. destruct (Hwf _ Hin) as (Hw & Hh & Hlen). simpl in *.
  destruct (maskChunk_cleared (dom cu) bmp Hw Hh Hlen fuel Hfw Hfh)
    as (masked & -> & Hmw & Hmh & Hclr).
  simpl. do 3 f_equal.
  apply alphaCleared_none with (bh := height bmp) in Hclr; [|done|done|done|].
  - destruct masked, bmp. simpl in *. by subst.
  - intros X Y HX HY [_ (Hcx & Hcy & Ha & Hkey)]. apply Hkey.
    assert (Hforall : Forall (λ kb, 0 ≤ width kb.2 ∧ 0 ≤ height kb.2 ∧
              Z.of_nat (length (data kb.2)) = 4 * width kb.2 * height kb.2) c)
      by (by apply Forall_forall).
    destruct (rebuild_fold_colors c (∅, ∅) Hforall) as [_ Hfound].
    rewrite Hfold in Hfound. simpl in Hfound.
    apply (Hfound key bmp (X `div` 3) (Y `div` 3)); [done| | |done].
    + split; [apply Z.div_pos; lia|]. apply Z.div_lt_upper_bound; [lia|].
      pose proof (Z.div_mod (width bmp) 3). lia.
    + split; [apply Z.div_pos; lia|]. apply Z.div_lt_upper_bound; [lia|].
      pose proof (Z.div_mod (height bmp) 3). lia.
Qed.

(** A chunk of one red block, indexed and then composited. *)
Lemma default_allow_list_shows_all_witness :
  match Template.buildCenterPixelIndex 3 Examples.blueOnly with
  | Some t' =>
      TemplateManager.compositeChunk 3 3 t' "0000,0000,000,000" =
      Some (if decide (colorsUsed t' = ∅) then []
            else [DrawAt Examples.redBlock (0 * 3) (0 * 3)])
  | None => False
  end.
Proof.
  destruct (Template.buildCenterPixelIndex 3 Examples.blueOnly) as [t'|] eqn:Hrun.
  - apply (default_allow_list_shows_all 3 Examples.blueOnly t'
             [("0000,0000,000,000"%string, Examples.redBlock)] "0000,0000,000,000"
             Examples.redBlock 0 0);
      [reflexivity| |reflexivity|reflexivity|reflexivity|reflexivity|reflexivity
      |simpl; lia|simpl; lia|exact Hrun].
    constructor; [|constructor]. simpl. lia.
  - vm_compute in Hrun. discriminate.
Defined.

(** ** The template array after [drawTemplateOnTile] *)

Lemma insertBySortID_sorted t l :
  StronglySorted (λ a b, sortID a ≤ sortID b) l →
  StronglySorted (λ a b, sortID a ≤ sortID b) (TemplateManager.insertBySortID t l).
Proof.
  induction 1 as [|u r Hr IH Hall]; simpl.
  - repeat constructor.
  - destruct (decide (sortID t ≤ sortID u)) as [Hle|Hgt].
    + constructor; [by constructor|]. constructor; [done|].
      eapply Forall_impl; [exact Hall|]. simpl. intros; lia.
    + constructor; [done|]. rewrite insertBySortID_perm.
      constructor; [lia|done].
Qed.

Lemma sortBySortID_sorted l :
  StronglySorted (λ a b, sortID a ≤ sortID b) (TemplateManager.sortBySortID l).
Proof.
  induction l as [|t r IH]; simpl; [constructor|]. by apply insertBySortID_sorted.
Qed.

Lemma sameButSets_refl (t : Template) : sameButSets t t.
Proof. by destruct t. Qed.

Lemma applyEffect_sameButSets (T p w : gset string) (t : Template) :
  sameButSets t (applyEffect T p w t).
Proof. by destruct t. Qed.

Lemma legacyChunks_sameButSets T dm dsl base tx ty keys t t' :
  TemplateManager.legacyChunks T dm dsl base tx ty keys t = Some t' → sameButSets t t'.
Proof.
  destruct (legacyChunks_effect T dm dsl base tx ty keys (chunked t)) as (r & Hr).
  rewrite (Hr t eq_refl). destruct r as [[[T1 p1] w1]|]; simpl; [|done].
  intros [= <-]. apply applyEffect_sameButSets.
Qed.

Lemma optimizedChunks_sameButSets T bp tx ty keys t t' :
  TemplateManager.optimizedChunks T bp tx ty keys t = Some t' → sameButSets t t'.
Proof.
  destruct (optimizedChunks_effect T bp tx ty keys (centerPixelIndex t)) as (r & Hr).
  rewrite (Hr t eq_refl). destruct r as [[[T1 p1] w1]|]; simpl; [|done].
  intros [= <-]. apply applyEffect_sameButSets.
Qed.

Lemma countPixels_sameButSets m base tc ts ts' :
  TemplateManager.countPixels m base tc ts = Some ts' → Forall2 sameButSets ts ts'.
Proof.
  unfold TemplateManager.countPixels. cbv zeta.
  destruct (useLegacyCount m); (destruct (decide _); [done|]).
  - destruct (JS.splitComma tc !! 0%nat ≫= JS.parseInt10) as [tx|]; simpl; [|done].
    destruct (JS.splitComma tc !! 1%nat ≫= JS.parseInt10) as [ty|]; simpl; [|done].
    apply forTemplates_Forall2. intros t t' Hrun. by eapply legacyChunks_sameButSets.
  - destruct (JS.splitComma tc !! 0%nat ≫= JS.parseInt10) as [tx|]; simpl; [|done].
    destruct (JS.splitComma tc !! 1%nat ≫= JS.parseInt10) as [ty|]; simpl; [|done].
    apply forTemplates_Forall2. intros t t' Hrun. by eapply optimizedChunks_sameButSets.
Qed.

Lemma sameButSets_sorted (ts ts' : list Template) :
  Forall2 sameButSets ts ts' →
  StronglySorted (λ a b, sortID a ≤ sortID b) ts →
  StronglySorted (λ a b, sortID a ≤ sortID b) ts'.
Proof.
  intros Hall. induction Hall as [|t t' r r' Ht Hr IH]; [done|].
  intros Hs. apply StronglySorted_inv in Hs as [Hs Hle].
  constructor; [by apply IH|].
  assert (Hsid : sortID t' = sortID t) by (rewrite Ht; done).
  rewrite Hsid. clear -Hr Hle.
  induction Hr as [|u u' r r' Hu _ IH]; [constructor|].
  apply Forall_cons in Hle as [Hle Hrest]. constructor; [|by apply IH].
  rewrite Hu. simpl. done.
Qed.

(** X14. [drawTemplateOnTile] sorts the template array of the manager itself:
    when drawing is enabled and the call returns, the array is ordered by
    [sortID], it holds the templates it held before, and each of them is
    unchanged but for its sets [placed] and [wrong]; the tile size, the
    multiplier and the two flags of the manager are as before. When drawing is
    disabled, the manager is unchanged and the tile is returned as it is. *)
Theorem drawTemplateOnTile_sorts_templates (fuel : nat) (tileBlob : ImageData)
    (tileCoords : Z * Z) (m m' : TemplateManager) (out : TileOutput) :
  TemplateManager.drawTemplateOnTile fuel tileBlob tileCoords m = Some (m', out) →
  (templatesShouldBeDrawn m = false → m' = m ∧ out = Untouched) ∧
  (templatesShouldBeDrawn m = true →
     StronglySorted (λ a b, sortID a ≤ sortID b) (templatesArray m') ∧
     (∃ sorted, sorted ≡ₚ templatesArray m ∧
                Forall2 sameButSets sorted (templatesArray m')) ∧
     mTileSize m' = mTileSize m ∧ drawMult m' = drawMult m ∧
     templatesShouldBeDrawn m' = true ∧ useLegacyCount m' = useLegacyCount m).
Proof.
  unfold TemplateManager.drawTemplateOnTile.
  destruct (templatesShouldBeDrawn m) eqn:Hdraw; simpl.
  2:{ intros [= <- <-]. split; [done|]. intros; done. }
  destruct (decide (Forall _ _)); [|done].
  destruct (decide (_ = 0%nat)).
  - intros [= <- <-]. split; [done|]. intros _. simpl.
    split; [apply sortBySortID_sorted|]. split; [|done].
    exists (TemplateManager.sortBySortID (templatesArray m)).
    split; [apply sortBySortID_perm|].
    apply Forall2_same_length_lookup_2; [done|].
    intros i t t' Ht Ht'. rewrite Ht in Ht'. injection Ht' as <-. apply sameButSets_refl.
  - destruct (TemplateManager.countPixels _ _ _ _) as [ts|] eqn:Hcount; simpl; [|done].
    destruct (TemplateManager.compositeTemplates _ _ _ _) as [ops|]; simpl; [|done].
    intros [= <- <-]. split; [done|]. intros _. simpl.
    apply countPixels_sameButSets in Hcount.
    split; [|split; [|done]].
    + eapply sameButSets_sorted; [exact Hcount|]. apply sortBySortID_sorted.
    + exists (TemplateManager.sortBySortID (templatesArray m)).
      split; [apply sortBySortID_perm|done].
Qed.

(** The worked example drawn on a live tile of 2 x 2 pixels. *)
Lemma drawTemplateOnTile_sorts_templates_witness :
  let m := TemplateManager.withTemplates (Examples.smallManager true)
             (Examples.templatesOf true) in
  match TemplateManager.drawTemplateOnTile 6 Examples.liveTile (0, 0) m with
  | Some (m', out) =>
      (templatesShouldBeDrawn m = false → m' = m ∧ out = Untouched) ∧
      (templatesShouldBeDrawn m = true →
         StronglySorted (λ a b, sortID a ≤ sortID b) (templatesArray m') ∧
         (∃ sorted, sorted ≡ₚ templatesArray m ∧
                    Forall2 sameButSets sorted (templatesArray m')) ∧
         mTileSize m' = mTileSize m ∧ drawMult m' = drawMult m ∧
         templatesShouldBeDrawn m' = true ∧ useLegacyCount m' = useLegacyCount m)
  | None => False
  end.
Proof.
  intros m.
  destruct (TemplateManager.drawTemplateOnTile 6 Examples.liveTile (0, 0) m)
    as [[m' out]|] eqn:Hrun.
  - apply (drawTemplateOnTile_sorts_templates 6 Examples.liveTile (0, 0) m m' out).
    exact Hrun.
  - vm_compute in Hrun. discriminate.
Defined.

(** X15. When [drawTemplateOnTile] returns, it returns the tile as it was
    given exactly when drawing is disabled or no template has a chunk on the
    tile; then the templates of the manager, with their sets, are those it
    held before. *)
Theorem tile_untouched_without_chunks (fuel : nat) (tileBlob : ImageData)
    (tileCoords : Z * Z) (m m' : TemplateManager) (out : TileOutput) :
  TemplateManager.drawTemplateOnTile fuel tileBlob tileCoords m = Some (m', out) →
  (out = Untouched ↔
     templatesShouldBeDrawn m = false ∨
     Forall (λ t, TemplateManager.matchingTiles
                    (TemplateManager.tileCoordsString tileCoords) t = [])
       (templatesArray m)) ∧
  (out = Untouched → templatesArray m' ≡ₚ templatesArray m).
Proof.
  unfold TemplateManager.drawTemplateOnTile.
  destruct (templatesShouldBeDrawn m) eqn:Hdraw; simpl.
  2:{ intros [= <- <-]. split; [|done]. split; [by left|done]. }
  destruct (decide (Forall _ _)); [|done].
  set (tc := TemplateManager.tileCoordsString tileCoords).
  assert (Hnone : length (filter (λ t, TemplateManager.matchingTiles tc t ≠ [])
                            (TemplateManager.sortBySortID (templatesArray m))) = 0%nat ↔
                  Forall (λ t, TemplateManager.matchingTiles tc t = []) (templatesArray m)).
  { rewrite length_zero_iff_nil.
    trans (Forall (λ t, TemplateManager.matchingTiles tc t = [])
             (TemplateManager.sortBySortID (templatesArray m))).
    - generalize (TemplateManager.sortBySortID (templatesArray m)). intros l.
      induction l as [|t r IH].
      + split; [constructor|done].
      + destruct (decide (TemplateManager.matchingTiles tc t = [])) as [He|Hne].
        * rewrite filter_cons_False by (intros Hn; by apply Hn).
          rewrite IH. split; [by constructor|]. by intros [_ ?]%Forall_cons.
        * rewrite filter_cons_True by done. split; [done|].
          by intros [? _]%Forall_cons.
    - split; apply Permutation_Forall; [apply sortBySortID_perm|].
      symmetry. apply sortBySortID_perm. }
  destruct (decide (_ = 0%nat)) as [Hz|Hnz].
  - intros [= <- <-]. split; [|intros _; simpl; apply sortBySortID_perm].
    split; [|done]. intros _. right. by apply Hnone.
  - destruct (TemplateManager.countPixels _ _ _ _) as [ts|]; simpl; [|done].
    destruct (TemplateManager.compositeTemplates _ _ _ _) as [ops|]; simpl; [|done].
    intros [= <- <-]. split; [|done]. split; [done|].
    intros [Hf|Hall]; [done|]. exfalso. apply Hnz. by apply Hnone.
Qed.

(** The worked example drawn on its tile, and on a tile it does not touch. *)
Lemma tile_untouched_without_chunks_witness :
  let m := TemplateManager.withTemplates (Examples.smallManager true)
             (Examples.templatesOf true) in
  match TemplateManager.drawTemplateOnTile 6 Examples.liveTile (7, 7) m with
  | Some (m', out) =>
      (out = Untouched ↔
         templatesShouldBeDrawn m = false ∨
         Forall (λ t, TemplateManager.matchingTiles
                        (TemplateManager.tileCoordsString (7, 7)) t = [])
           (templatesArray m)) ∧
      (out = Untouched → templatesArray m' ≡ₚ templatesArray m)
  | None => False
  end.
Proof.
  intros m.
  destruct (TemplateManager.drawTemplateOnTile 6 Examples.liveTile (7, 7) m)
    as [[m' out]|] eqn:Hrun.
  - apply (tile_untouched_without_chunks 6 Examples.liveTile (7, 7) m m' out).
    exact Hrun.
  - vm_compute in Hrun. discriminate.
Defined.

(** ** Packed colours *)

(** X16. On byte channels the packed colour [(r << 16) | (g << 8) | b] is
    [r * 65536 + g * 256 + b], a number below 2^24; two colours pack to the
    same value only when they are the same colour. *)
Theorem packRGB_faithful (r g b r' g' b' : Z) :
  0 ≤ r < 256 → 0 ≤ g < 256 → 0 ≤ b < 256 →
  0 ≤ r' < 256 → 0 ≤ g' < 256 → 0 ≤ b' < 256 →
  packRGB (Some r) (Some g) (Some b) = r * 65536 + g * 256 + b ∧
  0 ≤ packRGB (Some r) (Some g) (Some b) < 2 ^ 24 ∧
  (packRGB (Some r) (Some g) (Some b) = packRGB (Some r') (Some g') (Some b') →
   r = r' ∧ g = g' ∧ b = b').
Proof.
  intros Hr Hg Hb Hr' Hg' Hb'. rewrite packRGB_bytes by done.
  split; [done|]. split; [lia|].
  rewrite <- (packRGB_bytes r g b) by done. by apply packRGB_inj.
Qed.

Lemma packRGB_faithful_witness :
  packRGB (Some 255) (Some 128) (Some 7) = 255 * 65536 + 128 * 256 + 7 ∧
  0 ≤ packRGB (Some 255) (Some 128) (Some 7) < 2 ^ 24 ∧
  (packRGB (Some 255) (Some 128) (Some 7) = packRGB (Some 255) (Some 128) (Some 7) →
   255 = 255 ∧ 128 = 128 ∧ 7 = 7).
Proof. apply (packRGB_faithful 255 128 7 255 128 7); lia. Defined.

(** ** Reading a chunk key back *)

(** X17. The key that the chunking writes for a chunk at a non-negative pixel
    position, with tile coordinates of at most four digits, is read back by
    the code that uses it: its four fields have 4, 4, 3 and 3 characters,
    [parseInt] on the first two and [Number] on the last two give a tile and
    an offset in [0, 1000) from which the pixel position is recovered, and its
    first two fields are the string under which [drawTemplateOnTile] looks the
    tile up. *)
Theorem chunk_key_round_trip (c0 c1 pixelX pixelY : Z) :
  0 ≤ pixelX → 0 ≤ pixelY →
  0 ≤ c0 + pixelX `div` 1000 < 10000 → 0 ≤ c1 + pixelY `div` 1000 < 10000 →
  let fields := JS.splitComma (Template.templateTileName c0 c1 pixelX pixelY) in
  ∃ tx ty ox oy,
    String.length <$> fields = [4; 4; 3; 3]%nat ∧
    fields !! 0%nat ≫= JS.parseInt10 = Some tx ∧
    fields !! 1%nat ≫= JS.parseInt10 = Some ty ∧
    JS.NumberDec (fields !! 2%nat) = Some ox ∧
    JS.NumberDec (fields !! 3%nat) = Some oy ∧
    0 ≤ ox < 1000 ∧ 0 ≤ oy < 1000 ∧
    pixelX = (tx - c0) * 1000 + ox ∧ pixelY = (ty - c1) * 1000 + oy ∧
    Template.tileXYOf (Template.templateTileName c0 c1 pixelX pixelY) =
      TemplateManager.tileCoordsString (tx, ty).
Proof.
  intros HX HY Hx Hy fields.
  destruct (templateTileName_format c0 c1 pixelX pixelY HX HY Hx Hy)
    as (_ & Hlen & Ht0 & Ht1 & Hp2 & Hp3 & Hox & Hoy & Hxy).
  eexists _, _, _, _. split; [exact Hlen|]. split; [exact Ht0|]. split; [exact Ht1|].
  split; [exact Hp2|]. split; [exact Hp3|]. split; [done|]. split; [done|].
  pose proof (Z.div_mod pixelX 1000). pose proof (Z.div_mod pixelY 1000).
  split; [lia|]. split; [lia|done].
Qed.

Lemma chunk_key_round_trip_witness :
  let fields := JS.splitComma (Template.templateTileName 12 2047 1998 999) in
  ∃ tx ty ox oy,
    String.length <$> fields = [4; 4; 3; 3]%nat ∧
    fields !! 0%nat ≫= JS.parseInt10 = Some tx ∧
    fields !! 1%nat ≫= JS.parseInt10 = Some ty ∧
    JS.NumberDec (fields !! 2%nat) = Some ox ∧
    JS.NumberDec (fields !! 3%nat) = Some oy ∧
    0 ≤ ox < 1000 ∧ 0 ≤ oy < 1000 ∧
    1998 = (tx - 12) * 1000 + ox ∧ 999 = (ty - 2047) * 1000 + oy ∧
    Template.tileXYOf (Template.templateTileName 12 2047 1998 999) =
      TemplateManager.tileCoordsString (tx, ty).
Proof.
  apply (chunk_key_round_trip 12 2047 1998 999); [lia|lia|vm_compute|vm_compute];
    (split; [discriminate|reflexivity]).
Defined.

(** ** [createTemplate] *)

(** X18. [createTemplate] returns for every image placed at a non-negative
    pixel offset (given fuel for the size of the image, and a multiplier other
    than 0): the manager then holds this one template and none of the earlier
    ones; the template has sort number 0, its chunks, the width times the
    height of the image as pixel count, empty sets [placed] and [wrong], and
    every colour of its histogram enabled. *)
Theorem createTemplate_returns (fuel : nat) (blob : ImageData) (c0 c1 c2 c3 : Z)
    (m : TemplateManager) :
  0 ≤ c2 → 0 ≤ c3 → drawMult m ≠ 0 →
  (Z.to_nat (height blob) + Z.to_nat (width blob) ≤ fuel)%nat →
  ∃ t1 tiles,
    TemplateManager.createTemplate fuel blob (c0, c1, c2, c3) m =
      Some (TemplateManager.withTemplates m [t1]) ∧
    chunked t1 = Some tiles ∧ sortID t1 = 0 ∧
    file t1 = Some blob ∧ coords t1 = Some (c0, c1, c2, c3) ∧
    pixelCount t1 = width blob * height blob ∧
    placedPixelKeys t1 = ∅ ∧ wrongPixelKeys t1 = ∅ ∧
    activeColors t1 = Some (dom (colorsUsed t1)).
Proof.
  intros Hc2 Hc3 Hdm Hfuel. unfold TemplateManager.createTemplate.
  set (t0 := Template.new 0 (Some blob) (Some (c0, c1, c2, c3)) None 1000).
  destruct (createTemplateTiles_total fuel t0 blob c0 c1 c2 c3)
    as [[[t1 tiles] segs] Hrun];
    [done|done|by eexists|simpl; lia|done|done|simpl; lia|].
  rewrite Hrun. simpl.
  destruct (createTemplateTiles_loop fuel t0 t1 tiles segs blob c0 c1 c2 c3 eq_refl eq_refl Hrun)
    as (st & _ & _ & _ & Hpc & _ & _ & _ & _ & Hsid & Hfile & Hcoords & _ & _ & Hp & Hw).
  unfold Template.buildCenterPixelIndex. simpl.
  rewrite decide_False by done. destruct (foldl _ _ _) as [cpi cu]. simpl.
  eexists _, _. split; [reflexivity|]. simpl. by repeat split.
Qed.

Lemma createTemplate_returns_witness :
  ∃ t1 tiles,
    TemplateManager.createTemplate 4 Examples.image22 (3, 4, 999, 999) TemplateManager.new =
      Some (TemplateManager.withTemplates TemplateManager.new [t1]) ∧
    chunked t1 = Some tiles ∧ sortID t1 = 0 ∧
    file t1 = Some Examples.image22 ∧ coords t1 = Some (3, 4, 999, 999) ∧
    pixelCount t1 = width Examples.image22 * height Examples.image22 ∧
    placedPixelKeys t1 = ∅ ∧ wrongPixelKeys t1 = ∅ ∧
    activeColors t1 = Some (dom (colorsUsed t1)).
Proof.
  apply (createTemplate_returns 4 Examples.image22 3 4 999 999 TemplateManager.new);
    [lia|lia|simpl; lia|simpl; lia].
Defined.

(** ** [createTemplateTiles] on a template whose allow-list is null *)

(** X19. On a template whose [activeColors] is null, [createTemplateTiles]
    returns no result when the image has a pixel that is not transparent:
    when the loops end, the colour of that pixel has been counted, and adding
    it to the null allow-list throws. *)
Theorem createTemplateTiles_fails_on_null_allow_list (fuel : nat) (t : Template)
    (bitmap : ImageData) (x y : Z) :
  file t = Some bitmap → activeColors t = None →
  Z.of_nat (length (data bitmap)) = 4 * width bitmap * height bitmap →
  0 ≤ x < width bitmap → 0 ≤ y < height bitmap →
  JS.get (data bitmap) ((y * width bitmap + x) * 4 + 3) ≠ Some 0 →
  Template.createTemplateTiles fuel t = None.
Proof.
  intros Hfile Hac Hlen Hx Hy Ha. unfold Template.createTemplateTiles.
  rewrite Hfile. simpl. destruct (coords t) as [[[[c0 c1] c2] c3]|]; simpl; [|done].
  destruct (decide (tileSize t = 0)); [done|].
  destruct (Template.tileLoop _ _ _ _ _ _ _ _ _) as [st|] eqn:Hloop; simpl; [|done].
  destruct (tileLoop_colors bitmap c0 c1 c2 c3 x y Hlen Hx Hy Ha _ _ _ _ _ Hloop)
    as [_ Hfound].
  rewrite Hac. simpl. destruct (decide (Template.chColorsUsed st = ∅)) as [He|]; [|done].
  assert (Hin := Hfound ltac:(lia)). rewrite He, dom_empty_L in Hin.
  by apply not_elem_of_empty in Hin.
Qed.

Lemma createTemplateTiles_fails_on_null_allow_list_witness :
  Template.createTemplateTiles 5
    (mkTemplate 0 (Some Examples.image21) (Some (0, 0, 0, 0)) None 1000 0 ∅ ∅ ∅ None ∅ ∅)
  = None.
Proof.
  apply (createTemplateTiles_fails_on_null_allow_list 5 _ Examples.image21 0 0);
    [reflexivity|reflexivity|reflexivity|simpl; lia|simpl; lia|].
  vm_compute. discriminate.
Defined.

(** ** [drawTemplateOnTile] returns *)

Lemma compositeChunks_total fuel tpl c keys :
  chunked tpl = Some c →
  Forall (λ key, keyReadable key ∧
                 ∃ bmp, objGet key c = Some bmp ∧
                   0 ≤ width bmp ∧ 0 ≤ height bmp ∧
                   Z.of_nat (length (data bmp)) = 4 * width bmp * height bmp ∧
                   (Z.to_nat (width bmp) ≤ fuel)%nat ∧ (Z.to_nat (height bmp) ≤ fuel)%nat)
    keys →
  is_Some (TemplateManager.compositeChunks fuel 3 tpl keys).
Proof.
  intros Hc. induction 1 as [|key rest Hkey _ [ops' IH]]; [by eexists|].
  destruct Hkey as ([[px Hpx] [py Hpy]] & bmp & Hbmp & Hw & Hh & Hlen & Hfw & Hfh).
  cbn [TemplateManager.compositeChunks]. unfold TemplateManager.compositeChunk.
  rewrite Hc. simpl. rewrite Hpx, Hpy, Hbmp. simpl.
  destruct (activeColors tpl) as [ac|]; simpl.
  - destruct (decide (size ac = 0%nat)); simpl.
    + rewrite IH. simpl. by eexists.
    + destruct (maskChunk_cleared ac bmp Hw Hh Hlen fuel Hfw Hfh) as (masked & -> & _).
      simpl. rewrite IH. simpl. by eexists.
  - rewrite IH. simpl. by eexists.
Qed.

Lemma compositeTemplates_total fuel tc ts :
  Forall (drawable fuel tc) ts →
  is_Some (TemplateManager.compositeTemplates fuel 3 tc ts).
Proof.
  induction 1 as [|t r (c & Hc & Hkeys) _ [ops' IH]]; [by eexists|].
  cbn [TemplateManager.compositeTemplates].
  destruct (compositeChunks_total fuel t c _ Hc Hkeys) as [ops ->]. simpl.
  rewrite IH. simpl. by eexists.
Qed.

Lemma drawable_sameButSets fuel tc t t' :
  sameButSets t t' → drawable fuel tc t → drawable fuel tc t'.
Proof. intros ->. by destruct t. Qed.

Lemma drawTemplateOnTile_total (fuel : nat) (tileBlob : ImageData) (tx ty : Z)
    (m : TemplateManager) :
  0 < mTileSize m → drawMult m = 3 → 0 ≤ tx < 10000 → 0 ≤ ty < 10000 →
  Forall (drawable fuel (TemplateManager.tileCoordsString (tx, ty))) (templatesArray m) →
  is_Some (TemplateManager.drawTemplateOnTile fuel tileBlob (tx, ty) m).
Proof.
  intros HT Hdm Htx Hty Hall. unfold TemplateManager.drawTemplateOnTile.
  destruct (templatesShouldBeDrawn m); simpl; [|by eexists].
  set (tc := TemplateManager.tileCoordsString (tx, ty)) in *.
  assert (Hsorted : Forall (drawable fuel tc) (TemplateManager.sortBySortID (templatesArray m))).
  { eapply Permutation_Forall; [|exact Hall]. symmetry. apply sortBySortID_perm. }
  rewrite decide_True.
  2:{ apply Forall_forall. intros t [_ Ht]%list_elem_of_filter.
      rewrite Forall_forall in Hsorted. destruct (Hsorted t Ht) as (c & -> & _). by eexists. }
  destruct (decide (_ = 0%nat)); [by eexists|].
  destruct (countPixels_total m tileBlob tx ty
              (TemplateManager.sortBySortID (templatesArray m))) as [ts Hcount];
    [done|lia|done|done| |].
  { eapply Forall_impl; [exact Hsorted|]. intros t (c & Hc & Hkeys). cbv zeta. split.
    - eapply Forall_impl; [exact Hkeys|]. by intros key [? _].
    - intros _. exists c. split; [done|].
      eapply Forall_impl; [exact Hkeys|]. intros key (_ & bmp & -> & _). by eexists. }
  fold tc in Hcount. rewrite Hcount. simpl. rewrite Hdm.
  destruct (compositeTemplates_total fuel tc ts) as [ops ->]; [|simpl; by eexists].
  apply countPixels_sameButSets in Hcount. clear -Hcount Hsorted.
  induction Hcount as [|t t' r r' Ht _ IH]; [constructor|].
  apply Forall_cons in Hsorted as [Hd Hrest].
  constructor; [by eapply drawable_sameButSets|by apply IH].
Qed.

Lemma objGet_of_key {V : Type} (Q : string * V → Prop) (key : string)
    (o : list (string * V)) :
  Forall Q o → key ∈ o.*1 → ∃ v, objGet key o = Some v ∧ Q (key, v).
Proof.
  induction 1 as [|[k v] r Hv _ IH]; simpl.
  - by intros ?%elem_of_nil.
  - intros [->|Hin]%elem_of_cons.
    + rewrite decide_True by done. by exists v.
    + destruct (decide (k = key)) as [->|]; [by exists v|]. by apply IH.
Qed.

(** X20. A template made by [createTemplate] (non-negative coordinates, tiles
    of at most four digits, multiplier 3, positive tile size) can always be
    drawn: [drawTemplateOnTile] returns for every live tile and all tile
    coordinates of at most four digits, given fuel for three times the sides
    of the image. *)
Theorem created_template_is_drawn (fuel0 fuel : nat) (blob tileBlob : ImageData)
    (c0 c1 c2 c3 tx ty : Z) (m m1 : TemplateManager) :
  0 < mTileSize m → drawMult m = 3 →
  0 ≤ c0 → 0 ≤ c1 → 0 ≤ c2 → 0 ≤ c3 → 0 ≤ width blob → 0 ≤ height blob →
  c0 + (c2 + width blob) `div` 1000 < 10000 →
  c1 + (c3 + height blob) `div` 1000 < 10000 →
  0 ≤ tx < 10000 → 0 ≤ ty < 10000 →
  (Z.to_nat (3 * width blob) ≤ fuel)%nat → (Z.to_nat (3 * height blob) ≤ fuel)%nat →
  TemplateManager.createTemplate fuel0 blob (c0, c1, c2, c3) m = Some m1 →
  is_Some (TemplateManager.drawTemplateOnTile fuel tileBlob (tx, ty) m1).
Proof.
  intros HT Hdm Hc0 Hc1 Hc2 Hc3 HW HH HmaxX HmaxY Htx Hty HfW HfH.
  unfold TemplateManager.createTemplate.
  set (t0 := Template.new 0 (Some blob) (Some (c0, c1, c2, c3)) None 1000).
  destruct (Template.createTemplateTiles fuel0 t0) as [[[t1 tiles] segs]|] eqn:Hrun;
    simpl; [|done].
  destruct (Template.buildCenterPixelIndex _ _) as [t4|] eqn:Hbuild; simpl; [|done].
  intros [= <-].
  apply drawTemplateOnTile_total; [done|done|done|done|]. simpl.
  constructor; [|constructor].
  destruct (createTemplateTiles_loop fuel0 t0 t1 tiles segs blob c0 c1 c2 c3 eq_refl eq_refl Hrun)
    as (st & Hloop & -> & -> & _).
  simpl in Hloop.
  destruct (tileLoop_partition blob 1000 c0 c1 c2 c3 ltac:(lia) Hc2 Hc3 HW HH fuel0
              (Template.mkChunking [] ∅ ∅ ∅ []) st eq_refl Hloop) as (_ & Hin & _ & _).
  apply tileLoop_chunks in Hloop as (Hall & _ & Hnames & _); try done.
  set (t3 := Template.buildTileIndex
               (Template.withChunked t1 (Some (Template.templateTiles st)))) in *.
  assert (Hch3 : chunked t3 = Some (Template.templateTiles st)) by done.
  destruct (buildCenterPixelIndex_of_chunked (drawMult m) t3 t4 t3 eq_refl
              ltac:(by eexists) Hbuild) as [_ Ht4].
  exists (Template.templateTiles st). split; [by rewrite Ht4|].
  unfold TemplateManager.matchingTiles. rewrite Ht4. cbn [tileIndex Template.resetPlacedPixels Template.withSets].
  subst t3. rewrite (buildTileIndex_fold _ (Template.templateTiles st)) by done.
  rewrite tileIndex_fold_lookup, lookup_empty. simpl.
  apply Forall_forall. intros key [_ Hkey]%list_elem_of_filter.
  assert (Hbmps : Forall (λ kb : string * ImageData,
            (keyReadable kb.1 ∧
             0 ≤ width kb.2 ∧ 0 ≤ height kb.2 ∧
             Z.of_nat (length (data kb.2)) = 4 * width kb.2 * height kb.2 ∧
             (Z.to_nat (width kb.2) ≤ fuel)%nat ∧ (Z.to_nat (height kb.2) ≤ fuel)%nat))
            (Template.templateTiles st)).
  { rewrite Forall_forall in Hnames. apply Forall_forall. intros kb Hkb.
    apply list_elem_of_lookup in Hkb as [i Hi].
    destruct (Forall2_lookup_r _ _ _ _ _ Hall Hi) as (s & Hsi & Hk & Hw & Hh & Hlen & _).
    assert (Hs : s ∈ Template.segments st) by (by eapply list_elem_of_lookup_2).
    destruct (Hin s Hs) as (HdX & HdY & HsX & HsY & HsW & Hbefore).
    assert (HsH : segPixelY s + drawSizeY s ≤ height blob + c3)
      by (destruct Hbefore as [?|(? & ? & ?)]; lia).
    destruct (Hnames s Hs) as (Hname & _).
    pose proof (tile_field_bound c0 (segPixelX s) (c2 + width blob) Hc0
                  ltac:(lia) HmaxX) as HbX.
    pose proof (tile_field_bound c1 (segPixelY s) (c3 + height blob) Hc1
                  ltac:(lia) HmaxY) as HbY.
    destruct (templateTileName_format c0 c1 (segPixelX s) (segPixelY s)
                ltac:(lia) ltac:(lia) HbX HbY) as (_ & _ & _ & _ & Hp2 & Hp3 & _).
    rewrite Hk, Hname. split; [split; by eexists|].
    rewrite Hw, Hh in *. repeat split; try lia. }
  destruct (objGet_of_key _ key _ Hbmps Hkey) as (bmp & Hget & Hread & Hbmp).
  split; [done|]. by exists bmp.
Qed.

(** The worked example, created and drawn on a live tile of 2 x 2 pixels. *)
Lemma created_template_is_drawn_witness :
  match TemplateManager.createTemplate 5 Examples.image22 (0, 0, 0, 0)
          (Examples.smallManager true) with
  | Some m1 => is_Some (TemplateManager.drawTemplateOnTile 6 Examples.liveTile (0, 0) m1)
  | None => False
  end.
Proof.
  destruct (TemplateManager.createTemplate 5 Examples.image22 (0, 0, 0, 0)
              (Examples.smallManager true)) as [m1|] eqn:Hrun.
  - apply (created_template_is_drawn 5 6 Examples.image22 Examples.liveTile 0 0 0 0 0 0
             (Examples.smallManager true) m1);
      [simpl; lia|reflexivity|lia|lia|lia|lia|simpl; lia|simpl; lia
      |vm_compute; reflexivity|vm_compute; reflexivity|lia|lia|simpl; lia|simpl; lia
      |exact Hrun].
  - vm_compute in Hrun. discriminate.
Defined.

(** ** The sizes of the chunk bitmaps *)

(** X21. For a positive tile size and a placement with non-negative
    coordinates whose tiles have at most four digits, [createTemplateTiles]
    returns (given fuel for the size of the image), and the first bitmap it
    stores is the chunk at the placement offset: its key is the key of that
    pixel position, whose last two fields read back as the position modulo
    1000; the bitmap is three times the size [min (T - offset mod T, extent)]
    per axis, and the index entry of the key has that size. Every stored
    bitmap is the chunk of a pixel position of which it has the key, it is
    three times [min (T - position mod T, remaining extent)] per axis, as is
    its index entry, and a chunk that is not the first of its row (column)
    starts on a tile boundary, so that it is [T] wide (high) unless the far
    edge of the image cuts it. *)
Theorem chunk_bitmaps_are_partial_tiles (fuel : nat) (t : Template) (bitmap : ImageData)
    (c0 c1 c2 c3 : Z) :
  let T := tileSize t in
  let W := width bitmap in
  let H := height bitmap in
  file t = Some bitmap → coords t = Some (c0, c1, c2, c3) →
  is_Some (activeColors t) →
  0 < T → 0 ≤ c0 → 0 ≤ c1 → 0 ≤ c2 → 0 ≤ c3 → 0 < W → 0 < H →
  c0 + (c2 + W) `div` 1000 < 10000 → c1 + (c3 + H) `div` 1000 < 10000 →
  (Z.to_nat H + Z.to_nat W ≤ fuel)%nat →
  ∃ t' bmp tiles segs ci,
    let key := Template.templateTileName c0 c1 c2 c3 in
    Template.createTemplateTiles fuel t = Some (t', (key, bmp) :: tiles, segs) ∧
    width bmp = 3 * Z.min (T - c2 `mod` T) W ∧
    height bmp = 3 * Z.min (T - c3 `mod` T) H ∧
    centerPixelIndex t' !! key = Some ci ∧
    cwidth ci = Z.min (T - c2 `mod` T) W ∧ cheight ci = Z.min (T - c3 `mod` T) H ∧
    JS.NumberDec (JS.splitComma key !! 2%nat) = Some (c2 `mod` 1000) ∧
    JS.NumberDec (JS.splitComma key !! 3%nat) = Some (c3 `mod` 1000) ∧
    Forall (λ kb, ∃ pixelX pixelY ci',
              kb.1 = Template.templateTileName c0 c1 pixelX pixelY ∧
              c2 ≤ pixelX ∧ c3 ≤ pixelY ∧
              (pixelX ≠ c2 → pixelX `mod` T = 0) ∧
              (pixelY ≠ c3 → pixelY `mod` T = 0) ∧
              width kb.2 = 3 * Z.min (T - pixelX `mod` T) (W - (pixelX - c2)) ∧
              height kb.2 = 3 * Z.min (T - pixelY `mod` T) (H - (pixelY - c3)) ∧
              centerPixelIndex t' !! kb.1 = Some ci' ∧
              3 * cwidth ci' = width kb.2 ∧ 3 * cheight ci' = height kb.2)
      ((key, bmp) :: tiles).
Proof.
  intros T W H Hfile Hcoords Hac HT Hc0 Hc1 Hc2 Hc3 HW HH HmaxX HmaxY Hfuel.
  destruct (createTemplateTiles_total fuel t bitmap c0 c1 c2 c3) as [[[t' tiles] segs] Hrun];
    try done.
  destruct (createTemplateTiles_loop _ _ _ _ _ _ _ _ _ _ Hfile Hcoords Hrun)
    as (st & Hloop & Htiles & Hsegs & _ & _ & Hcpi & _).
  fold T in Hloop.
  destruct (tileLoop_segments bitmap T c0 c1 c2 c3 HT Hc2 Hc3 _ c3 _ _ HW
              (Z.le_refl c3) (or_introl eq_refl) Hloop) as (new & Hnew & Hshaped & Hfirst).
  simpl in Hnew. rewrite <- Hsegs in Hnew. subst new.
  destruct Hfirst as (f & r & Hfr & HfX & HfY); [fold H; lia|].
  destruct (tileLoop_chunks bitmap T c0 c1 c2 c3 HT Hc0 Hc1 Hc2 Hc3 ltac:(fold W; lia)
              ltac:(fold H; lia) HmaxX HmaxY fuel
              (Template.mkChunking [] (colorsUsed t) (centerPixelIndex t) (tileIndex t) [])
              st eq_refl eq_refl Hloop)
    as (Henc & _ & _ & _).
  rewrite <- Htiles, <- Hsegs in Henc.
  assert (Hidx : chunksIndexed (centerPixelIndex t) st).
  { apply (tileLoop_inv (chunksIndexed (centerPixelIndex t)) bitmap c0 c1 c2 c3)
      in Hloop; [done| |].
    - intros. by apply chunkSegment_indexed.
    - split; [apply NoDup_nil_2|]. split; [done|]. done. }
  destruct Hidx as (Hnd & Hin & _). rewrite <- Htiles in Hnd, Hin. rewrite <- Hcpi in Hin.
  assert (Hall : Forall (λ kb, ∃ pixelX pixelY ci',
              kb.1 = Template.templateTileName c0 c1 pixelX pixelY ∧
              c2 ≤ pixelX ∧ c3 ≤ pixelY ∧
              (pixelX ≠ c2 → pixelX `mod` T = 0) ∧
              (pixelY ≠ c3 → pixelY `mod` T = 0) ∧
              width kb.2 = 3 * Z.min (T - pixelX `mod` T) (W - (pixelX - c2)) ∧
              height kb.2 = 3 * Z.min (T - pixelY `mod` T) (H - (pixelY - c3)) ∧
              centerPixelIndex t' !! kb.1 = Some ci' ∧
              3 * cwidth ci' = width kb.2 ∧ 3 * cheight ci' = height kb.2) tiles).
  { apply Forall_lookup. intros i [k b] Hi.
    destruct (Forall2_lookup_r _ _ _ _ _ Henc Hi) as (s & Hs & Hk & Hw & Hh & _).
    pose proof (Forall_lookup_1 _ _ _ _ Hshaped Hs)
      as (HsX & HsY & HdX & HdY & HmX & HmY & _ & _ & Hname).
    simpl in Hk, Hw, Hh. subst k.
    assert (Hget : objGet (segName s) tiles = Some b).
    { apply objGet_elem_of; [done|]. by eapply list_elem_of_lookup_2. }
    destruct (Hin _ _ Hget) as [_ Hci].
    exists (segPixelX s), (segPixelY s), (Template.inlineCenter (data b) (width b) (height b)).
    simpl. fold W H in HdX, HdY. unfold Template.shreadSize.
    split; [by rewrite Hname|]. split; [done|]. split; [done|]. split; [done|].
    split; [done|]. split; [lia|]. split; [lia|]. split; [done|].
    rewrite Hw, Hh, !Z.div_mul by lia. lia. }
  rewrite Hfr in Henc. apply Forall2_cons_inv_l in Henc as ([k b] & rest & Hkb & _ & ->).
  destruct Hkb as (Hk & Hw & Hh & _). simpl in Hk, Hw, Hh.
  pose proof Hshaped as Hf. rewrite Hfr in Hf. apply Forall_cons in Hf as [Hf _].
  destruct Hf as (_ & _ & HdX & HdY & _ & _ & _ & _ & Hname).
  rewrite HfX in HdX. rewrite HfY in HdY. rewrite HfX, HfY in Hname.
  rewrite Hname in Hk. subst k.
  fold W H in HdX, HdY.
  assert (Hget : objGet (Template.templateTileName c0 c1 c2 c3)
                   ((Template.templateTileName c0 c1 c2 c3, b) :: rest) = Some b).
  { simpl. by rewrite decide_True. }
  destruct (Hin _ _ Hget) as [_ Hci].
  destruct (templateTileName_format c0 c1 c2 c3 Hc2 Hc3) as (_ & _ & _ & _ & Hox & Hoy & _).
  { apply (tile_field_bound c0 c2 (c2 + W)); [done|lia|done]. }
  { apply (tile_field_bound c1 c3 (c3 + H)); [done|lia|done]. }
  exists t', b, rest, segs, (Template.inlineCenter (data b) (width b) (height b)).
  cbv zeta. split; [exact Hrun|]. split; [lia|]. split; [lia|]. split; [exact Hci|].
  simpl. unfold Template.shreadSize. rewrite Hw, Hh, !Z.div_mul by lia.
  split; [lia|]. split; [lia|]. split; [exact Hox|]. split; [exact Hoy|]. exact Hall.
Qed.

(** The worked example placed at pixel offset (998, 999) of tile (3, 4), for
    tiles of 1000 pixels. *)
Lemma chunk_bitmaps_are_partial_tiles_witness :
  let t := Template.new 0 (Some Examples.image22) (Some (3, 4, 998, 999)) None 1000 in
  ∃ t' bmp tiles segs ci,
    let key := Template.templateTileName 3 4 998 999 in
    Template.createTemplateTiles 4 t = Some (t', (key, bmp) :: tiles, segs) ∧
    width bmp = 3 * Z.min (1000 - 998 `mod` 1000) 2 ∧
    height bmp = 3 * Z.min (1000 - 999 `mod` 1000) 2 ∧
    centerPixelIndex t' !! key = Some ci ∧
    cwidth ci = Z.min (1000 - 998 `mod` 1000) 2 ∧
    cheight ci = Z.min (1000 - 999 `mod` 1000) 2 ∧
    JS.NumberDec (JS.splitComma key !! 2%nat) = Some (998 `mod` 1000) ∧
    JS.NumberDec (JS.splitComma key !! 3%nat) = Some (999 `mod` 1000) ∧
    Forall (λ kb, ∃ pixelX pixelY ci',
              kb.1 = Template.templateTileName 3 4 pixelX pixelY ∧
              998 ≤ pixelX ∧ 999 ≤ pixelY ∧
              (pixelX ≠ 998 → pixelX `mod` 1000 = 0) ∧
              (pixelY ≠ 999 → pixelY `mod` 1000 = 0) ∧
              width kb.2 = 3 * Z.min (1000 - pixelX `mod` 1000) (2 - (pixelX - 998)) ∧
              height kb.2 = 3 * Z.min (1000 - pixelY `mod` 1000) (2 - (pixelY - 999)) ∧
              centerPixelIndex t' !! kb.1 = Some ci' ∧
              3 * cwidth ci' = width kb.2 ∧ 3 * cheight ci' = height kb.2)
      ((key, bmp) :: tiles).
Proof.
  intros t.
  apply (chunk_bitmaps_are_partial_tiles 4 t Examples.image22 3 4 998 999);
    simpl; try reflexivity; try lia; by eexists.
Defined.
